(** * Cryptolens licensing client for Go: signed license payload model

    A shallow embedding of [cryptolens/cryptolens.go] together with the
    parts of the Go standard library the client calls
    ([encoding/base64], [encoding/json], [strings], [time], [math/big],
    [crypto/sha256], [crypto/rsa]), and of the program
    [examples/example_activate/main.go] that uses the client.

    Go values are modelled as follows.
    - [[]byte] and [string] are both [list byte]; the conversions
      [[]byte(s)] and [string(b)] are the identity.
    - [int] and [int64] are [Z], with the 64-bit range checked where the
      library checks it and the wrap-around written out where Go wraps.
    - a function returning [(T, error)] returns a pair [T * option error],
      where [None] is the [nil] error. *)

From Stdlib Require Import ZArith List Lia Bool.
From Stdlib Require Import Strings.Byte Strings.String DecimalString.
From Stdlib Require DecimalPos.
Import ListNotations.
Open Scope Z_scope.
Set Warnings "-register-all".

(** ** Bytes *)

Definition bytes := list byte.

(** A string literal as the bytes of a Go string. *)
Definition B (s : string) : bytes := list_byte_of_string s.

(** Text that holds double quotes, written with apostrophes in their
    place. *)
Definition J (s : string) : bytes :=
  map (fun c => if Byte.eqb c "'"%byte then x22 else c) (B s).

Definition byte_to_Z (b : byte) : Z := Z.of_N (Byte.to_N b).

(** Go's conversion [byte(x)] of an unsigned integer: the low eight bits. *)
Definition byte_of_Z (z : Z) : byte :=
  match Byte.of_N (Z.to_N (z mod 256)) with
  | Some b => b
  | None => x00
  end.

Definition bytes_eqb (a b : bytes) : bool :=
  if list_eq_dec Byte.byte_eq_dec a b then true else false.

(** The double quote and the backslash, named once. *)
Definition dquote : byte := x22.
Definition backslash : byte := x5c.

(** ** Errors

    The error values the client can return, by the library that creates
    them.  Offsets and messages carried by the Go values are not
    modelled. *)

Inductive error : Type :=
| base64_CorruptInputError
| json_SyntaxError
| json_UnmarshalTypeError
| io_EOF
| io_ErrUnexpectedEOF
| xml_Error
| rsa_InputError
| rsa_ErrVerification
| http_Error.

(** ** encoding/base64, [StdEncoding] *)

Module base64.

Definition encodeStd : bytes :=
  B "ABCDEFGHIJKLMNOPQRSTUVWXYZabcdefghijklmnopqrstuvwxyz0123456789+/".

Definition StdPadding : byte := "="%byte.

(** [enc.encode[i]] *)
Definition encode (i : Z) : byte := nth (Z.to_nat i) encodeStd x00.

Fixpoint index_of (c : byte) (l : bytes) (i : Z) : Z :=
  match l with
  | [] => 255
  | x :: r => if Byte.eqb c x then i else index_of c r (i + 1)
  end.

(** [enc.decodeMap[c]]: the position of [c] in the alphabet, [0xff] for a
    byte outside it. *)
Definition decodeMap (c : byte) : Z := index_of c encodeStd 0.

Definition sextet (val sh : Z) : byte :=
  encode (Z.land (Z.shiftr val sh) 63).

(** [Encoding.Encode]: three source bytes make four characters; a
    remainder of one or two bytes is padded with [=]. *)
Fixpoint Encode (src : bytes) : bytes :=
  match src with
  | [] => []
  | [b0] =>
      let val := Z.shiftl (byte_to_Z b0) 16 in
      [sextet val 18; sextet val 12; StdPadding; StdPadding]
  | [b0; b1] =>
      let val := Z.lor (Z.shiftl (byte_to_Z b0) 16)
                       (Z.shiftl (byte_to_Z b1) 8) in
      [sextet val 18; sextet val 12; sextet val 6; StdPadding]
  | b0 :: b1 :: b2 :: rest =>
      let val := Z.lor (Z.lor (Z.shiftl (byte_to_Z b0) 16)
                              (Z.shiftl (byte_to_Z b1) 8))
                       (byte_to_Z b2) in
      sextet val 18 :: sextet val 12 :: sextet val 6 :: sextet val 0
        :: Encode rest
  end.

Definition EncodeToString (src : bytes) : bytes := Encode src.

Definition is_newline (c : byte) : bool :=
  Byte.eqb c x0a || Byte.eqb c x0d.

Fixpoint skip_newlines (src : bytes) : bytes :=
  match src with
  | c :: r => if is_newline c then skip_newlines r else src
  | [] => []
  end.

(** The value assembled from the sextets read so far ([dbuf], missing
    ones being zero) and its three bytes. *)
Definition quantum_val (dbuf : list Z) : Z :=
  Z.lor (Z.lor (Z.lor (Z.shiftl (nth 0 dbuf 0) 18)
                      (Z.shiftl (nth 1 dbuf 0) 12))
               (Z.shiftl (nth 2 dbuf 0) 6))
        (nth 3 dbuf 0).

Definition quantum_bytes (dbuf : list Z) (dlen : nat) : bytes :=
  let val := quantum_val dbuf in
  firstn (dlen - 1)
    [byte_of_Z (Z.shiftr val 16); byte_of_Z (Z.shiftr val 8);
     byte_of_Z (Z.shiftr val 0)].

(** [Encoding.Decode], one source byte at a time.  [dbuf] holds the
    sextets of the quantum being read ([j] of [decodeQuantum] is its
    length).  The result is the bytes decoded up to the error, if any. *)
Fixpoint decode (src : bytes) (dbuf : list Z) : bytes * option error :=
  match src with
  | [] =>
      match dbuf with
      | [] => ([], None)
      | _ => ([], Some base64_CorruptInputError)
      end
  | c :: rest =>
      let out := decodeMap c in
      if negb (out =? 255) then
        let dbuf' := dbuf ++ [out] in
        if (List.length dbuf' =? 4)%nat then
          let (tl, err) := decode rest [] in
          (quantum_bytes dbuf' 4 ++ tl, err)
        else decode rest dbuf'
      else if is_newline c then decode rest dbuf
      else if negb (Byte.eqb c StdPadding) then
        ([], Some base64_CorruptInputError)
      else
        (* the end has been reached and there is padding *)
        match dbuf with
        | [] | [_] => ([], Some base64_CorruptInputError)
        | [_; _] =>
            (* a second padding character is expected *)
            match skip_newlines rest with
            | [] => ([], Some base64_CorruptInputError)
            | c1 :: rest1 =>
                if negb (Byte.eqb c1 StdPadding) then
                  ([], Some base64_CorruptInputError)
                else
                  match skip_newlines rest1 with
                  | [] => (quantum_bytes dbuf 2, None)
                  | _ => (quantum_bytes dbuf 2,
                          Some base64_CorruptInputError)
                  end
            end
        | _ =>
            match skip_newlines rest with
            | [] => (quantum_bytes dbuf 3, None)
            | _ => (quantum_bytes dbuf 3, Some base64_CorruptInputError)
            end
        end
  end.

Definition DecodeString (s : bytes) : bytes * option error := decode s [].

End base64.

(** ** unicode/utf8 *)

Module utf8.

Definition between (lo hi : Z) (c : byte) : bool :=
  (lo <=? byte_to_Z c) && (byte_to_Z c <=? hi).

(** The number of bytes of the well-formed encoding at the head of [s],
    and [0] where [DecodeRune] answers [(RuneError, 1)]: a stray
    continuation byte, an overlong form, a surrogate, a value above
    U+10FFFF or a truncated sequence. *)
Definition rune_len (s : bytes) : nat :=
  match s with
  | [] => 0%nat
  | c0 :: r =>
      let x := byte_to_Z c0 in
      if x <? 0x80 then 1%nat
      else if x <? 0xC2 then 0%nat
      else if x <? 0xE0 then
        match r with
        | c1 :: _ => if between 0x80 0xBF c1 then 2%nat else 0%nat
        | _ => 0%nat
        end
      else if x <? 0xF0 then
        let lo := if x =? 0xE0 then 0xA0 else 0x80 in
        let hi := if x =? 0xED then 0x9F else 0xBF in
        match r with
        | c1 :: c2 :: _ =>
            if between lo hi c1 && between 0x80 0xBF c2 then 3%nat else 0%nat
        | _ => 0%nat
        end
      else if x <? 0xF5 then
        let lo := if x =? 0xF0 then 0x90 else 0x80 in
        let hi := if x =? 0xF4 then 0x8F else 0xBF in
        match r with
        | c1 :: c2 :: c3 :: _ =>
            if between lo hi c1 && between 0x80 0xBF c2
               && between 0x80 0xBF c3 then 4%nat else 0%nat
        | _ => 0%nat
        end
      else 0%nat
  end.

(** U+FFFD, the replacement character, encoded. *)
Definition RuneError : bytes := [xef; xbf; xbd].

(** [EncodeRune] *)
Definition EncodeRune (r : Z) : bytes :=
  if r <? 0 then RuneError
  else if r <? 0x80 then [byte_of_Z r]
  else if r <? 0x800 then
    [byte_of_Z (Z.lor 0xC0 (Z.shiftr r 6));
     byte_of_Z (Z.lor 0x80 (Z.land r 0x3F))]
  else if (0xD800 <=? r) && (r <? 0xE000) then RuneError
  else if r <? 0x10000 then
    [byte_of_Z (Z.lor 0xE0 (Z.shiftr r 12));
     byte_of_Z (Z.lor 0x80 (Z.land (Z.shiftr r 6) 0x3F));
     byte_of_Z (Z.lor 0x80 (Z.land r 0x3F))]
  else if r <? 0x110000 then
    [byte_of_Z (Z.lor 0xF0 (Z.shiftr r 18));
     byte_of_Z (Z.lor 0x80 (Z.land (Z.shiftr r 12) 0x3F));
     byte_of_Z (Z.lor 0x80 (Z.land (Z.shiftr r 6) 0x3F));
     byte_of_Z (Z.lor 0x80 (Z.land r 0x3F))]
  else RuneError.

End utf8.

(** ** strconv *)

Module strconv.

Fixpoint digits_value (s : bytes) (acc : Z) : option Z :=
  match s with
  | [] => Some acc
  | c :: r =>
      if utf8.between 48 57 c then digits_value r (acc * 10 + (byte_to_Z c - 48))
      else None
  end.

(** [strconv.ParseInt(lit, 10, 64)] *)
Definition ParseInt (lit : bytes) : option Z :=
  let magnitude (s : bytes) :=
    match s with
    | [] => None
    | _ => digits_value s 0
    end in
  let n :=
    match lit with
    | [] => None
    | c :: r =>
        if Byte.eqb c "-"%byte then option_map Z.opp (magnitude r)
        else if Byte.eqb c "+"%byte then magnitude r
        else magnitude lit
    end in
  match n with
  | Some x => if (- 2 ^ 63 <=? x) && (x <? 2 ^ 63) then Some x else None
  | None => None
  end.

(** [strconv.Itoa] *)
Definition Itoa (n : Z) : bytes :=
  B (DecimalString.NilZero.string_of_int (Z.to_int n)).

End strconv.

(** ** encoding/json *)

Module json.

(** A scanned JSON value.  A number keeps its literal; a string is held
    unquoted. *)
Inductive value : Type :=
| JNull
| JBool (b : bool)
| JNumber (lit : bytes)
| JString (s : bytes)
| JArray (elems : list value)
| JObject (members : list (bytes * value)).

(** *** Unquoting a string literal ([unquoteBytes]) *)

Definition hexval (c : byte) : option Z :=
  let x := byte_to_Z c in
  if (48 <=? x) && (x <=? 57) then Some (x - 48)
  else if (97 <=? x) && (x <=? 102) then Some (x - 97 + 10)
  else if (65 <=? x) && (x <=? 70) then Some (x - 65 + 10)
  else None.

(** [getu4] on the four hexadecimal digits after a backslash and a u. *)
Definition getu4 (h1 h2 h3 h4 : byte) : option Z :=
  match hexval h1, hexval h2, hexval h3, hexval h4 with
  | Some a, Some b, Some c, Some d => Some (((a * 16 + b) * 16 + c) * 16 + d)
  | _, _, _, _ => None
  end.

Definition IsSurrogate (r : Z) : bool := (0xD800 <=? r) && (r <? 0xE000).

(** [utf16.DecodeRune]: [None] stands for the replacement character. *)
Definition utf16_DecodeRune (r1 r2 : Z) : option Z :=
  if (0xD800 <=? r1) && (r1 <? 0xDC00) && (0xDC00 <=? r2) && (r2 <? 0xE000)
  then Some (Z.lor (Z.shiftl (r1 - 0xD800) 10) (r2 - 0xDC00) + 0x10000)
  else None.

(** The low surrogate escape at the head of [s], if there is one that
    pairs with [r1]; with it, the text after the escape. *)
Definition low_surrogate (r1 : Z) (s : bytes) : option (Z * bytes) :=
  match s with
  | b :: u :: h1 :: h2 :: h3 :: h4 :: rest =>
      if Byte.eqb b backslash && Byte.eqb u "u"%byte then
        match getu4 h1 h2 h3 h4 with
        | Some r2 =>
            match utf16_DecodeRune r1 r2 with
            | Some r => Some (r, rest)
            | None => None
            end
        | None => None
        end
      else None
  | _ => None
  end.

(** [unquote s skip]: [s] is the text between the quotes; [skip] counts
    the bytes at the head of [s] that were consumed already, as part of a
    multi-byte character or of the second escape of a surrogate pair. *)
Fixpoint unquote (s : bytes) (skip : nat) (copy : bool) : option bytes :=
  match s with
  | [] => Some []
  | c :: r =>
      match skip with
      | S skip' =>
          match unquote r skip' copy with
          | Some t => Some (if copy then c :: t else t)
          | None => None
          end
      | O =>
          if Byte.eqb c backslash then
            match r with
            | e :: r1 =>
                let simple (x : byte) :=
                  match unquote r1 0 false with
                  | Some t => Some (x :: t)
                  | None => None
                  end in
                if Byte.eqb e dquote then simple dquote
                else if Byte.eqb e backslash then simple backslash
                else if Byte.eqb e "/"%byte then simple "/"%byte
                else if Byte.eqb e "b"%byte then simple x08
                else if Byte.eqb e "f"%byte then simple x0c
                else if Byte.eqb e "n"%byte then simple x0a
                else if Byte.eqb e "r"%byte then simple x0d
                else if Byte.eqb e "t"%byte then simple x09
                else if Byte.eqb e "u"%byte then
                  match r1 with
                  | h1 :: h2 :: h3 :: h4 :: r2 =>
                      match getu4 h1 h2 h3 h4 with
                      | None => None
                      | Some rr =>
                          if IsSurrogate rr then
                            match low_surrogate rr r2 with
                            | Some (dec, _) =>
                                (* a valid pair: six more bytes are used *)
                                match unquote r1 10 false with
                                | Some t => Some (utf8.EncodeRune dec ++ t)
                                | None => None
                                end
                            | None =>
                                match unquote r1 4 false with
                                | Some t => Some (utf8.RuneError ++ t)
                                | None => None
                                end
                            end
                          else
                            match unquote r1 4 false with
                            | Some t => Some (utf8.EncodeRune rr ++ t)
                            | None => None
                            end
                      end
                  | _ => None
                  end
                else None
            | [] => None
            end
          else if Byte.eqb c dquote || (byte_to_Z c <? 0x20) then None
          else if byte_to_Z c <? 0x80 then
            match unquote r 0 false with
            | Some t => Some (c :: t)
            | None => None
            end
          else
            match utf8.rune_len s with
            | O =>
                match unquote r 0 false with
                | Some t => Some (utf8.RuneError ++ t)
                | None => None
                end
            | S n =>
                match unquote r n true with
                | Some t => Some (c :: t)
                | None => None
                end
            end
      end
  end.

(** *** The scanner ([scanner.go])

    The scanner reads one byte at a time.  [step] is the state function
    to call on the next byte and [parseState] the stack of the arrays and
    objects that are open.  The decoder builds the value from the same
    scan; here each stack entry holds what has been read of its array or
    object, and the states of a literal hold its text so far. *)

Inductive frame : Type :=
| parseObjectKey (members : list (bytes * value)) (key : option bytes)
| parseObjectValue (members : list (bytes * value)) (key : option bytes)
| parseArrayValue (elems : list value).

Inductive state : Type :=
| stateBeginValueOrEmpty
| stateBeginValue
| stateBeginStringOrEmpty
| stateBeginString
| stateEndValue
| stateEndTop
| stateInString (lit : bytes)
| stateInStringEsc (lit : bytes)
| stateInStringEscU (digits : nat) (lit : bytes)
| stateNeg (lit : bytes)
| state1 (lit : bytes)
| state0 (lit : bytes)
| stateDot (lit : bytes)
| stateDot0 (lit : bytes)
| stateE (lit : bytes)
| stateESign (lit : bytes)
| stateE0 (lit : bytes)
| stateLiteral (rest : bytes) (v : value).

(** [top] is the top-level value once it is complete; [err] is the error
    that [stateEndTop] records without stopping the scan. *)
Record scanner : Type := mkScanner {
  step : state;
  parseState : list frame;
  top : option value;
  err : bool
}.

Definition reset : scanner :=
  {| step := stateBeginValue; parseState := []; top := None; err := false |}.

Definition with_step (s : scanner) (st : state) : scanner :=
  {| step := st; parseState := parseState s; top := top s; err := err s |}.

Definition with_stack (s : scanner) (st : state) (ps : list frame) : scanner :=
  {| step := st; parseState := ps; top := top s; err := err s |}.

Definition maxNestingDepth : Z := 10000.

Definition isSpace (c : byte) : bool :=
  Byte.eqb c " "%byte || Byte.eqb c x09 || Byte.eqb c x0d || Byte.eqb c x0a.

Definition isDigit (c : byte) : bool := utf8.between 48 57 c.

(** A value is complete: it is the top-level value, or it goes into the
    array or object that is open. *)
Definition endValue (s : scanner) (v : value) : option scanner :=
  match parseState s with
  | [] =>
      Some {| step := stateEndValue; parseState := []; top := Some v;
              err := err s |}
  | parseArrayValue es :: ps =>
      Some (with_stack s stateEndValue (parseArrayValue (v :: es) :: ps))
  | parseObjectKey ms None :: ps =>
      match v with
      | JString k =>
          Some (with_stack s stateEndValue (parseObjectKey ms (Some k) :: ps))
      | _ => None
      end
  | parseObjectValue ms (Some k) :: ps =>
      Some (with_stack s stateEndValue
              (parseObjectValue ((k, v) :: ms) None :: ps))
  | _ => None
  end.

Definition pushParseState (s : scanner) (f : frame) (st : state)
  : option scanner :=
  let ps := f :: parseState s in
  if Z.of_nat (List.length ps) <=? maxNestingDepth
  then Some (with_stack s st ps)
  else None.

(** An array or object is closed: its frame [ps] has been popped and [v]
    is its value. *)
Definition popParseState (s : scanner) (ps : list frame) (v : value)
  : option scanner :=
  match endValue (with_stack s stateEndValue ps) v with
  | Some s' =>
      Some (match ps with
            | [] => with_step s' stateEndTop
            | _ => s'
            end)
  | None => None
  end.

Definition stateEndTop_step (s : scanner) (c : byte) : option scanner :=
  if isSpace c then Some (with_step s stateEndTop)
  else Some {| step := stateEndTop; parseState := parseState s;
               top := top s; err := true |}.

Definition stateEndValue_step (s : scanner) (c : byte) : option scanner :=
  match parseState s with
  | [] => stateEndTop_step s c
  | f :: ps =>
      if isSpace c then Some (with_step s stateEndValue)
      else
        match f with
        | parseObjectKey ms (Some k) =>
            if Byte.eqb c ":"%byte
            then Some (with_stack s stateBeginValue
                         (parseObjectValue ms (Some k) :: ps))
            else None
        | parseObjectValue ms None =>
            if Byte.eqb c ","%byte
            then Some (with_stack s stateBeginString
                         (parseObjectKey ms None :: ps))
            else if Byte.eqb c "}"%byte
            then popParseState s ps (JObject (rev ms))
            else None
        | parseArrayValue es =>
            if Byte.eqb c ","%byte
            then Some (with_step s stateBeginValue)
            else if Byte.eqb c "]"%byte
            then popParseState s ps (JArray (rev es))
            else None
        | _ => None
        end
  end.

Definition stateBeginValue_step (s : scanner) (c : byte) : option scanner :=
  if isSpace c then Some s
  else if Byte.eqb c "{"%byte
  then pushParseState s (parseObjectKey [] None) stateBeginStringOrEmpty
  else if Byte.eqb c "["%byte
  then pushParseState s (parseArrayValue []) stateBeginValueOrEmpty
  else if Byte.eqb c dquote then Some (with_step s (stateInString []))
  else if Byte.eqb c "-"%byte then Some (with_step s (stateNeg [c]))
  else if Byte.eqb c "0"%byte then Some (with_step s (state0 [c]))
  else if Byte.eqb c "t"%byte
  then Some (with_step s (stateLiteral (B "rue") (JBool true)))
  else if Byte.eqb c "f"%byte
  then Some (with_step s (stateLiteral (B "alse") (JBool false)))
  else if Byte.eqb c "n"%byte
  then Some (with_step s (stateLiteral (B "ull") JNull))
  else if utf8.between 49 57 c then Some (with_step s (state1 [c]))
  else None.

Definition stateBeginString_step (s : scanner) (c : byte) : option scanner :=
  if isSpace c then Some s
  else if Byte.eqb c dquote then Some (with_step s (stateInString []))
  else None.

Definition stateBeginStringOrEmpty_step (s : scanner) (c : byte)
  : option scanner :=
  if isSpace c then Some s
  else if Byte.eqb c "}"%byte then
    match parseState s with
    | parseObjectKey ms None :: ps =>
        stateEndValue_step (with_stack s (step s) (parseObjectValue ms None :: ps)) c
    | _ => None
    end
  else stateBeginString_step s c.

Definition stateBeginValueOrEmpty_step (s : scanner) (c : byte)
  : option scanner :=
  if isSpace c then Some s
  else if Byte.eqb c "]"%byte then stateEndValue_step s c
  else stateBeginValue_step s c.

(** The text of a string literal is kept latest byte first. *)
Definition stateInString_step (s : scanner) (lit : bytes) (c : byte)
  : option scanner :=
  if Byte.eqb c dquote then
    match unquote (rev lit) 0 false with
    | Some u => endValue s (JString u)
    | None => None
    end
  else if Byte.eqb c backslash then Some (with_step s (stateInStringEsc (c :: lit)))
  else if byte_to_Z c <? 0x20 then None
  else Some (with_step s (stateInString (c :: lit))).

Definition stateInStringEsc_step (s : scanner) (lit : bytes) (c : byte)
  : option scanner :=
  if existsb (Byte.eqb c) (backslash :: dquote :: B "bfnrt/")
  then Some (with_step s (stateInString (c :: lit)))
  else if Byte.eqb c "u"%byte
  then Some (with_step s (stateInStringEscU 4 (c :: lit)))
  else None.

Definition stateInStringEscU_step (s : scanner) (digits : nat) (lit : bytes)
  (c : byte) : option scanner :=
  match hexval c with
  | Some _ =>
      Some (with_step s
              (match digits with
               | S (S n) => stateInStringEscU (S n) (c :: lit)
               | _ => stateInString (c :: lit)
               end))
  | None => None
  end.

(** A number ends at the first byte that does not continue it; that byte
    is then read as the byte after a value. *)
Definition endNumber (s : scanner) (lit : bytes) (c : byte) : option scanner :=
  match endValue s (JNumber (rev lit)) with
  | Some s' => stateEndValue_step s' c
  | None => None
  end.

Definition isExp (c : byte) : bool := Byte.eqb c "e"%byte || Byte.eqb c "E"%byte.

Definition stateNeg_step (s : scanner) (lit : bytes) (c : byte) : option scanner :=
  if Byte.eqb c "0"%byte then Some (with_step s (state0 (c :: lit)))
  else if utf8.between 49 57 c then Some (with_step s (state1 (c :: lit)))
  else None.

Definition state0_step (s : scanner) (lit : bytes) (c : byte) : option scanner :=
  if Byte.eqb c "."%byte then Some (with_step s (stateDot (c :: lit)))
  else if isExp c then Some (with_step s (stateE (c :: lit)))
  else endNumber s lit c.

Definition state1_step (s : scanner) (lit : bytes) (c : byte) : option scanner :=
  if isDigit c then Some (with_step s (state1 (c :: lit)))
  else state0_step s lit c.

Definition stateDot_step (s : scanner) (lit : bytes) (c : byte) : option scanner :=
  if isDigit c then Some (with_step s (stateDot0 (c :: lit))) else None.

Definition stateDot0_step (s : scanner) (lit : bytes) (c : byte) : option scanner :=
  if isDigit c then Some (with_step s (stateDot0 (c :: lit)))
  else if isExp c then Some (with_step s (stateE (c :: lit)))
  else endNumber s lit c.

Definition stateESign_step (s : scanner) (lit : bytes) (c : byte) : option scanner :=
  if isDigit c then Some (with_step s (stateE0 (c :: lit))) else None.

Definition stateE_step (s : scanner) (lit : bytes) (c : byte) : option scanner :=
  if Byte.eqb c "+"%byte || Byte.eqb c "-"%byte
  then Some (with_step s (stateESign (c :: lit)))
  else stateESign_step s lit c.

Definition stateE0_step (s : scanner) (lit : bytes) (c : byte) : option scanner :=
  if isDigit c then Some (with_step s (stateE0 (c :: lit)))
  else endNumber s lit c.

(** [stateT], [stateTr], ... [stateNul]: the bytes that must follow. *)
Definition stateLiteral_step (s : scanner) (rest : bytes) (v : value) (c : byte)
  : option scanner :=
  match rest with
  | [] => None
  | x :: rest' =>
      if Byte.eqb c x then
        match rest' with
        | [] => endValue s v
        | _ => Some (with_step s (stateLiteral rest' v))
        end
      else None
  end.

(** [s.step(s, c)]; [None] is [scanError]. *)
Definition scan (s : scanner) (c : byte) : option scanner :=
  match step s with
  | stateBeginValueOrEmpty => stateBeginValueOrEmpty_step s c
  | stateBeginValue => stateBeginValue_step s c
  | stateBeginStringOrEmpty => stateBeginStringOrEmpty_step s c
  | stateBeginString => stateBeginString_step s c
  | stateEndValue => stateEndValue_step s c
  | stateEndTop => stateEndTop_step s c
  | stateInString lit => stateInString_step s lit c
  | stateInStringEsc lit => stateInStringEsc_step s lit c
  | stateInStringEscU n lit => stateInStringEscU_step s n lit c
  | stateNeg lit => stateNeg_step s lit c
  | state1 lit => state1_step s lit c
  | state0 lit => state0_step s lit c
  | stateDot lit => stateDot_step s lit c
  | stateDot0 lit => stateDot0_step s lit c
  | stateE lit => stateE_step s lit c
  | stateESign lit => stateESign_step s lit c
  | stateE0 lit => stateE0_step s lit c
  | stateLiteral rest v => stateLiteral_step s rest v c
  end.

Fixpoint scanAll (s : scanner) (data : bytes) : option scanner :=
  match data with
  | [] => Some s
  | c :: r =>
      match scan s c with
      | Some s' => scanAll s' r
      | None => None
      end
  end.

(** [scanner.eof]: a number at the top level ends with the input. *)
Definition eof (s : scanner) : option value :=
  if err s then None
  else
    match step s with
    | stateEndTop => top s
    | _ =>
        match scan s " "%byte with
        | Some s' =>
            match step s' with
            | stateEndTop => if err s' then None else top s'
            | _ => None
            end
        | None => None
        end
    end.

(** [checkValid] together with the decoder's reading of the value:
    [None] is a [SyntaxError]. *)
Definition parse (data : bytes) : option value :=
  match scanAll reset data with
  | Some s => eof s
  | None => None
  end.

(** [Decoder.readValue]: the first value of a stream; what follows it is
    left unread. *)
Fixpoint readValue (s : scanner) (data : bytes) : option value * option error :=
  match top s with
  | Some v => (Some v, None)
  | None =>
      match data with
      | [] =>
          let at_eof :=
            match step s, parseState s with
            | stateBeginValue, [] => io_EOF
            | _, _ => io_ErrUnexpectedEOF
            end in
          match scan s " "%byte with
          | Some s' =>
              match top s' with
              | Some v => (Some v, None)
              | None => (None, Some at_eof)
              end
          | None => (None, Some at_eof)
          end
      | c :: r =>
          match scan s c with
          | Some s' => readValue s' r
          | None => (None, Some json_SyntaxError)
          end
      end
  end.

(** *** Decoding a value into a Go variable

    A decoder stores a value into a variable of type [T] that holds [cur]
    and answers the new content.  A value of the wrong kind leaves the
    variable as it was and is an [UnmarshalTypeError]: the library goes on
    with the rest of the input and reports the first such error at the
    end; the client drops what was stored whenever an error is
    reported. *)

Definition decoder (T : Type) : Type := value -> T -> T * option error.

Definition first_error (a b : option error) : option error :=
  match a with
  | Some e => Some e
  | None => b
  end.

Definition decode_string : decoder bytes := fun v cur =>
  match v with
  | JString s => (s, None)
  | JNull => (cur, None)
  | _ => (cur, Some json_UnmarshalTypeError)
  end.

Definition decode_bool : decoder bool := fun v cur =>
  match v with
  | JBool b => (b, None)
  | JNull => (cur, None)
  | _ => (cur, Some json_UnmarshalTypeError)
  end.

Definition decode_int64 : decoder Z := fun v cur =>
  match v with
  | JNumber lit =>
      match strconv.ParseInt lit with
      | Some n => (n, None)
      | None => (cur, Some json_UnmarshalTypeError)
      end
  | JNull => (cur, None)
  | _ => (cur, Some json_UnmarshalTypeError)
  end.

(** [int] is 64 bits wide. *)
Definition decode_int : decoder Z := decode_int64.

(** The elements of an array go into the elements the slice has, and
    into new zero elements beyond them. *)
Fixpoint decode_elems {T : Type} (zero : T) (dec : decoder T)
  (es : list value) (cur : list T) : list T * option error :=
  match es with
  | [] => ([], None)
  | e :: es' =>
      let (x, e1) := dec e (hd zero cur) in
      let (xs, e2) := decode_elems zero dec es' (tl cur) in
      (x :: xs, first_error e1 e2)
  end.

Definition decode_slice {T : Type} (zero : T) (dec : decoder T)
  : decoder (list T) := fun v cur =>
  match v with
  | JArray es => decode_elems zero dec es cur
  | JNull => ([], None)
  | _ => (cur, Some json_UnmarshalTypeError)
  end.

(** *** Object keys and struct fields

    A key selects the field whose name it equals, or else the first
    field whose name it equals when case is ignored ([equalFoldRight]: the
    Kelvin sign counts as a k and the long s as an s). *)

Definition caseMask (c : byte) : Z := Z.land (byte_to_Z c) 0xDF.

Definition isUpper (x : Z) : bool := (65 <=? x) && (x <=? 90).

Fixpoint equalFold (s t : bytes) : bool :=
  match s with
  | [] => match t with [] => true | _ => false end
  | sb :: s' =>
      match t with
      | [] => false
      | tb :: t' =>
          if byte_to_Z tb <? 0x80 then
            if Byte.eqb sb tb then equalFold s' t'
            else if isUpper (caseMask sb) && (caseMask sb =? caseMask tb)
            then equalFold s' t'
            else false
          else if caseMask sb =? 83 then          (* s, S: the long s *)
            match t with
            | xc5 :: xbf :: t'' => equalFold s' t''
            | _ => false
            end
          else if caseMask sb =? 75 then          (* k, K: the Kelvin sign *)
            match t with
            | xe2 :: x84 :: xaa :: t'' => equalFold s' t''
            | _ => false
            end
          else false
      end
  end.

Fixpoint find_index {A : Type} (p : A -> bool) (l : list A) (i : nat)
  : option nat :=
  match l with
  | [] => None
  | x :: r => if p x then Some i else find_index p r (S i)
  end.

Definition fieldIndex (names : list bytes) (key : bytes) : option nat :=
  match find_index (bytes_eqb key) names 0 with
  | Some i => Some i
  | None => find_index (fun name => equalFold name key) names 0
  end.

(** The name of the field that [key] selects. *)
Definition fieldName (names : list bytes) (key : bytes) : option bytes :=
  match fieldIndex names key with
  | Some i => nth_error names i
  | None => None
  end.

Definition selects (names : list bytes) (key name : bytes) : bool :=
  match fieldName names key with
  | Some n => bytes_eqb n name
  | None => false
  end.

(** The content of the field [name] after the members [ms] of an object
    have been stored, in their order: each member that selects the field
    is decoded into it.  A member writes to no other field than the one
    it selects. *)
Definition field {T : Type} (names : list bytes) (name : bytes)
  (dec : decoder T) (ms : list (bytes * value)) (cur : T) : T * option error :=
  fold_left
    (fun acc m =>
       if selects names (fst m) name then
         let (x, e) := dec (snd m) (fst acc) in (x, first_error (snd acc) e)
       else acc)
    ms (cur, None).

Fixpoint first_of (es : list (option error)) : option error :=
  match es with
  | [] => None
  | e :: r => first_error e (first_of r)
  end.

(** [json.Unmarshal(data, &v)]: the input is checked as a whole, then
    decoded. *)
Definition Unmarshal {T : Type} (dec : decoder T) (data : bytes) (cur : T)
  : T * option error :=
  match parse data with
  | Some v => dec v cur
  | None => (cur, Some json_SyntaxError)
  end.

(** [json.NewDecoder(r).Decode(&v)] on a stream holding [data]. *)
Definition Decode {T : Type} (dec : decoder T) (data : bytes) (cur : T)
  : T * option error :=
  match readValue reset data with
  | (Some v, _) => dec v cur
  | (None, Some e) => (cur, Some e)
  | (None, None) => (cur, Some io_ErrUnexpectedEOF)
  end.

(** *** Encoding ([encodeState.string] with HTML escaping) *)

Definition hex (x : Z) : byte := nth (Z.to_nat x) (B "0123456789abcdef") x00.

(** [htmlSafeSet]: the ASCII bytes written as they are. *)
Definition htmlSafeSet (c : byte) : bool :=
  let x := byte_to_Z c in
  (0x20 <=? x) && (x <? 0x80)
  && negb (Byte.eqb c dquote) && negb (Byte.eqb c backslash)
  && negb (Byte.eqb c "<"%byte) && negb (Byte.eqb c ">"%byte)
  && negb (Byte.eqb c "&"%byte).

(** [escape s skip copy]: [skip] counts the bytes at the head of [s] that
    belong to the character read last; they are copied, or dropped where
    the character was written as an escape. *)
Fixpoint escape (s : bytes) (skip : nat) (copy : bool) : bytes :=
  match s with
  | [] => []
  | c :: r =>
      match skip with
      | S skip' =>
          if copy then c :: escape r skip' copy else escape r skip' copy
      | O =>
          if byte_to_Z c <? 0x80 then
            if htmlSafeSet c then c :: escape r 0 false
            else if Byte.eqb c backslash || Byte.eqb c dquote
            then backslash :: c :: escape r 0 false
            else if Byte.eqb c x0a then backslash :: "n"%byte :: escape r 0 false
            else if Byte.eqb c x0d then backslash :: "r"%byte :: escape r 0 false
            else if Byte.eqb c x09 then backslash :: "t"%byte :: escape r 0 false
            else
              backslash :: B "u00"
                ++ hex (Z.shiftr (byte_to_Z c) 4)
                :: hex (Z.land (byte_to_Z c) 0xF) :: escape r 0 false
          else
            match utf8.rune_len s with
            | O => backslash :: B "ufffd" ++ escape r 0 false
            | S n =>
                match s with
                | xe2 :: x80 :: xa8 :: _ =>
                    backslash :: B "u2028" ++ escape r 2 false
                | xe2 :: x80 :: xa9 :: _ =>
                    backslash :: B "u2029" ++ escape r 2 false
                | _ => c :: escape r n true
                end
            end
      end
  end.

Definition encodeString (s : bytes) : bytes :=
  dquote :: escape s 0 false ++ [dquote].

(** [strconv.AppendInt(b, n, 10)] *)
Definition encodeInt (n : Z) : bytes := strconv.Itoa n.

End json.

(** ** strings *)

Module strings.

Fixpoint HasPrefix (s prefix : bytes) : bool :=
  match prefix with
  | [] => true
  | p :: ps =>
      match s with
      | c :: r => Byte.eqb c p && HasPrefix r ps
      | [] => false
      end
  end.

(** [genSplit(s, sep, 0, -1)] for a separator that is not empty: [cur]
    is the piece being read, latest byte first, and [skip] counts the
    bytes of a separator still to pass. *)
Fixpoint split (s sep cur : bytes) (skip : nat) : list bytes :=
  match s with
  | [] => [rev cur]
  | c :: r =>
      match skip with
      | S k => split r sep cur k
      | O =>
          if HasPrefix s sep
          then rev cur :: split r sep [] (List.length sep - 1)
          else split r sep (c :: cur) 0
      end
  end.

(** [explode(s, -1)]: one piece for each character. *)
Fixpoint explode (s cur : bytes) (skip : nat) : list bytes :=
  match s with
  | [] => match cur with [] => [] | _ => [rev cur] end
  | c :: r =>
      match skip with
      | S k => explode r (c :: cur) k
      | O =>
          (match cur with [] => [] | _ => [rev cur] end)
            ++ explode r [c] (utf8.rune_len s - 1)
      end
  end.

(** [strings.Split(s, sep)] *)
Definition Split (s sep : bytes) : list bytes :=
  match sep with
  | [] => explode s [] 0
  | _ => split s sep [] 0
  end.

End strings.

(** ** Fixed-width integers *)

(** The value of a 64-bit signed integer after an operation that may
    overflow. *)
Definition int64 (z : Z) : Z := (z + 2 ^ 63) mod 2 ^ 64 - 2 ^ 63.

(** ** time *)

Module time.

(** A [nil] location is UTC. *)
Inductive Location : Type := UTC | Local.

Record Time : Type := mkTime { wall : Z; ext : Z; loc : Location }.

(** The zero value [Time{}]: January 1, year 1, 00:00:00 UTC. *)
Definition zero : Time := {| wall := 0; ext := 0; loc := UTC |}.

Definition unixToInternal : Z :=
  (1969 * 365 + 1969 / 4 - 1969 / 100 + 1969 / 400) * 86400.

Definition internalToUnix : Z := - unixToInternal.

Definition wallToInternal : Z :=
  (1884 * 365 + 1884 / 4 - 1884 / 100 + 1884 / 400) * 86400.

Definition hasMonotonic : Z := 2 ^ 63.

(** [time.Unix(sec, nsec)] *)
Definition Unix (sec nsec : Z) : Time :=
  let '(sec, nsec) :=
    if (nsec <? 0) || (1000000000 <=? nsec) then
      let n := Z.quot nsec 1000000000 in
      let sec := int64 (sec + n) in
      let nsec := nsec - n * 1000000000 in
      if nsec <? 0 then (int64 (sec - 1), nsec + 1000000000) else (sec, nsec)
    else (sec, nsec) in
  {| wall := nsec; ext := int64 (sec + unixToInternal); loc := Local |}.

(** [t.sec()]: seconds since January 1, year 1. *)
Definition sec (t : Time) : Z :=
  if Z.land (wall t) hasMonotonic =? 0 then ext t
  else int64 (wallToInternal + Z.shiftr (Z.shiftl (wall t) 1 mod 2 ^ 64) 31).

(** [t.Unix()]: seconds since January 1, 1970 UTC. *)
Definition Time_Unix (t : Time) : Z := int64 (sec t + internalToUnix).

(** [t.IsZero()] *)
Definition IsZero (t : Time) : bool :=
  (sec t =? 0) && (Z.land (wall t) (2 ^ 30 - 1) =? 0).

(** The civil date of a day counted from January 1, 1970. *)
Definition civil (days : Z) : Z * Z * Z :=
  let z := days + 719468 in
  let era := z / 146097 in
  let doe := z - era * 146097 in
  let yoe := (doe - doe / 1460 + doe / 36524 - doe / 146096) / 365 in
  let doy := doe - (365 * yoe + yoe / 4 - yoe / 100) in
  let mp := (5 * doy + 2) / 153 in
  let d := doy - (153 * mp + 2) / 5 + 1 in
  let m := if mp <? 10 then mp + 3 else mp - 9 in
  let y := yoe + era * 400 + (if m <=? 2 then 1 else 0) in
  (y, m, d).

(** The year the absolute count of seconds starts with, and the distance
    from there to January 1, year 1. *)
Definition absoluteZeroYear : Z := -292277022399.

Definition absoluteToInternal : Z :=
  (absoluteZeroYear - 1) * 3652425 / 10000 * 86400.

Definition internalToAbsolute : Z := - absoluteToInternal.

(** [t.abs()] in UTC: seconds since January 1 of the absolute zero year,
    a [uint64]. *)
Definition abs (t : Time) : Z :=
  (Time_Unix t + (unixToInternal + internalToAbsolute)) mod 2 ^ 64.

(** [t.UTC().Date()] and [t.UTC().Clock()] *)
Definition Date (t : Time) : Z * Z * Z :=
  civil (abs t / 86400 - (unixToInternal + internalToAbsolute) / 86400).

Definition Clock (t : Time) : Z * Z * Z :=
  let s := abs t mod 86400 in
  (s / 3600, s mod 3600 / 60, s mod 60).

(** [t.nsec()]: nanoseconds within the second. *)
Definition nsec (t : Time) : Z := Z.land (wall t) (2 ^ 30 - 1).

(** [t.After(u)] *)
Definition After (t u : Time) : bool :=
  if negb (Z.land (Z.land (wall t) (wall u)) hasMonotonic =? 0)
  then ext u <? ext t
  else
    let ts := sec t in
    let us := sec u in
    (us <? ts) || ((ts =? us) && (nsec u <? nsec t)).

End time.

(** ** math/big *)

Module big.

(** [z.SetBytes(buf)]: [buf] read as a big-endian unsigned integer. *)
Definition SetBytes (buf : bytes) : Z :=
  fold_left (fun acc b => acc * 256 + byte_to_Z b) buf 0.

Definition IsInt64 (x : Z) : bool := (- 2 ^ 63 <=? x) && (x <? 2 ^ 63).

(** [x.Int64()]: the low 64 bits where [x] does not fit. *)
Definition Int64 (x : Z) : Z := int64 x.

Definition BitLen (x : Z) : Z :=
  if x =? 0 then 0 else Z.log2 (Z.abs x) + 1.

(** [x.FillBytes(make([]byte, k))]: the [k] low bytes of [x], big-endian. *)
Definition FillBytes (x : Z) (k : nat) : bytes :=
  map (fun i => byte_of_Z (Z.shiftr x (8 * Z.of_nat (k - 1 - i)))) (seq 0 k).

Fixpoint exp_pos (x : Z) (y : positive) (m : Z) : Z :=
  match y with
  | xH => x mod m
  | xO y' => let r := exp_pos x y' m in (r * r) mod m
  | xI y' => let r := exp_pos x y' m in (r * r mod m * x) mod m
  end.

(** [z.Exp(x, y, m)] for [y >= 0]: [x ** y mod |m|], and [x ** y] where
    [m] is zero. *)
Definition Exp (x y m : Z) : Z :=
  if m =? 0 then x ^ y
  else
    match y with
    | Zpos p => exp_pos x p (Z.abs m)
    | _ => 1 mod Z.abs m
    end.

End big.

(** ** crypto/sha256 *)

Module sha256.

Definition w32 (x : Z) : Z := x mod 2 ^ 32.

Definition rotr (x n : Z) : Z :=
  w32 (Z.lor (Z.shiftr x n) (Z.shiftl x (32 - n))).

(** The round constants [_K] and the initial hash value, in decimal. *)
Definition K : list Z :=
  [
   1116352408; 1899447441; 3049323471; 3921009573;
   961987163; 1508970993; 2453635748; 2870763221;
   3624381080; 310598401; 607225278; 1426881987;
   1925078388; 2162078206; 2614888103; 3248222580;
   3835390401; 4022224774; 264347078; 604807628;
   770255983; 1249150122; 1555081692; 1996064986;
   2554220882; 2821834349; 2952996808; 3210313671;
   3336571891; 3584528711; 113926993; 338241895;
   666307205; 773529912; 1294757372; 1396182291;
   1695183700; 1986661051; 2177026350; 2456956037;
   2730485921; 2820302411; 3259730800; 3345764771;
   3516065817; 3600352804; 4094571909; 275423344;
   430227734; 506948616; 659060556; 883997877;
   958139571; 1322822218; 1537002063; 1747873779;
   1955562222; 2024104815; 2227730452; 2361852424;
   2428436474; 2756734187; 3204031479; 3329325298 ].

Definition init : list Z :=
  [
   1779033703; 3144134277; 1013904242; 2773480762;
   1359893119; 2600822924; 528734635; 1541459225 ].

(** The message followed by a one bit, zeros up to 56 bytes modulo 64
    and the length in bits as eight bytes. *)
Definition pad (msg : bytes) : bytes :=
  let len := Z.of_nat (List.length msg) in
  let zeros := Z.to_nat ((55 - len) mod 64) in
  msg ++ x80 :: repeat x00 zeros
      ++ map (fun i => byte_of_Z (Z.shiftr (8 * len) (8 * (7 - Z.of_nat i))))
             (seq 0 8).

Fixpoint chunks {A : Type} (size count : nat) (l : list A) : list (list A) :=
  match count with
  | O => []
  | S count' => firstn size l :: chunks size count' (skipn size l)
  end.

Definition word (b : bytes) : Z :=
  fold_left (fun acc x => acc * 256 + byte_to_Z x) b 0.

(** The sixteen words of a block. *)
Definition words (block : bytes) : list Z := map word (chunks 4 16 block).

Definition sigma0 (x : Z) : Z :=
  Z.lxor (Z.lxor (rotr x 7) (rotr x 18)) (Z.shiftr x 3).

Definition sigma1 (x : Z) : Z :=
  Z.lxor (Z.lxor (rotr x 17) (rotr x 19)) (Z.shiftr x 10).

(** The message schedule, latest word first: [w] holds
    [w(i-1), w(i-2), ...]. *)
Fixpoint schedule (n : nat) (w : list Z) : list Z :=
  match n with
  | O => w
  | S n' =>
      let wi := w32 (sigma1 (nth 1 w 0) + nth 6 w 0
                     + sigma0 (nth 14 w 0) + nth 15 w 0) in
      schedule n' (wi :: w)
  end.

Definition Sigma0 (x : Z) : Z :=
  Z.lxor (Z.lxor (rotr x 2) (rotr x 13)) (rotr x 22).

Definition Sigma1 (x : Z) : Z :=
  Z.lxor (Z.lxor (rotr x 6) (rotr x 11)) (rotr x 25).

Definition Ch (x y z : Z) : Z :=
  Z.lxor (Z.land x y) (Z.land (Z.lxor x (2 ^ 32 - 1)) z).

Definition Maj (x y z : Z) : Z :=
  Z.lxor (Z.lxor (Z.land x y) (Z.land x z)) (Z.land y z).

Definition round (st : list Z) (kw : Z * Z) : list Z :=
  match st with
  | [a; b; c; d; e; f; g; h] =>
      let t1 := w32 (h + Sigma1 e + Ch e f g + fst kw + snd kw) in
      let t2 := w32 (Sigma0 a + Maj a b c) in
      [w32 (t1 + t2); a; b; c; w32 (d + t1); e; f; g]
  | _ => st
  end.

(** One block folded into the hash value. *)
Definition block (h : list Z) (blk : bytes) : list Z :=
  let w := rev (schedule 48 (rev (words blk))) in
  let st := fold_left round (combine K w) h in
  map (fun p => w32 (fst p + snd p)) (combine h st).

(** [sha256.Sum256(data)], as a slice of thirty-two bytes. *)
Definition Sum256 (data : bytes) : bytes :=
  let padded := pad data in
  let h := fold_left block (chunks 64 (List.length padded / 64) padded) init in
  flat_map (fun x => map (fun i => byte_of_Z (Z.shiftr x (8 * (3 - Z.of_nat i))))
                         (seq 0 4)) h.

Definition Size : Z := 32.

End sha256.

(** ** crypto/rsa

    The verification of crypto/rsa as of Go 1.24.  [rsa_ErrVerification]
    is [rsa.ErrVerification]; the other errors of the package, for an
    input or a key it refuses, are [rsa_InputError]. *)

Module rsa.

Record PublicKey : Type := mkPublicKey { N : Z; E : Z }.

(** [crypto.Hash]; the client uses [crypto.SHA256] only. *)
Inductive Hash : Type := SHA256.

(** The DER prefix of a SHA-256 digest ([hashPrefixes[crypto.SHA256]]). *)
Definition hashPrefix (h : Hash) : bytes :=
  match h with
  | SHA256 => [x30; x31; x30; x0d; x06; x09; x60; x86; x48; x01; x65; x03;
               x04; x02; x01; x05; x00; x04; x20]
  end.

Definition hashSize (h : Hash) : Z :=
  match h with
  | SHA256 => sha256.Size
  end.

(** [pub.Size()]: the length of the modulus in bytes. *)
Definition Size (pub : PublicKey) : Z := (big.BitLen (N pub) + 7) / 8.

(** [checkPublicKeySize]: a modulus of fewer than 1024 bits is refused.
    This is the default since Go 1.24; the GODEBUG setting [rsa1024min=0],
    which lifts the bound, is not modelled. *)
Definition checkPublicKeySize (pub : PublicKey) : option error :=
  if 1024 <=? big.BitLen (N pub) then None else Some rsa_InputError.

(** [checkPublicKey]: the modulus is odd; the exponent is odd, 2 at least
    and 2^31 - 1 at most. *)
Definition checkPublicKey (pub : PublicKey) : option error :=
  if Z.even (N pub) then Some rsa_InputError
  else if E pub <? 2 then Some rsa_InputError
  else if Z.even (E pub) then Some rsa_InputError
  else if 2 ^ 31 - 1 <? E pub then Some rsa_InputError
  else None.

(** [encrypt(pub, plaintext)]: the plaintext, a number below the modulus,
    raised to the public exponent, in as many bytes as the modulus has. *)
Definition encrypt (pub : PublicKey) (plaintext : bytes) : bytes * option error :=
  let m := big.SetBytes plaintext in
  if N pub <=? m then ([], Some rsa_InputError)
  else (big.FillBytes (big.Exp m (E pub) (N pub)) (Z.to_nat (Size pub)), None).

(** [pkcs1v15ConstructEM(pub, hash, hashed)]: the encoded message
    [00 01 ff .. ff 00 prefix hashed], with eight bytes [ff] at least. *)
Definition pkcs1v15ConstructEM (pub : PublicKey) (hash : Hash) (hashed : bytes)
  : bytes * option error :=
  let prefix := hashPrefix hash in
  let k := Size pub in
  let tLen := Z.of_nat (List.length prefix) + Z.of_nat (List.length hashed) in
  if k <? tLen + 2 + 8 + 1 then ([], Some rsa_InputError)
  else ([x00; x01] ++ repeat xff (Z.to_nat (k - tLen - 3)) ++ [x00]
          ++ prefix ++ hashed, None).

(** [rsa.VerifyPKCS1v15(pub, hash, hashed, sig)], RFC 8017 section 8.2.2:
    the key passes the checks above, the signature is as long as the
    modulus and below it, and raised to the public exponent it gives the
    encoded message of the digest. *)
Definition VerifyPKCS1v15 (pub : PublicKey) (hash : Hash) (hashed sig : bytes)
  : option error :=
  if negb (Z.of_nat (List.length hashed) =? hashSize hash) then Some rsa_InputError
  else
    match checkPublicKeySize pub with
    | Some err => Some err
    | None =>
    match checkPublicKey pub with
    | Some err => Some err
    | None =>
    if negb (Size pub =? Z.of_nat (List.length sig)) then Some rsa_ErrVerification
    else
      let (em, err) := encrypt pub sig in
      match err with
      | Some _ => Some rsa_ErrVerification
      | None =>
      let (expected, err) := pkcs1v15ConstructEM pub hash hashed in
      match err with
      | Some _ => Some rsa_ErrVerification
      | None =>
      if bytes_eqb em expected then None else Some rsa_ErrVerification
      end end
    end end.

End rsa.

(** [int(x)] for a 64-bit [x]: [int] is 64 bits wide. *)
Definition Go_int (x : Z) : Z := int64 x.

(** * Package cryptolens *)

Module cryptolens.

(** The text handed to a method [UnmarshalJSON(b []byte)] is one value
    of an input the decoder has checked already; the methods below
    receive that value as scanned, and their call
    [json.Unmarshal(b, &temp)] decodes it. *)

(** ** DataObject *)

Module DataObject.

Record t : Type := mk {
  Id : Z;
  Name : bytes;
  StringValue : bytes;
  IntValue : Z
}.

Definition zero : t :=
  {| Id := 0; Name := []; StringValue := []; IntValue := 0 |}.

Definition names : list bytes :=
  [B "Id"; B "Name"; B "StringValue"; B "IntValue"].

Definition decoder : json.decoder t := fun v cur =>
  match v with
  | json.JObject ms =>
      let '(id, e0) := json.field names (B "Id") json.decode_int ms (Id cur) in
      let '(name, e1) :=
        json.field names (B "Name") json.decode_string ms (Name cur) in
      let '(sv, e2) :=
        json.field names (B "StringValue") json.decode_string ms
          (StringValue cur) in
      let '(iv, e3) :=
        json.field names (B "IntValue") json.decode_int ms (IntValue cur) in
      ({| Id := id; Name := name; StringValue := sv; IntValue := iv |},
       json.first_of [e0; e1; e2; e3])
  | json.JNull => (cur, None)
  | _ => (cur, Some json_UnmarshalTypeError)
  end.

End DataObject.

(** ** ActivationData *)

Module ActivationData.

Record t : Type := mk {
  Mid : bytes;
  IP : bytes;
  Time : time.Time
}.

Definition zero : t := {| Mid := []; IP := []; Time := time.zero |}.

Module temp.

Record t : Type := mk {
  Mid : bytes;
  IP : bytes;
  Time : Z
}.

Definition zero : t := {| Mid := []; IP := []; Time := 0 |}.

Definition names : list bytes := [B "Mid"; B "IP"; B "Time"].

Definition decoder : json.decoder t := fun v cur =>
  match v with
  | json.JObject ms =>
      let '(mid, e0) :=
        json.field names (B "Mid") json.decode_string ms (Mid cur) in
      let '(ip, e1) :=
        json.field names (B "IP") json.decode_string ms (IP cur) in
      let '(tm, e2) :=
        json.field names (B "Time") json.decode_int64 ms (Time cur) in
      ({| Mid := mid; IP := ip; Time := tm |}, json.first_of [e0; e1; e2])
  | json.JNull => (cur, None)
  | _ => (cur, Some json_UnmarshalTypeError)
  end.

End temp.

Definition UnmarshalJSON (activationData : t) (b : json.value)
  : t * option error :=
  let (temp, err) := temp.decoder b temp.zero in
  match err with
  | Some e => (activationData, Some e)
  | None =>
      ({| Mid := temp.Mid temp;
          IP := temp.IP temp;
          Time := time.Unix (temp.Time temp) 0 |}, None)
  end.

Definition decoder : json.decoder t := fun v cur => UnmarshalJSON cur v.

End ActivationData.

(** ** Customer *)

Module Customer.

Record t : Type := mk {
  Id : Z;
  Name : bytes;
  Email : bytes;
  CompanyName : bytes;
  Created : time.Time
}.

Definition zero : t :=
  {| Id := 0; Name := []; Email := []; CompanyName := [];
     Created := time.zero |}.

Module temp.

Record t : Type := mk {
  Id : Z;
  Name : bytes;
  Email : bytes;
  CompanyName : bytes;
  Created : Z
}.

Definition zero : t :=
  {| Id := 0; Name := []; Email := []; CompanyName := []; Created := 0 |}.

Definition names : list bytes :=
  [B "Id"; B "Name"; B "Email"; B "CompanyName"; B "Created"].

Definition decoder : json.decoder t := fun v cur =>
  match v with
  | json.JObject ms =>
      let '(id, e0) := json.field names (B "Id") json.decode_int ms (Id cur) in
      let '(name, e1) :=
        json.field names (B "Name") json.decode_string ms (Name cur) in
      let '(email, e2) :=
        json.field names (B "Email") json.decode_string ms (Email cur) in
      let '(company, e3) :=
        json.field names (B "CompanyName") json.decode_string ms
          (CompanyName cur) in
      let '(created, e4) :=
        json.field names (B "Created") json.decode_int64 ms (Created cur) in
      ({| Id := id; Name := name; Email := email; CompanyName := company;
          Created := created |},
       json.first_of [e0; e1; e2; e3; e4])
  | json.JNull => (cur, None)
  | _ => (cur, Some json_UnmarshalTypeError)
  end.

End temp.

Definition UnmarshalJSON (customer : t) (b : json.value) : t * option error :=
  let (temp, err) := temp.decoder b temp.zero in
  match err with
  | Some e => (customer, Some e)
  | None =>
      ({| Id := temp.Id temp;
          Name := temp.Name temp;
          Email := temp.Email temp;
          CompanyName := temp.CompanyName temp;
          Created := time.Unix (temp.Created temp) 0 |}, None)
  end.

Definition decoder : json.decoder t := fun v cur => UnmarshalJSON cur v.

End Customer.

(** ** activateResponse *)

Module activateResponse.

Record t : Type := mk {
  LicenseKey : bytes;
  Signature : bytes;
  Result : Z;
  Message : bytes
}.

Definition zero : t :=
  {| LicenseKey := []; Signature := []; Result := 0; Message := [] |}.

(** The names given by the struct tags. *)
Definition names : list bytes :=
  [B "licenseKey"; B "signature"; B "result"; B "message"].

Definition decoder : json.decoder t := fun v cur =>
  match v with
  | json.JObject ms =>
      let '(lk, e0) :=
        json.field names (B "licenseKey") json.decode_string ms
          (LicenseKey cur) in
      let '(sg, e1) :=
        json.field names (B "signature") json.decode_string ms
          (Signature cur) in
      let '(rs, e2) :=
        json.field names (B "result") json.decode_int ms (Result cur) in
      let '(msg, e3) :=
        json.field names (B "message") json.decode_string ms (Message cur) in
      ({| LicenseKey := lk; Signature := sg; Result := rs; Message := msg |},
       json.first_of [e0; e1; e2; e3])
  | json.JNull => (cur, None)
  | _ => (cur, Some json_UnmarshalTypeError)
  end.

(** [json.Marshal] of an [activateResponse]: the fields in their order;
    strings and integers cannot fail to encode. *)
Definition Marshal (r : t) : bytes * option error :=
  (B "{"
     ++ json.encodeString (B "licenseKey") ++ B ":"
     ++ json.encodeString (LicenseKey r) ++ B ","
     ++ json.encodeString (B "signature") ++ B ":"
     ++ json.encodeString (Signature r) ++ B ","
     ++ json.encodeString (B "result") ++ B ":"
     ++ json.encodeInt (Result r) ++ B ","
     ++ json.encodeString (B "message") ++ B ":"
     ++ json.encodeString (Message r)
     ++ B "}",
   None).

End activateResponse.

(** ** The key descriptor read by HasValidSignature *)

Module RSAKeyValue.

Record t : Type := mk {
  Modulus : bytes;
  Exponent : bytes
}.

Definition zero : t := {| Modulus := []; Exponent := [] |}.

End RSAKeyValue.

(** ** LicenseKey *)

Module LicenseKey.

Record t : Type := mk {
  ProductId : Z;
  Id : Z;
  Key : bytes;
  Created : time.Time;
  Expires : time.Time;
  Period : Z;
  F1 : bool;
  F2 : bool;
  F3 : bool;
  F4 : bool;
  F5 : bool;
  F6 : bool;
  F7 : bool;
  F8 : bool;
  Notes : bytes;
  Block : bool;
  GlobalId : Z;
  Customer : Customer.t;
  ActivatedMachines : list ActivationData.t;
  TrialActivation : bool;
  MaxNoOfMachines : Z;
  AllowedMachines : list bytes;
  DataObjects : list DataObject.t;
  SignDate : time.Time;
  licenseKeyBytes : bytes;
  signatureBytes : bytes
}.

(** The zero value [LicenseKey{}]. *)
Definition zero : t :=
  {| ProductId := 0;
     Id := 0;
     Key := [];
     Created := time.zero;
     Expires := time.zero;
     Period := 0;
     F1 := false;
     F2 := false;
     F3 := false;
     F4 := false;
     F5 := false;
     F6 := false;
     F7 := false;
     F8 := false;
     Notes := [];
     Block := false;
     GlobalId := 0;
     Customer := Customer.zero;
     ActivatedMachines := [];
     TrialActivation := false;
     MaxNoOfMachines := 0;
     AllowedMachines := [];
     DataObjects := [];
     SignDate := time.zero;
     licenseKeyBytes := [];
     signatureBytes := [] |}.

Section Verification.

(** [xml.Unmarshal(data, &k)] for the key descriptor; the XML library is
    not modelled, what is proved holds for every decoder. *)
Variable xml_Unmarshal : bytes -> RSAKeyValue.t -> RSAKeyValue.t * option error.

Definition HasValidSignature (licenseKey : t) (publicKey : bytes) : bool :=
  let (k, err) := xml_Unmarshal publicKey RSAKeyValue.zero in
  match err with
  | Some _ => false
  | None =>
  let (modulusBytes, err) := base64.DecodeString (RSAKeyValue.Modulus k) in
  match err with
  | Some _ => false
  | None =>
  let (exponentBytes, err) := base64.DecodeString (RSAKeyValue.Exponent k) in
  match err with
  | Some _ => false
  | None =>
  let modulus := big.SetBytes modulusBytes in
  let exponent := big.SetBytes exponentBytes in
  if negb (big.IsInt64 exponent) then false
  else
    let key := {| rsa.N := modulus; rsa.E := Go_int (big.Int64 exponent) |} in
    let hashed := sha256.Sum256 (licenseKeyBytes licenseKey) in
    let err :=
      rsa.VerifyPKCS1v15 key rsa.SHA256 hashed (signatureBytes licenseKey) in
    match err with
    | None => true
    | Some _ => false
    end
  end end end.

End Verification.

Definition ToBytes (licenseKey : t) : bytes * option error :=
  let licenseKeyBase64 := base64.EncodeToString (licenseKeyBytes licenseKey) in
  let signatureBase64 := base64.EncodeToString (signatureBytes licenseKey) in
  let temp :=
    {| activateResponse.LicenseKey := licenseKeyBase64;
       activateResponse.Signature := signatureBase64;
       activateResponse.Result := 0;
       activateResponse.Message := [] |} in
  activateResponse.Marshal temp.

Module temp.

Record t : Type := mk {
  ProductId : Z;
  Id : Z;
  Key : bytes;
  Created : Z;
  Expires : Z;
  Period : Z;
  F1 : bool;
  F2 : bool;
  F3 : bool;
  F4 : bool;
  F5 : bool;
  F6 : bool;
  F7 : bool;
  F8 : bool;
  Notes : bytes;
  Block : bool;
  GlobalId : Z;
  Customer : Customer.t;
  ActivatedMachines : list ActivationData.t;
  TrialActivation : bool;
  MaxNoOfMachines : Z;
  AllowedMachines : bytes;
  DataObjects : list DataObject.t;
  SignDate : Z
}.

Definition zero : t :=
  {| ProductId := 0;
     Id := 0;
     Key := [];
     Created := 0;
     Expires := 0;
     Period := 0;
     F1 := false;
     F2 := false;
     F3 := false;
     F4 := false;
     F5 := false;
     F6 := false;
     F7 := false;
     F8 := false;
     Notes := [];
     Block := false;
     GlobalId := 0;
     Customer := Customer.zero;
     ActivatedMachines := [];
     TrialActivation := false;
     MaxNoOfMachines := 0;
     AllowedMachines := [];
     DataObjects := [];
     SignDate := 0 |}.

Definition names : list bytes :=
  [B "ProductId";
   B "Id";
   B "Key";
   B "Created";
   B "Expires";
   B "Period";
   B "F1";
   B "F2";
   B "F3";
   B "F4";
   B "F5";
   B "F6";
   B "F7";
   B "F8";
   B "Notes";
   B "Block";
   B "GlobalId";
   B "Customer";
   B "ActivatedMachines";
   B "TrialActivation";
   B "MaxNoOfMachines";
   B "AllowedMachines";
   B "DataObjects";
   B "SignDate"].

Definition decoder : json.decoder t := fun v cur =>
  match v with
  | json.JObject ms =>
      let f {T : Type} (name : bytes) (dec : json.decoder T) (x : T) :=
        json.field names name dec ms x in
      let v0 := f (B "ProductId") json.decode_int (ProductId cur) in
      let v1 := f (B "Id") json.decode_int (Id cur) in
      let v2 := f (B "Key") json.decode_string (Key cur) in
      let v3 := f (B "Created") json.decode_int64 (Created cur) in
      let v4 := f (B "Expires") json.decode_int64 (Expires cur) in
      let v5 := f (B "Period") json.decode_int (Period cur) in
      let v6 := f (B "F1") json.decode_bool (F1 cur) in
      let v7 := f (B "F2") json.decode_bool (F2 cur) in
      let v8 := f (B "F3") json.decode_bool (F3 cur) in
      let v9 := f (B "F4") json.decode_bool (F4 cur) in
      let v10 := f (B "F5") json.decode_bool (F5 cur) in
      let v11 := f (B "F6") json.decode_bool (F6 cur) in
      let v12 := f (B "F7") json.decode_bool (F7 cur) in
      let v13 := f (B "F8") json.decode_bool (F8 cur) in
      let v14 := f (B "Notes") json.decode_string (Notes cur) in
      let v15 := f (B "Block") json.decode_bool (Block cur) in
      let v16 := f (B "GlobalId") json.decode_int64 (GlobalId cur) in
      let v17 := f (B "Customer") Customer.decoder (Customer cur) in
      let v18 := f (B "ActivatedMachines") (json.decode_slice ActivationData.zero ActivationData.decoder) (ActivatedMachines cur) in
      let v19 := f (B "TrialActivation") json.decode_bool (TrialActivation cur) in
      let v20 := f (B "MaxNoOfMachines") json.decode_int (MaxNoOfMachines cur) in
      let v21 := f (B "AllowedMachines") json.decode_string (AllowedMachines cur) in
      let v22 := f (B "DataObjects") (json.decode_slice DataObject.zero DataObject.decoder) (DataObjects cur) in
      let v23 := f (B "SignDate") json.decode_int64 (SignDate cur) in
      ({| ProductId := fst v0;
          Id := fst v1;
          Key := fst v2;
          Created := fst v3;
          Expires := fst v4;
          Period := fst v5;
          F1 := fst v6;
          F2 := fst v7;
          F3 := fst v8;
          F4 := fst v9;
          F5 := fst v10;
          F6 := fst v11;
          F7 := fst v12;
          F8 := fst v13;
          Notes := fst v14;
          Block := fst v15;
          GlobalId := fst v16;
          Customer := fst v17;
          ActivatedMachines := fst v18;
          TrialActivation := fst v19;
          MaxNoOfMachines := fst v20;
          AllowedMachines := fst v21;
          DataObjects := fst v22;
          SignDate := fst v23 |},
       json.first_of
         [snd v0; snd v1; snd v2; snd v3; snd v4; snd v5;
          snd v6; snd v7; snd v8; snd v9; snd v10; snd v11;
          snd v12; snd v13; snd v14; snd v15; snd v16; snd v17;
          snd v18; snd v19; snd v20; snd v21; snd v22; snd v23])
  | json.JNull => (cur, None)
  | _ => (cur, Some json_UnmarshalTypeError)
  end.

End temp.

Definition UnmarshalJSON (licenseKey : t) (b : json.value) : t * option error :=
  let (temp, err) := temp.decoder b temp.zero in
  match err with
  | Some e => (licenseKey, Some e)
  | None =>
      ({| ProductId := temp.ProductId temp;
          Id := temp.Id temp;
          Key := temp.Key temp;
          Created := time.Unix (temp.Created temp) 0;
          Expires := time.Unix (temp.Expires temp) 0;
          Period := temp.Period temp;
          F1 := temp.F1 temp;
          F2 := temp.F2 temp;
          F3 := temp.F3 temp;
          F4 := temp.F4 temp;
          F5 := temp.F5 temp;
          F6 := temp.F6 temp;
          F7 := temp.F7 temp;
          F8 := temp.F8 temp;
          Notes := temp.Notes temp;
          Block := temp.Block temp;
          GlobalId := temp.GlobalId temp;
          Customer := temp.Customer temp;
          ActivatedMachines := temp.ActivatedMachines temp;
          TrialActivation := temp.TrialActivation temp;
          MaxNoOfMachines := temp.MaxNoOfMachines temp;
          AllowedMachines := strings.Split (temp.AllowedMachines temp) [x0a];
          DataObjects := temp.DataObjects temp;
          SignDate := time.Unix (temp.SignDate temp) 0;
          licenseKeyBytes := licenseKeyBytes licenseKey;
          signatureBytes := signatureBytes licenseKey |}, None)
  end.

Definition decoder : json.decoder t := fun v cur => UnmarshalJSON cur v.

(** The same record with other raw bytes ([k.licenseKeyBytes = ...],
    [k.signatureBytes = ...]). *)
Definition with_bytes (k : t) (license signature : bytes) : t :=
  {| ProductId := ProductId k;
     Id := Id k;
     Key := Key k;
     Created := Created k;
     Expires := Expires k;
     Period := Period k;
     F1 := F1 k;
     F2 := F2 k;
     F3 := F3 k;
     F4 := F4 k;
     F5 := F5 k;
     F6 := F6 k;
     F7 := F7 k;
     F8 := F8 k;
     Notes := Notes k;
     Block := Block k;
     GlobalId := GlobalId k;
     Customer := Customer k;
     ActivatedMachines := ActivatedMachines k;
     TrialActivation := TrialActivation k;
     MaxNoOfMachines := MaxNoOfMachines k;
     AllowedMachines := AllowedMachines k;
     DataObjects := DataObjects k;
     SignDate := SignDate k;
     licenseKeyBytes := license;
     signatureBytes := signature |}.

End LicenseKey.

(** ** KeyActivateArguments *)

Module KeyActivateArguments.

Record t : Type := mk {
  ProductId : Z;
  Key : bytes;
  MachineCode : bytes;
  FieldsToReturn : Z;
  FloatingTimeInterval : Z;
  MaxOverdraft : Z
}.

End KeyActivateArguments.

Definition parseActivateResponse (response : activateResponse.t)
  : bytes * bytes * option error :=
  let (licenseKeyBytes, err) :=
    base64.DecodeString (activateResponse.LicenseKey response) in
  match err with
  | Some e => ([], [], Some e)
  | None =>
  let (signatureBytes, err) :=
    base64.DecodeString (activateResponse.Signature response) in
  match err with
  | Some e => ([], [], Some e)
  | None => (licenseKeyBytes, signatureBytes, None)
  end end.

Definition buildLicenseKey (licenseKeyBytes signatureBytes : bytes)
  : LicenseKey.t * option error :=
  let (k, err) :=
    json.Unmarshal LicenseKey.decoder licenseKeyBytes LicenseKey.zero in
  match err with
  | Some e => (LicenseKey.zero, Some e)
  | None => (LicenseKey.with_bytes k licenseKeyBytes signatureBytes, None)
  end.

Definition KeyFromBytes (b : bytes) : LicenseKey.t * option error :=
  let (r, err) :=
    json.Unmarshal activateResponse.decoder b activateResponse.zero in
  match err with
  | Some e => (LicenseKey.zero, Some e)
  | None =>
  let '(licenseKeyBytes, signatureBytes, err) := parseActivateResponse r in
  match err with
  | Some e => (LicenseKey.zero, Some e)
  | None => buildLicenseKey licenseKeyBytes signatureBytes
  end end.

Section Activation.

(** [http.PostForm(url, data)]: the body of the response, or the error
    of the transport.  The network is not modelled, what is proved holds
    for every server whose body is read to its end: an error of reading
    the body, which [dec.Decode] would return, has no value here. *)
Variable http_PostForm : bytes -> list (bytes * bytes) -> bytes * option error.

(** [data.Add(key, value)] on [url.Values] *)
Definition Add (data : list (bytes * bytes)) (key value : bytes)
  : list (bytes * bytes) := data ++ [(key, value)].

Definition makeActivateRequest (token : bytes) (args : KeyActivateArguments.t)
  : activateResponse.t * option error :=
  (* From KeyActivateArguments struct *)
  let data := [] in
  let data := Add data (B "token") token in
  let data := Add data (B "ProductId")
                (strconv.Itoa (KeyActivateArguments.ProductId args)) in
  let data := Add data (B "Key") (KeyActivateArguments.Key args) in
  let data := Add data (B "MachineCode")
                (KeyActivateArguments.MachineCode args) in
  let data := Add data (B "FieldsToReturn")
                (strconv.Itoa (KeyActivateArguments.FieldsToReturn args)) in
  let data := Add data (B "FloatingTimeInterval")
                (strconv.Itoa (KeyActivateArguments.FloatingTimeInterval args)) in
  let data := Add data (B "MaxOverdraft")
                (strconv.Itoa (KeyActivateArguments.MaxOverdraft args)) in
  (* Hardcoded by the library *)
  let data := Add data (B "Sign") (B "true") in
  let data := Add data (B "SignMethod") (B "1") in
  let (response, err) :=
    http_PostForm (B "https://app.cryptolens.io/api/key/Activate") data in
  match err with
  | Some e => (activateResponse.zero, Some e)
  | None =>
  let (r, err) :=
    json.Decode activateResponse.decoder response activateResponse.zero in
  match err with
  | Some e => (activateResponse.zero, Some e)
  | None => (r, None)
  end end.

Definition KeyActivate (token : bytes) (args : KeyActivateArguments.t)
  : LicenseKey.t * option error :=
  let (activateResponse, err) := makeActivateRequest token args in
  match err with
  | Some e => (LicenseKey.zero, Some e)
  | None =>
  let '(licenseKeyBytes, signatureBytes, err) :=
    parseActivateResponse activateResponse in
  match err with
  | Some e => (LicenseKey.zero, Some e)
  | None => buildLicenseKey licenseKeyBytes signatureBytes
  end end.

End Activation.

End cryptolens.

(** * A reader for key descriptors

    [encoding/xml] is not modelled.  To run HasValidSignature on the key
    of the README, this reader decodes descriptors of its form: a root
    element whose children are elements that hold text, with no
    attributes, entities, comments or declarations; anything else is an
    error here. *)

Module descriptor.

Import cryptolens.

Inductive state : Type :=
| Start
| RootName (name : bytes)
| Body (root : bytes)
| Open (root : bytes)
| ChildName (root name : bytes)
| ChildText (root name text : bytes)
| ChildEnd0 (root name text : bytes)
| ChildEnd (root name text close : bytes)
| RootEnd (root close : bytes)
| Done.

Definition isName (c : byte) : bool :=
  utf8.between 65 90 c || utf8.between 97 122 c || utf8.between 48 57 c.

Definition store (name text : bytes) (k : RSAKeyValue.t) : RSAKeyValue.t :=
  if bytes_eqb name (B "Modulus")
  then {| RSAKeyValue.Modulus := text;
          RSAKeyValue.Exponent := RSAKeyValue.Exponent k |}
  else if bytes_eqb name (B "Exponent")
  then {| RSAKeyValue.Modulus := RSAKeyValue.Modulus k;
          RSAKeyValue.Exponent := text |}
  else k.

(** Names and text are kept latest byte first while they are read. *)
Definition step (sk : state * RSAKeyValue.t) (c : byte)
  : option (state * RSAKeyValue.t) :=
  let (s, k) := sk in
  let at_byte x := Byte.eqb c x in
  match s with
  | Start =>
      if json.isSpace c then Some (Start, k)
      else if at_byte "<"%byte then Some (RootName [], k)
      else None
  | RootName n =>
      if at_byte ">"%byte then
        match n with [] => None | _ => Some (Body (rev n), k) end
      else if isName c then Some (RootName (c :: n), k)
      else None
  | Body root =>
      if json.isSpace c then Some (Body root, k)
      else if at_byte "<"%byte then Some (Open root, k)
      else None
  | Open root =>
      if at_byte "/"%byte then Some (RootEnd root [], k)
      else if isName c then Some (ChildName root [c], k)
      else None
  | ChildName root n =>
      if at_byte ">"%byte then Some (ChildText root (rev n) [], k)
      else if isName c then Some (ChildName root (c :: n), k)
      else None
  | ChildText root n t =>
      if at_byte "<"%byte then Some (ChildEnd0 root n t, k)
      else if at_byte "&"%byte then None
      else Some (ChildText root n (c :: t), k)
  | ChildEnd0 root n t =>
      if at_byte "/"%byte then Some (ChildEnd root n t [], k) else None
  | ChildEnd root n t cl =>
      if at_byte ">"%byte then
        if bytes_eqb (rev cl) n then Some (Body root, store n (rev t) k)
        else None
      else if isName c then Some (ChildEnd root n t (c :: cl), k)
      else None
  | RootEnd root cl =>
      if at_byte ">"%byte then
        if bytes_eqb (rev cl) root then Some (Done, k) else None
      else if isName c then Some (RootEnd root (c :: cl), k)
      else None
  | Done => if json.isSpace c then Some (Done, k) else None
  end.

Fixpoint run (sk : state * RSAKeyValue.t) (data : bytes)
  : option (state * RSAKeyValue.t) :=
  match data with
  | [] => Some sk
  | c :: r =>
      match step sk c with
      | Some sk' => run sk' r
      | None => None
      end
  end.

Definition Unmarshal (data : bytes) (k : RSAKeyValue.t)
  : RSAKeyValue.t * option error :=
  match run (Start, k) data with
  | Some (Done, k') => (k', None)
  | _ => (k, Some xml_Error)
  end.

End descriptor.

(** * The example program [examples/example_activate]

    [main] activates a key, checks its signature and its expiry and
    greets the user.  The clock is an argument, and what the program
    prints is what the function returns, line by line. *)

Module example_activate.

Import cryptolens.

Definition token : bytes :=
  B "WyI0NjUiLCJBWTBGTlQwZm9WV0FyVnZzMEV1Mm9LOHJmRDZ1SjF0Vk52WTU0VzB2Il0=".

Definition publicKey : bytes :=
  B "<RSAKeyValue><Modulus>khbyu3/vAEBHi339fTuo2nUaQgSTBj0jvpt5xn" ++
  B "LTTF35FLkGI+5Z3wiKfnvQiCLf+5s4r8JB/Uic/i6/iNjPMILlFeE0N6XZ+2" ++
  B "pkgwRkfMOcx6eoewypTPUoPpzuAINJxJRpHym3V6ZJZ1UfYvzRcQBD/lBeAY" ++
  B "rvhpCwukQMkGushKsOS6U+d+2C9ZNeP+U+uwuv/xu8YBCBAgGb8YdNojcGzM" ++
  B "4SbCtwvJ0fuOfmCWZvUoiumfE4x7rAhp1pa9OEbUe0a5HL+1v7+JLBgkNZ7Z" ++
  B "2biiHaM6za7GjHCXU8rojatEQER+MpgDuQV3ZPx8RKRdiJgPnz9ApBHFYDHL" ++
  B "DzDw==</Modulus><Exponent>AQAB</Exponent></RSAKeyValue>".

Section Main.

Variable http_PostForm : bytes -> list (bytes * bytes) -> bytes * option error.

Variable xml_Unmarshal : bytes -> RSAKeyValue.t -> RSAKeyValue.t * option error.

(** [time.Now()] *)
Variable time_Now : time.Time.

Definition main : list bytes :=
  let (licenseKey, err) :=
    KeyActivate http_PostForm token
      {| KeyActivateArguments.ProductId := 3646;
         KeyActivateArguments.Key := B "MPDWY-PQAOW-FKSCH-SGAAU";
         KeyActivateArguments.MachineCode := B "289jf2afs3";
         KeyActivateArguments.FieldsToReturn := 0;
         KeyActivateArguments.FloatingTimeInterval := 0;
         KeyActivateArguments.MaxOverdraft := 0 |} in
  if match err with Some _ => true | None => false end
     || negb (LicenseKey.HasValidSignature xml_Unmarshal licenseKey publicKey)
  then [B "License key activation failed!"]
  else
    (B "License key for product with id: "
       ++ strconv.Itoa (LicenseKey.ProductId licenseKey))
    :: (if time.After time_Now (LicenseKey.Expires licenseKey)
        then [B "License key has expired"]
        else if LicenseKey.F1 licenseKey
             then [B "Welcome! Pro version enabled!"]
             else [B "Welcome!"]).

End Main.

End example_activate.

(** * The vocabulary of the statements

    The predicates and examples the theorems below are stated with. *)

Import cryptolens.

(** ** Blobs *)

(** A byte is plain when [encodeString] writes it as it is; the scanner
    and [unquote] then read it back as it is. *)
Definition plain (c : byte) : Prop := json.htmlSafeSet c = true.

(** The text of a blob that holds the base64 strings [L] and [S]. *)
Definition blob (L S : bytes) : bytes :=
  J "{'licenseKey':'" ++ L ++ dquote :: J ",'signature':'"
    ++ S ++ dquote :: J ",'result':0,'message':''}".

(** The object a blob is read as. *)
Definition blob_value (L S : bytes) : json.value :=
  json.JObject
    [(B "licenseKey", json.JString L); (B "signature", json.JString S);
     (B "result", json.JNumber (B "0")); (B "message", json.JString [])].

(** The raw license bytes are a payload that decodes into a LicenseKey. *)
Definition decodable (licenseKeyBytes : bytes) : Prop :=
  snd (json.Unmarshal LicenseKey.decoder licenseKeyBytes LicenseKey.zero) = None.

(** Reading back the blob written for [lk] succeeds and gives a key that
    carries the raw bytes of [lk]. *)
Definition round_trip (lk : LicenseKey.t) : Prop :=
  exists lk',
    KeyFromBytes (fst (LicenseKey.ToBytes lk)) = (lk', None)
    /\ LicenseKey.licenseKeyBytes lk' = LicenseKey.licenseKeyBytes lk
    /\ LicenseKey.signatureBytes lk' = LicenseKey.signatureBytes lk.

(** A character of base64 text, RFC 4648: a letter, a digit, [+], [/]
    or the padding character [=]. *)
Definition base64_char (c : byte) : bool :=
  let x := byte_to_Z c in
  ((65 <=? x) && (x <=? 90)) || ((97 <=? x) && (x <=? 122))
  || ((48 <=? x) && (x <=? 57)) || (x =? 43) || (x =? 47) || (x =? 61).

(** ** The scanner *)

(** Once the top-level value is complete, nothing is open and the
    scanner is after a value. *)
Definition settled (s : json.scanner) : Prop :=
  match json.top s with
  | Some _ =>
      json.parseState s = []
      /\ (json.step s = json.stateEndValue \/ json.step s = json.stateEndTop)
  | None => True
  end.

(** ** The activation path *)

(** A server that answers every request with [body]. *)
Definition answers (body : bytes)
  : bytes -> list (bytes * bytes) -> bytes * option error :=
  fun _ _ => (body, None).

(** ** Members and fields *)

(** [v] is an object with a member whose key selects the field [name]. *)
Definition has_member (names : list bytes) (name : bytes) (v : json.value)
  : bool :=
  match v with
  | json.JObject ms => existsb (fun m => json.selects names (fst m) name) ms
  | _ => false
  end.

(** No error, or the decoder's type error. *)
Definition type_error_or_none (e : option error) : Prop :=
  e = None \/ e = Some json_UnmarshalTypeError.

Definition selects_result (key : bytes) : bool :=
  json.selects activateResponse.names key (B "result").

Definition selects_message (key : bytes) : bool :=
  json.selects activateResponse.names key (B "message").

(** Two members with the same key, and the same value unless the key
    selects result or message. *)
Definition same_member (m1 m2 : bytes * json.value) : Prop :=
  fst m1 = fst m2
  /\ (snd m1 = snd m2
      \/ selects_result (fst m1) = true
      \/ selects_message (fst m1) = true).

(** Two inputs that are identical except in the values of their result
    and message fields. *)
Definition same_except_result_message (v1 v2 : json.value) : Prop :=
  match v1, v2 with
  | json.JObject ms1, json.JObject ms2 => Forall2 same_member ms1 ms2
  | _, _ => v1 = v2
  end.

(** A value an [int] field takes: null or an integer in range. *)
Definition int_value (v : json.value) : bool :=
  match v with
  | json.JNull => true
  | json.JNumber lit =>
      match strconv.ParseInt lit with Some _ => true | None => false end
  | _ => false
  end.

(** A value a [string] field takes: null or a string. *)
Definition string_value (v : json.value) : bool :=
  match v with
  | json.JNull | json.JString _ => true
  | _ => false
  end.

(** As [same_member], where the values of result are integers and those
    of message are strings, as the wire contract has them. *)
Definition same_member_typed (m1 m2 : bytes * json.value) : Prop :=
  fst m1 = fst m2
  /\ (snd m1 = snd m2
      \/ (selects_result (fst m1) = true
          /\ int_value (snd m1) = true /\ int_value (snd m2) = true)
      \/ (selects_message (fst m1) = true
          /\ string_value (snd m1) = true /\ string_value (snd m2) = true)).

Definition same_except_typed_result_message (v1 v2 : json.value) : Prop :=
  match v1, v2 with
  | json.JObject ms1, json.JObject ms2 => Forall2 same_member_typed ms1 ms2
  | _, _ => v1 = v2
  end.

(** ** The license payload *)

(** What the object [v] holds for the field [name] of a record with the
    fields [names], read with [dec]; [zero] where it holds nothing. *)
Definition payload_in {T : Type} (names : list bytes) (name : bytes)
  (dec : json.decoder T) (zero : T) (v : json.value) : T :=
  match v with
  | json.JObject ms => fst (json.field names name dec ms zero)
  | _ => zero
  end.

(** The same for the record LicenseKey.UnmarshalJSON decodes into. *)
Definition payload {T : Type} (name : bytes) (dec : json.decoder T) (zero : T)
  (v : json.value) : T :=
  payload_in LicenseKey.temp.names name dec zero v.

(** The error of decoding what the payload holds for the field. *)
Definition payload_error {T : Type} (name : bytes) (dec : json.decoder T)
  (zero : T) (v : json.value) : option error :=
  match v with
  | json.JObject ms => snd (json.field LicenseKey.temp.names name dec ms zero)
  | _ => None
  end.

(** [k] is returned, with a nil error, by one of the operations that
    build a LicenseKey. *)
Definition produced (k : LicenseKey.t) : Prop :=
  (exists k0 v, LicenseKey.UnmarshalJSON k0 v = (k, None))
  \/ (exists b sig, buildLicenseKey b sig = (k, None))
  \/ (exists b, KeyFromBytes b = (k, None))
  \/ (exists http token args, KeyActivate http token args = (k, None)).

(** ** Examples *)

(** A license payload. *)
Definition example_payload : bytes :=
  J "{'ProductId':3646,'Key':'MPDWY-PQAOW-FKSCH-SGAAU','Created':0,'Expires':1700000000,'F1':true,'Customer':{'Id':7,'Name':'Bob','Created':1500000000},'ActivatedMachines':[{'Mid':'289jf2afs3','IP':'10.0.0.1','Time':1600000000}],'AllowedMachines':'','SignDate':1700000000}".

Definition example_value : json.value :=
  Eval vm_compute in
    match json.parse example_payload with
    | Some v => v
    | None => json.JNull
    end.

Definition example_key : LicenseKey.t :=
  Eval vm_compute in fst (buildLicenseKey example_payload (B "signature")).

(** The public half of a 1024-bit key, as the Modulus of a descriptor,
    and the signature made with the private half for the example
    payload. *)
Definition example_modulus : bytes :=
  B "0SqckGPKhgo2zD8SOfQ0Uf8ZuwZ7t3R48vv/UirTq9hrbh4OMpa4h9Mh1wwQR7yY" ++
  B "v1nXoLRdGTxhaaWVwLzG3Ihkx3vmxsce5gc43HbU5js2LfDUStZCkWJIdYDDKBqH" ++
  B "e1lDY5jADRUH+YttQSpQw2Fug3O2NsmkqLJ7bhG8Y00=".

Definition example_descriptor : bytes :=
  B "<RSAKeyValue><Modulus>" ++ example_modulus
    ++ B "</Modulus><Exponent>AQAB</Exponent></RSAKeyValue>".

Definition example_RSAKeyValue : RSAKeyValue.t :=
  {| RSAKeyValue.Modulus := example_modulus; RSAKeyValue.Exponent := B "AQAB" |}.

Definition example_signature : bytes :=
  fst (base64.DecodeString
         (B "MjJ9j+U45JVger4cGPgOqkHDsotFpsrOUMcq8b10BKSFg74yfm9pSroCT3FqA3i/" ++
         B "VVgTsjukIVImTZ9i+Kzkw0EYgRPgmd3+Dunl8gPsTy0EQuyOA/z61z3n3FOAXSN+" ++
         B "8JFAk6Xon5kZGKFaH8miSPk560fukcYOlkFhUpUJjUg=")).

Definition example_signed_key : LicenseKey.t :=
  LicenseKey.with_bytes example_key example_payload example_signature.

(** A descriptor whose Exponent is 2 ^ 64, nine bytes. *)
Definition example_large_exponent : bytes :=
  B "<RSAKeyValue><Modulus>" ++ example_modulus
    ++ B "</Modulus><Exponent>AQAAAAAAAAAA</Exponent></RSAKeyValue>".

(** ** RSASSA-PKCS1-v1_5 with SHA-256, as RFC 8017 defines it

    What it is for a signature to be valid, written from the standard and
    not from the library: octet strings as integers, the encoded message
    of a digest, and the verification of section 8.2.2. *)

(** OS2IP: an octet string as a non-negative integer, the first octet
    the most significant. *)
Fixpoint OS2IP (X : bytes) : Z :=
  match X with
  | [] => 0
  | x :: r => byte_to_Z x * 256 ^ Z.of_nat (List.length r) + OS2IP r
  end.

(** [k] is the length in octets of the modulus [n]. *)
Definition octet_length (n : Z) (k : nat) : Prop :=
  256 ^ (Z.of_nat k - 1) <= n < 256 ^ Z.of_nat k.

(** The DER encoding of the DigestInfo of a SHA-256 digest. *)
Definition DigestInfo (digest : bytes) : bytes :=
  [x30; x31; x30; x0d; x06; x09; x60; x86; x48; x01; x65; x03; x04; x02; x01;
   x05; x00; x04; x20] ++ digest.

(** EMSA-PKCS1-v1_5: the encoded message of [emLen] octets for a digest. *)
Definition EMSA_PKCS1_v1_5 (digest : bytes) (emLen : nat) : bytes :=
  let T := DigestInfo digest in
  [x00; x01] ++ repeat xff (emLen - List.length T - 3) ++ [x00] ++ T.

(** RSASSA-PKCS1-V1_5-VERIFY with SHA-256: [S] is a valid signature of
    the message [M] under the public key [(n, e)].  The signature has the
    length of the modulus, the integer it stands for is below the modulus,
    the encoded message fits with eight octets of padding at least, and
    the signature raised to [e] modulo [n] is the encoded message. *)
Definition valid_signature (n e : Z) (M S : bytes) : Prop :=
  exists k : nat,
    octet_length n k
    /\ List.length S = k
    /\ OS2IP S < n
    /\ (List.length (DigestInfo (sha256.Sum256 M)) + 11 <= k)%nat
    /\ OS2IP S ^ e mod n = OS2IP (EMSA_PKCS1_v1_5 (sha256.Sum256 M) k).

(** Bytes written as hexadecimal digits. *)
Definition hex_digit (c : byte) : Z :=
  let x := byte_to_Z c in if x <? 58 then x - 48 else x - 87.

Fixpoint hex_bytes (s : bytes) : bytes :=
  match s with
  | a :: b :: r => byte_of_Z (16 * hex_digit a + hex_digit b) :: hex_bytes r
  | _ => []
  end.

Definition hex (s : string) : bytes := hex_bytes (B s).

(** A descriptor with the example modulus and the exponent 1. *)
Definition example_unit_exponent : bytes :=
  B "<RSAKeyValue><Modulus>" ++ example_modulus
    ++ B "</Modulus><Exponent>AQ==</Exponent></RSAKeyValue>".

(** The encoded message of the example payload, which nobody signed, in
    the place of a signature. *)
Definition example_unsigned_key : LicenseKey.t :=
  LicenseKey.with_bytes example_key example_payload
    (EMSA_PKCS1_v1_5 (sha256.Sum256 example_payload) 128).

(** A descriptor with the example modulus and the exponent 2^31 + 11, and
    the signature made for the example payload with the private half
    that belongs to this exponent. *)
Definition example_wide_exponent : bytes :=
  B "<RSAKeyValue><Modulus>" ++ example_modulus
    ++ B "</Modulus><Exponent>gAAACw==</Exponent></RSAKeyValue>".

Definition example_wide_signature : bytes :=
  fst (base64.DecodeString
         (B "Nl4hVfwHoBXx3R8o7cDxpcah8KgHTlCnCu6YMW7REc3McYZMkedQwwPUUsnRS1fs" ++
         B "LHfA3i/HA2nkDRm2X0r53Jv2qlS/ZnfmWNAfGVdHx+JvxDfayuV49vVyKTVWHdhX" ++
         B "qA/DC0GPOPICsKDM24GXICi+62HAI/RA59SZ0BCtkag=")).

Definition example_wide_key : LicenseKey.t :=
  LicenseKey.with_bytes example_key example_payload example_wide_signature.

(** ** Keys the client returns *)

(** [k] is returned, with a nil error, by buildLicenseKey, KeyFromBytes
    or KeyActivate. *)
Definition returned (k : LicenseKey.t) : Prop :=
  (exists b sig, buildLicenseKey b sig = (k, None))
  \/ (exists b, KeyFromBytes b = (k, None))
  \/ (exists http token args, KeyActivate http token args = (k, None)).

(** The exported fields of a key: the record without its raw bytes. *)
Definition exported (k : LicenseKey.t) : LicenseKey.t :=
  LicenseKey.with_bytes k [] [].

(** ** The activation request *)

Definition activate_url : bytes :=
  B "https://app.cryptolens.io/api/key/Activate".

(** The form makeActivateRequest posts, each key with its one value, in
    the order the values are added. *)
Definition activate_form (token : bytes) (args : KeyActivateArguments.t)
  : list (bytes * bytes) :=
  [(B "token", token);
   (B "ProductId", strconv.Itoa (KeyActivateArguments.ProductId args));
   (B "Key", KeyActivateArguments.Key args);
   (B "MachineCode", KeyActivateArguments.MachineCode args);
   (B "FieldsToReturn", strconv.Itoa (KeyActivateArguments.FieldsToReturn args));
   (B "FloatingTimeInterval",
    strconv.Itoa (KeyActivateArguments.FloatingTimeInterval args));
   (B "MaxOverdraft", strconv.Itoa (KeyActivateArguments.MaxOverdraft args));
   (B "Sign", B "true");
   (B "SignMethod", B "1")].

(** A byte that is not JSON white space. *)
Definition nonSpace (c : byte) : bool := negb (json.isSpace c).

(** ** Errors *)

(** The errors of reading a blob: of the JSON text, of a value of the
    wrong type, and of a base64 string. *)
Definition offline_error (e : error) : Prop :=
  e = json_SyntaxError \/ e = json_UnmarshalTypeError
  \/ e = base64_CorruptInputError.

(** ** base64 text *)

(** A byte that no base64 string holds: not of the alphabet, not the
    padding character, not a line break. *)
Definition foreign (c : byte) : bool :=
  (base64.decodeMap c =? 255) && negb (base64.is_newline c)
  && negb (Byte.eqb c base64.StdPadding).

(** ** The fields of the license payload by their type *)

Definition bool_fields : list bytes :=
  [B "F1"; B "F2"; B "F3"; B "F4"; B "F5"; B "F6"; B "F7"; B "F8";
   B "Block"; B "TrialActivation"].

Definition int_fields : list bytes :=
  [B "ProductId"; B "Id"; B "Created"; B "Expires"; B "Period";
   B "GlobalId"; B "MaxNoOfMachines"; B "SignDate"].

Definition string_fields : list bytes :=
  [B "Key"; B "Notes"; B "AllowedMachines"].

(** A value a [bool] field takes: null, true or false. *)
Definition bool_value (v : json.value) : bool :=
  match v with
  | json.JNull | json.JBool _ => true
  | _ => false
  end.

Definition mem (name : bytes) (l : list bytes) : bool :=
  existsb (bytes_eqb name) l.

(** [x] is not a value the field [name] takes. *)
Definition ill_typed (name : bytes) (x : json.value) : bool :=
  (mem name bool_fields && negb (bool_value x))
  || (mem name int_fields && negb (int_value x))
  || (mem name string_fields && negb (string_value x)).

(** ** The plain fields of a license

    The fields LicenseKey.UnmarshalJSON copies as they are decoded, by
    the name of the member of the payload that holds them. *)

Definition plain_ints (lk : LicenseKey.t) : list (bytes * Z) :=
  [(B "ProductId", LicenseKey.ProductId lk);
   (B "Id", LicenseKey.Id lk);
   (B "Period", LicenseKey.Period lk);
   (B "GlobalId", LicenseKey.GlobalId lk);
   (B "MaxNoOfMachines", LicenseKey.MaxNoOfMachines lk)].

Definition plain_bools (lk : LicenseKey.t) : list (bytes * bool) :=
  [(B "F1", LicenseKey.F1 lk);
   (B "F2", LicenseKey.F2 lk);
   (B "F3", LicenseKey.F3 lk);
   (B "F4", LicenseKey.F4 lk);
   (B "F5", LicenseKey.F5 lk);
   (B "F6", LicenseKey.F6 lk);
   (B "F7", LicenseKey.F7 lk);
   (B "F8", LicenseKey.F8 lk);
   (B "Block", LicenseKey.Block lk);
   (B "TrialActivation", LicenseKey.TrialActivation lk)].

Definition plain_strings (lk : LicenseKey.t) : list (bytes * bytes) :=
  [(B "Key", LicenseKey.Key lk);
   (B "Notes", LicenseKey.Notes lk)].

(** ** Lists of lines *)

(** The pieces with [sep] between them. *)
Fixpoint join (pieces : list bytes) (sep : bytes) : bytes :=
  match pieces with
  | [] => []
  | p :: r =>
      match r with
      | [] => p
      | _ => p ++ sep ++ join r sep
      end
  end.

(** The number of newline characters of a string. *)
Definition newlines (s : bytes) : nat := count_occ Byte.byte_eq_dec s x0a.

(** ** A payload that holds nothing *)

(** The payload is null, or an object none of whose keys selects a field
    of the license. *)
Definition holds_nothing (v : json.value) : bool :=
  match v with
  | json.JNull => true
  | json.JObject ms =>
      forallb
        (fun m =>
           match json.fieldName LicenseKey.temp.names (fst m) with
           | None => true
           | Some _ => false
           end) ms
  | _ => false
  end.

(** The key built from such a payload: zero values, the Unix epoch for
    the three timestamps and one allowed machine, the empty string. *)
Definition empty_key : LicenseKey.t :=
  {| LicenseKey.ProductId := 0;
     LicenseKey.Id := 0;
     LicenseKey.Key := [];
     LicenseKey.Created := time.Unix 0 0;
     LicenseKey.Expires := time.Unix 0 0;
     LicenseKey.Period := 0;
     LicenseKey.F1 := false;
     LicenseKey.F2 := false;
     LicenseKey.F3 := false;
     LicenseKey.F4 := false;
     LicenseKey.F5 := false;
     LicenseKey.F6 := false;
     LicenseKey.F7 := false;
     LicenseKey.F8 := false;
     LicenseKey.Notes := [];
     LicenseKey.Block := false;
     LicenseKey.GlobalId := 0;
     LicenseKey.Customer := Customer.zero;
     LicenseKey.ActivatedMachines := [];
     LicenseKey.TrialActivation := false;
     LicenseKey.MaxNoOfMachines := 0;
     LicenseKey.AllowedMachines := [[]];
     LicenseKey.DataObjects := [];
     LicenseKey.SignDate := time.Unix 0 0;
     LicenseKey.licenseKeyBytes := [];
     LicenseKey.signatureBytes := [] |}.

(** ** Records of the payload that do not decode *)

(** A member of the wrong type for the integer or string field it
    selects. *)
Definition bad_member (names ints strings : list bytes)
  (m : bytes * json.value) : bool :=
  match json.fieldName names (fst m) with
  | Some name =>
      (mem name ints && negb (int_value (snd m)))
      || (mem name strings && negb (string_value (snd m)))
  | None => false
  end.

(** A value that is not null and not an object, or an object with such
    a member. *)
Definition bad_record (names ints strings : list bytes) (v : json.value)
  : bool :=
  match v with
  | json.JNull => false
  | json.JObject ms => existsb (bad_member names ints strings) ms
  | _ => true
  end.

Definition bad_customer : json.value -> bool :=
  bad_record Customer.temp.names [B "Id"; B "Created"]
    [B "Name"; B "Email"; B "CompanyName"].

Definition bad_machine : json.value -> bool :=
  bad_record ActivationData.temp.names [B "Time"] [B "Mid"; B "IP"].

(** A value that is not null and not an array, or an array with an entry
    that does not decode. *)
Definition bad_machines (v : json.value) : bool :=
  match v with
  | json.JNull => false
  | json.JArray es => existsb bad_machine es
  | _ => true
  end.

(** ** The example program *)

(** The arguments [main] activates with. *)
Definition example_args : KeyActivateArguments.t :=
  {| KeyActivateArguments.ProductId := 3646;
     KeyActivateArguments.Key := B "MPDWY-PQAOW-FKSCH-SGAAU";
     KeyActivateArguments.MachineCode := B "289jf2afs3";
     KeyActivateArguments.FieldsToReturn := 0;
     KeyActivateArguments.FloatingTimeInterval := 0;
     KeyActivateArguments.MaxOverdraft := 0 |}.

Definition failed_line : bytes := B "License key activation failed!".

Definition expired_line : bytes := B "License key has expired".

Definition product_line (k : LicenseKey.t) : bytes :=
  B "License key for product with id: "
    ++ strconv.Itoa (LicenseKey.ProductId k).

(** One of the two lines that greet the user. *)
Definition greeting (line : bytes) : Prop :=
  line = B "Welcome!" \/ line = B "Welcome! Pro version enabled!".

(** * Properties *)

(** ** Bytes *)

Lemma byte_to_Z_range (b : byte) : 0 <= byte_to_Z b < 256.
Proof. destruct b; vm_compute; split; congruence. Qed.

Lemma byte_of_to_Z (b : byte) : byte_of_Z (byte_to_Z b) = b.
Proof. destruct b; reflexivity. Qed.

Lemma byte_eqb_eq (a b : byte) : Byte.eqb a b = true <-> a = b.
Proof.
  split; [apply Byte.byte_dec_bl | apply Byte.byte_dec_lb].
Qed.

Lemma bytes_eqb_eq (a b : bytes) : bytes_eqb a b = true <-> a = b.
Proof.
  unfold bytes_eqb. destruct (list_eq_dec Byte.byte_eq_dec a b); split;
    congruence.
Qed.

(** ** base64: decoding inverts encoding *)

Lemma lor_shiftl_add (a b n : Z) :
  0 <= n -> 0 <= b < 2 ^ n -> Z.lor (Z.shiftl a n) b = a * 2 ^ n + b.
Proof.
  intros Hn Hb.
  rewrite <- Z.lxor_lor, <- Z.add_nocarry_lxor, Z.shiftl_mul_pow2; auto.
  all: apply Z.bits_inj'; intros i Hi;
    rewrite Z.land_spec, Z.bits_0;
    destruct (Z.lt_ge_cases i n) as [Hlt | Hge].
  all: try (rewrite Z.shiftl_spec_low by lia; reflexivity).
  all: rewrite <- (Z.mod_small b (2 ^ n)) by lia;
    rewrite Z.mod_pow2_bits_high by lia; apply andb_false_r.
Qed.

Lemma land_63 (a : Z) : Z.land a 63 = a mod 64.
Proof. change 63 with (Z.ones 6). rewrite Z.land_ones by lia. reflexivity. Qed.

Lemma list_ind3 (A : Type) (P : list A -> Prop) :
  P [] -> (forall a, P [a]) -> (forall a b, P [a; b]) ->
  (forall a b c l, P l -> P (a :: b :: c :: l)) ->
  forall l, P l.
Proof.
  intros H0 H1 H2 H3.
  fix IH 1. intros [| a [| b [| c l]]].
  - exact H0.
  - apply H1.
  - apply H2.
  - apply H3, IH.
Qed.

Lemma lor_add (a b n : Z) :
  0 <= n -> a mod 2 ^ n = 0 -> 0 <= b < 2 ^ n -> Z.lor a b = a + b.
Proof.
  intros Hn Ha Hb.
  assert (E : a = Z.shiftl (a / 2 ^ n) n).
  { rewrite Z.shiftl_mul_pow2 by lia.
    pose proof (Z.div_mod a (2 ^ n)). lia. }
  rewrite E at 1. rewrite lor_shiftl_add by lia.
  pose proof (Z.div_mod a (2 ^ n)). lia.
Qed.

Lemma byte_of_Z_eq (z : Z) (b : byte) :
  z mod 256 = byte_to_Z b -> byte_of_Z z = b.
Proof.
  intros H. rewrite <- (byte_of_to_Z b), <- H.
  unfold byte_of_Z. rewrite Z.mod_mod by lia. reflexivity.
Qed.

Lemma base64_decodeMap_encode (i : Z) :
  0 <= i < 64 -> base64.decodeMap (base64.encode i) = i.
Proof.
  intros Hi.
  assert (H : forallb (fun n => base64.decodeMap (base64.encode (Z.of_nat n))
                                 =? Z.of_nat n) (seq 0 64) = true)
    by (vm_compute; reflexivity).
  rewrite forallb_forall in H.
  specialize (H (Z.to_nat i)).
  rewrite Z2Nat.id in H by lia.
  apply Z.eqb_eq, H, in_seq. lia.
Qed.

Lemma base64_index_range (val sh : Z) : 0 <= Z.land (Z.shiftr val sh) 63 < 64.
Proof. rewrite land_63. apply Z.mod_pos_bound. lia. Qed.

(** Reading one character of the alphabet. *)
Lemma base64_decode_sextet (val sh : Z) (rest : bytes) (dbuf : list Z) :
  base64.decode (base64.sextet val sh :: rest) dbuf =
  let dbuf' := dbuf ++ [Z.land (Z.shiftr val sh) 63] in
  if (List.length dbuf' =? 4)%nat
  then let (tl, err) := base64.decode rest [] in
       (base64.quantum_bytes dbuf' 4 ++ tl, err)
  else base64.decode rest dbuf'.
Proof.
  pose proof (base64_index_range val sh) as Hr.
  unfold base64.sextet. cbn [base64.decode].
  rewrite base64_decodeMap_encode by exact Hr.
  destruct (Z.eqb_spec (Z.land (Z.shiftr val sh) 63) 255) as [E | _]; [lia |].
  reflexivity.
Qed.

(** The arithmetic of one quantum: shifts and masks as products and
    remainders. *)
Ltac base64_pow2 :=
  change (2 ^ 0) with 1 in *; change (2 ^ 6) with 64 in *;
  change (2 ^ 8) with 256 in *; change (2 ^ 12) with 4096 in *;
  change (2 ^ 16) with 65536 in *; change (2 ^ 18) with 262144 in *.

Ltac base64_lor a b n :=
  rewrite (lor_add a b n) by
    (base64_pow2; first [ lia | Z.div_mod_to_equations; lia ]).

Lemma base64_quantum3 (b0 b1 b2 : byte) :
  let val := Z.lor (Z.lor (Z.shiftl (byte_to_Z b0) 16)
                          (Z.shiftl (byte_to_Z b1) 8)) (byte_to_Z b2) in
  base64.quantum_bytes
    [Z.land (Z.shiftr val 18) 63; Z.land (Z.shiftr val 12) 63;
     Z.land (Z.shiftr val 6) 63; Z.land (Z.shiftr val 0) 63] 4
  = [b0; b1; b2].
Proof.
  intros val.
  pose proof (byte_to_Z_range b0) as H0.
  pose proof (byte_to_Z_range b1) as H1.
  pose proof (byte_to_Z_range b2) as H2.
  assert (Hval : val = byte_to_Z b0 * 65536 + byte_to_Z b1 * 256 + byte_to_Z b2).
  { unfold val. rewrite !Z.shiftl_mul_pow2 by lia.
    base64_lor (byte_to_Z b0 * 2 ^ 16) (byte_to_Z b1 * 2 ^ 8) 16.
    base64_lor (byte_to_Z b0 * 2 ^ 16 + byte_to_Z b1 * 2 ^ 8) (byte_to_Z b2) 8.
    base64_pow2. lia. }
  clearbody val.
  unfold base64.quantum_bytes, base64.quantum_val. cbn [nth firstn Nat.sub].
  rewrite !land_63, !Z.shiftr_div_pow2, !Z.shiftl_mul_pow2 by lia.
  match goal with
  | |- context [Z.lor (Z.lor (Z.lor ?a ?b) ?c) ?d] =>
      base64_lor a b 18; base64_lor (a + b) c 12; base64_lor (a + b + c) d 6
  end.
  base64_pow2.
  f_equal; [| f_equal; [| f_equal ]]; apply byte_of_Z_eq;
    Z.div_mod_to_equations; lia.
Qed.

Lemma base64_quantum2 (b0 b1 : byte) :
  let val := Z.lor (Z.shiftl (byte_to_Z b0) 16) (Z.shiftl (byte_to_Z b1) 8) in
  base64.quantum_bytes
    [Z.land (Z.shiftr val 18) 63; Z.land (Z.shiftr val 12) 63;
     Z.land (Z.shiftr val 6) 63] 3
  = [b0; b1].
Proof.
  intros val.
  pose proof (byte_to_Z_range b0) as H0.
  pose proof (byte_to_Z_range b1) as H1.
  assert (Hval : val = byte_to_Z b0 * 65536 + byte_to_Z b1 * 256).
  { unfold val. rewrite !Z.shiftl_mul_pow2 by lia.
    base64_lor (byte_to_Z b0 * 2 ^ 16) (byte_to_Z b1 * 2 ^ 8) 16.
    base64_pow2. lia. }
  clearbody val.
  unfold base64.quantum_bytes, base64.quantum_val. cbn [nth firstn Nat.sub].
  rewrite !land_63, !Z.shiftr_div_pow2, !Z.shiftl_mul_pow2 by lia.
  match goal with
  | |- context [Z.lor (Z.lor (Z.lor ?a ?b) ?c) ?d] =>
      base64_lor a b 18; base64_lor (a + b) c 12; base64_lor (a + b + c) d 6
  end.
  base64_pow2.
  f_equal; [| f_equal ]; apply byte_of_Z_eq; Z.div_mod_to_equations; lia.
Qed.

Lemma base64_quantum1 (b0 : byte) :
  let val := Z.shiftl (byte_to_Z b0) 16 in
  base64.quantum_bytes
    [Z.land (Z.shiftr val 18) 63; Z.land (Z.shiftr val 12) 63] 2
  = [b0].
Proof.
  intros val.
  pose proof (byte_to_Z_range b0) as H0.
  assert (Hval : val = byte_to_Z b0 * 65536).
  { unfold val. rewrite !Z.shiftl_mul_pow2 by lia. base64_pow2. lia. }
  clearbody val.
  unfold base64.quantum_bytes, base64.quantum_val. cbn [nth firstn Nat.sub].
  rewrite !land_63, !Z.shiftr_div_pow2, !Z.shiftl_mul_pow2 by lia.
  match goal with
  | |- context [Z.lor (Z.lor (Z.lor ?a ?b) ?c) ?d] =>
      base64_lor a b 18; base64_lor (a + b) c 12; base64_lor (a + b + c) d 6
  end.
  base64_pow2.
  f_equal; apply byte_of_Z_eq; Z.div_mod_to_equations; lia.
Qed.

(** [DecodeString] inverts [EncodeToString] on every byte sequence. *)
Lemma base64_decode_encode (src : bytes) :
  base64.DecodeString (base64.EncodeToString src) = (src, None).
Proof.
  unfold base64.DecodeString, base64.EncodeToString.
  induction src as [| b0 | b0 b1 | b0 b1 b2 rest IH] using list_ind3.
  - reflexivity.
  - cbn [base64.Encode].
    repeat (rewrite base64_decode_sextet; cbn [app List.length Nat.eqb]).
    change (base64.decode [base64.StdPadding; base64.StdPadding] ?d)
      with (base64.quantum_bytes d 2, @None error).
    rewrite base64_quantum1. reflexivity.
  - cbn [base64.Encode].
    repeat (rewrite base64_decode_sextet; cbn [app List.length Nat.eqb]).
    change (base64.decode [base64.StdPadding] ?d)
      with (base64.quantum_bytes d 3, @None error).
    rewrite base64_quantum2. reflexivity.
  - cbn [base64.Encode].
    repeat (rewrite base64_decode_sextet; cbn [app List.length Nat.eqb]).
    rewrite IH, base64_quantum3. reflexivity.
Qed.

(** ** The shape of base64 text *)

Lemma base64_encode_char (i : Z) :
  0 <= i < 64 -> base64_char (base64.encode i) = true.
Proof.
  intros Hi.
  assert (H : forallb (fun n => base64_char (base64.encode (Z.of_nat n)))
                      (seq 0 64) = true)
    by (vm_compute; reflexivity).
  rewrite forallb_forall in H.
  specialize (H (Z.to_nat i)).
  rewrite Z2Nat.id in H by lia.
  apply H, in_seq. lia.
Qed.

(** What [EncodeToString] writes is made of the sixty-four characters of
    the alphabet and the padding character. *)
Lemma base64_Encode_chars (src : bytes) :
  forallb base64_char (base64.Encode src) = true.
Proof.
  induction src as [| b0 | b0 b1 | b0 b1 b2 rest IH] using list_ind3;
    cbn [base64.Encode forallb]; unfold base64.sextet;
    rewrite ?base64_encode_char by apply base64_index_range;
    [reflexivity | reflexivity | reflexivity | exact IH].
Qed.

(** Four characters for every three bytes, the last group filled up. *)
Lemma base64_Encode_length (src : bytes) :
  Z.of_nat (List.length (base64.Encode src))
  = 4 * ((Z.of_nat (List.length src) + 2) / 3).
Proof.
  induction src as [| b0 | b0 b1 | b0 b1 b2 rest IH] using list_ind3;
    cbn [base64.Encode List.length]; try reflexivity.
  rewrite !Nat2Z.inj_succ, IH.
  Z.div_mod_to_equations. lia.
Qed.

(** ** JSON text made of plain characters *)

Lemma base64_encode_plain (i : Z) : 0 <= i < 64 -> plain (base64.encode i).
Proof.
  intros Hi. unfold plain.
  assert (H : forallb (fun n => json.htmlSafeSet (base64.encode (Z.of_nat n)))
                      (seq 0 64) = true)
    by (vm_compute; reflexivity).
  rewrite forallb_forall in H.
  specialize (H (Z.to_nat i)).
  rewrite Z2Nat.id in H by lia.
  apply H, in_seq. lia.
Qed.

Lemma base64_sextet_plain (val sh : Z) : plain (base64.sextet val sh).
Proof. apply base64_encode_plain, base64_index_range. Qed.

Lemma base64_Encode_plain (src : bytes) : Forall plain (base64.Encode src).
Proof.
  induction src as [| b0 | b0 b1 | b0 b1 b2 rest IH] using list_ind3;
    cbn [base64.Encode];
    repeat (apply Forall_cons; [ first [ apply base64_sextet_plain
                                       | reflexivity ] | ]);
    auto.
Qed.

Lemma plain_ascii (c : byte) : plain c -> (byte_to_Z c <? 128) = true.
Proof. destruct c; vm_compute; congruence. Qed.

Lemma json_escape_plain (s : bytes) :
  Forall plain s -> json.escape s 0 false = s.
Proof.
  induction 1 as [| c r Hc _ IH]; [reflexivity |].
  cbn [json.escape]. rewrite (plain_ascii c Hc).
  unfold plain in Hc. rewrite Hc, IH. reflexivity.
Qed.

Lemma plain_unquote_step (c : byte) :
  plain c ->
  Byte.eqb c backslash = false /\ Byte.eqb c dquote = false
  /\ (byte_to_Z c <? 32) = false /\ (byte_to_Z c <? 128) = true.
Proof. destruct c; vm_compute; intuition congruence. Qed.

Lemma json_unquote_plain (s : bytes) :
  Forall plain s -> json.unquote s 0 false = Some s.
Proof.
  induction 1 as [| c r Hc _ IH]; [reflexivity |].
  destruct (plain_unquote_step c Hc) as (E1 & E2 & E3 & E4).
  cbn [json.unquote]. rewrite E1, E2, E3, E4, IH. reflexivity.
Qed.

Lemma json_scanAll_app (s : json.scanner) (a b : bytes) :
  json.scanAll s (a ++ b) =
  match json.scanAll s a with
  | Some s' => json.scanAll s' b
  | None => None
  end.
Proof.
  revert s. induction a as [| c a IH]; intros s; [reflexivity |].
  cbn [app json.scanAll]. destruct (json.scan s c); auto.
Qed.

(** Inside a string literal, plain characters are collected. *)
Lemma json_scan_plain (str lit : bytes) (ps : list json.frame)
  (t : option json.value) (e : bool) :
  Forall plain str ->
  json.scanAll (json.mkScanner (json.stateInString lit) ps t e) str
  = Some (json.mkScanner (json.stateInString (rev str ++ lit)) ps t e).
Proof.
  intros H. revert lit. induction H as [| c r Hc _ IH]; intros lit.
  - reflexivity.
  - destruct (plain_unquote_step c Hc) as (E1 & E2 & E3 & _).
    cbn [json.scanAll json.scan json.step]. unfold json.stateInString_step.
    rewrite E2, E1, E3. unfold json.with_step. cbn [json.parseState json.top json.err].
    rewrite IH. cbn [rev]. rewrite <- app_assoc. reflexivity.
Qed.

(** A whole string literal of plain characters is read as its text. *)
Lemma json_scan_string (str rest : bytes) (ps : list json.frame)
  (t : option json.value) (e : bool) :
  Forall plain str ->
  json.scanAll (json.mkScanner (json.stateInString []) ps t e)
    (str ++ dquote :: rest)
  = match json.endValue (json.mkScanner (json.stateInString (rev str)) ps t e)
            (json.JString str) with
    | Some s' => json.scanAll s' rest
    | None => None
    end.
Proof.
  intros H. rewrite json_scanAll_app, json_scan_plain by exact H.
  rewrite app_nil_r.
  cbn [json.scanAll json.scan json.step]. unfold json.stateInString_step.
  change (Byte.eqb dquote dquote) with true. cbv iota.
  rewrite rev_involutive, json_unquote_plain by exact H.
  reflexivity.
Qed.

(** ** The blob written by ToBytes *)


Ltac scan_concrete :=
  match goal with
  | |- context [json.scanAll ?s ?p] =>
      let x := eval vm_compute in (json.scanAll s p) in
      change (json.scanAll s p) with x
  end.

Lemma json_parse_blob (L S : bytes) :
  Forall plain L -> Forall plain S ->
  json.parse (blob L S) = Some (blob_value L S).
Proof.
  intros HL HS. unfold json.parse, blob.
  rewrite json_scanAll_app. scan_concrete. cbv iota beta.
  rewrite json_scan_string by exact HL. cbn [json.endValue json.parseState].
  unfold json.with_stack. cbn [json.top json.err].
  rewrite json_scanAll_app. scan_concrete. cbv iota beta.
  rewrite json_scan_string by exact HS. cbn [json.endValue json.parseState].
  unfold json.with_stack. cbn [json.top json.err].
  scan_concrete. reflexivity.
Qed.

Lemma quoted_app (s rest : bytes) :
  (dquote :: s ++ [dquote]) ++ rest = dquote :: s ++ dquote :: rest.
Proof. cbn [app]. rewrite <- app_assoc. reflexivity. Qed.

Lemma Marshal_blob (L S : bytes) :
  Forall plain L -> Forall plain S ->
  fst (activateResponse.Marshal (activateResponse.mk L S 0 [])) = blob L S.
Proof.
  intros HL HS.
  unfold activateResponse.Marshal, blob, json.encodeString.
  cbn [fst activateResponse.LicenseKey activateResponse.Signature
       activateResponse.Result activateResponse.Message].
  rewrite (json_escape_plain L HL), (json_escape_plain S HS).
  rewrite !quoted_app. vm_compute. reflexivity.
Qed.

Lemma ToBytes_blob (lk : LicenseKey.t) :
  fst (LicenseKey.ToBytes lk)
  = blob (base64.EncodeToString (LicenseKey.licenseKeyBytes lk))
         (base64.EncodeToString (LicenseKey.signatureBytes lk)).
Proof. apply Marshal_blob; apply base64_Encode_plain. Qed.

(** Reading a blob as an activation response gives back the two base64
    strings, a zero result and an empty message. *)
Lemma Unmarshal_blob (L S : bytes) :
  Forall plain L -> Forall plain S ->
  json.Unmarshal activateResponse.decoder (blob L S) activateResponse.zero
  = (activateResponse.mk L S 0 [], None).
Proof.
  intros HL HS. unfold json.Unmarshal.
  rewrite json_parse_blob by assumption.
  vm_compute. reflexivity.
Qed.

Lemma parseActivateResponse_encoded (lic sig : bytes) (n : Z) (msg : bytes) :
  parseActivateResponse
    (activateResponse.mk (base64.EncodeToString lic)
                         (base64.EncodeToString sig) n msg)
  = (lic, sig, None).
Proof.
  unfold parseActivateResponse.
  cbn [activateResponse.LicenseKey activateResponse.Signature].
  rewrite !base64_decode_encode. reflexivity.
Qed.

(** Reading back what ToBytes wrote builds the key from the same two
    byte sequences. *)
Lemma KeyFromBytes_ToBytes (lk : LicenseKey.t) :
  KeyFromBytes (fst (LicenseKey.ToBytes lk))
  = buildLicenseKey (LicenseKey.licenseKeyBytes lk)
                    (LicenseKey.signatureBytes lk).
Proof.
  rewrite ToBytes_blob. unfold KeyFromBytes.
  rewrite Unmarshal_blob by apply base64_Encode_plain.
  rewrite parseActivateResponse_encoded. reflexivity.
Qed.

Lemma buildLicenseKey_inv (lic sig : bytes) (lk : LicenseKey.t) :
  buildLicenseKey lic sig = (lk, None) ->
  exists k,
    json.Unmarshal LicenseKey.decoder lic LicenseKey.zero = (k, None)
    /\ lk = LicenseKey.with_bytes k lic sig.
Proof.
  unfold buildLicenseKey.
  destruct (json.Unmarshal LicenseKey.decoder lic LicenseKey.zero) as [k [e |]];
    intros H; inversion H; subst. eauto.
Qed.

Lemma buildLicenseKey_bytes (lic sig : bytes) (lk : LicenseKey.t) :
  buildLicenseKey lic sig = (lk, None) ->
  LicenseKey.licenseKeyBytes lk = lic /\ LicenseKey.signatureBytes lk = sig.
Proof.
  intros H. apply buildLicenseKey_inv in H. destruct H as (k & _ & ->).
  split; reflexivity.
Qed.

Lemma buildLicenseKey_decodable (lic sig : bytes) :
  decodable lic ->
  exists lk, buildLicenseKey lic sig = (lk, None).
Proof.
  unfold decodable, buildLicenseKey.
  destruct (json.Unmarshal LicenseKey.decoder lic LicenseKey.zero) as [k [e |]];
    cbn [snd]; intros H; [discriminate | eauto].
Qed.

(** C1, as stated, is false for the zero LicenseKey: its blob holds two
    empty strings, and the empty license is not a payload. *)
Lemma C1_zero_value_does_not_round_trip : ~ round_trip LicenseKey.zero.
Proof.
  intros (lk' & H & _). rewrite KeyFromBytes_ToBytes in H.
  vm_compute in H. discriminate.
Qed.

(** C1 (amended): for every LicenseKey whose raw license bytes are a
    payload that decodes, as they are for every key returned by
    KeyFromBytes or KeyActivate without an error,
    KeyFromBytes(ToBytes(lk)) succeeds and yields a LicenseKey whose
    licenseKeyBytes and signatureBytes equal those of lk, byte for byte. *)
Theorem C1_round_trip (lk : LicenseKey.t) :
  decodable (LicenseKey.licenseKeyBytes lk) -> round_trip lk.
Proof.
  intros Hd. unfold round_trip. rewrite KeyFromBytes_ToBytes.
  destruct (buildLicenseKey_decodable _ (LicenseKey.signatureBytes lk) Hd)
    as (lk' & H).
  exists lk'. split; [exact H |]. apply buildLicenseKey_bytes, H.
Qed.

Lemma KeyFromBytes_round_trip_exact (lic sig : bytes) (lk : LicenseKey.t) :
  buildLicenseKey lic sig = (lk, None) ->
  KeyFromBytes (fst (LicenseKey.ToBytes lk)) = (lk, None).
Proof.
  intros H. rewrite KeyFromBytes_ToBytes.
  destruct (buildLicenseKey_bytes _ _ _ H) as [-> ->]. exact H.
Qed.

(** ** The scanner on a stream and on a whole input

    Once the top-level value is complete the scanner keeps it, so the
    first value [Decoder.Decode] reads from a valid input is the value
    [Unmarshal] reads. *)

Ltac scan_cases :=
  repeat match goal with
         | H : Some _ = Some _ |- _ => inversion H; subst; clear H
         | H : None = Some _ |- _ => discriminate H
         | H : context [match ?x with _ => _ end] |- _ =>
             let E := fresh "E" in destruct x eqn:E
         end.

Lemma json_scan_settled (s s' : json.scanner) (c : byte) :
  settled s -> json.scan s c = Some s' ->
  settled s' /\ (forall v, json.top s = Some v -> json.top s' = Some v).
Proof.
  destruct s as [st ps t e]. unfold settled. cbn [json.top json.parseState json.step].
  intros Hs H.
  destruct t as [v0 |].
  - destruct Hs as [-> [-> | ->]];
      cbn in H; unfold json.stateEndTop_step, json.with_step in H; cbn in H;
      scan_cases; cbn; intuition.
  - split; [| discriminate].
    unfold json.scan in H. cbn [json.step] in H.
    destruct st;
      unfold json.stateBeginValueOrEmpty_step, json.stateBeginValue_step,
        json.stateBeginStringOrEmpty_step, json.stateBeginString_step,
        json.stateEndValue_step, json.stateEndTop_step,
        json.stateInString_step, json.stateInStringEsc_step,
        json.stateInStringEscU_step, json.stateNeg_step, json.state1_step,
        json.state0_step, json.stateDot_step, json.stateDot0_step,
        json.stateE_step, json.stateESign_step, json.stateE0_step,
        json.stateLiteral_step, json.endNumber, json.stateEndValue_step,
        json.stateEndTop_step, json.popParseState, json.pushParseState,
        json.endValue, json.with_step, json.with_stack in H;
      cbn [json.top json.parseState json.step json.err] in H;
      scan_cases; cbn [json.top json.parseState json.step json.err];
      auto.
  all: cbn [json.top json.parseState json.step json.err] in *; congruence.
Qed.

Lemma json_scanAll_settled (data : bytes) (s s' : json.scanner) :
  settled s -> json.scanAll s data = Some s' ->
  settled s' /\ (forall v, json.top s = Some v -> json.top s' = Some v).
Proof.
  revert s. induction data as [| c r IH]; intros s Hs H; cbn [json.scanAll] in H.
  - inversion H; subst. auto.
  - destruct (json.scan s c) as [s1 |] eqn:E; [| discriminate].
    destruct (json_scan_settled _ _ _ Hs E) as [Hs1 Ht1].
    destruct (IH _ Hs1 H) as [Hs' Ht']. auto.
Qed.

Lemma json_eof_top (s : json.scanner) (v v0 : json.value) :
  settled s -> json.eof s = Some v -> json.top s = Some v0 -> v0 = v.
Proof.
  intros Hs H Ht. unfold json.eof in H.
  destruct (json.err s); [discriminate |].
  assert (Hscan : forall s', json.scan s (" "%byte) = Some s' ->
                             json.top s' = Some v -> v0 = v).
  { intros s' E Ht'. destruct (json_scan_settled _ _ _ Hs E) as [_ Hk].
    rewrite (Hk _ Ht) in Ht'. congruence. }
  destruct (json.step s); try congruence;
    destruct (json.scan s " "%byte) as [s' |]; try discriminate;
    destruct (json.step s'); try discriminate;
    destruct (json.err s'); try discriminate; eauto.
Qed.

Lemma json_readValue_scanAll (data : bytes) (s sf : json.scanner) (v : json.value) :
  settled s -> json.scanAll s data = Some sf -> json.eof sf = Some v ->
  json.readValue s data = (Some v, None).
Proof.
  revert s. induction data as [| c r IH]; intros s Hs H He.
  - cbn [json.scanAll] in H. inversion H; subst sf; clear H.
    cbn [json.readValue].
    destruct (json.top s) as [v0 |] eqn:Ht.
    + rewrite (json_eof_top _ _ _ Hs He Ht). reflexivity.
    + unfold json.eof in He. destruct (json.err s); [discriminate |].
      destruct (json.step s); try congruence;
        destruct (json.scan s " "%byte) as [s' |]; try discriminate;
        destruct (json.step s'); try discriminate;
        destruct (json.err s'); try discriminate;
        rewrite He; reflexivity.
  - cbn [json.readValue].
    destruct (json.top s) as [v0 |] eqn:Ht.
    + destruct (json_scanAll_settled _ _ _ Hs H) as [Hsf Hk].
      rewrite (json_eof_top _ _ _ Hsf He (Hk _ Ht)). reflexivity.
    + cbn [json.scanAll] in H.
      destruct (json.scan s c) as [s1 |] eqn:E; [| discriminate].
      destruct (json_scan_settled _ _ _ Hs E) as [Hs1 _].
      apply (IH _ Hs1 H He).
Qed.

(** A valid input, read as a stream, gives its value. *)
Lemma json_parse_readValue (data : bytes) (v : json.value) :
  json.parse data = Some v -> json.readValue json.reset data = (Some v, None).
Proof.
  unfold json.parse. intros H.
  destruct (json.scanAll json.reset data) as [sf |] eqn:E; [| discriminate].
  apply (json_readValue_scanAll _ _ sf); auto. exact I.
Qed.

Lemma json_parse_Decode (T : Type) (dec : json.decoder T) (data : bytes)
  (cur : T) (v : json.value) :
  json.parse data = Some v ->
  json.Decode dec data cur = json.Unmarshal dec data cur.
Proof.
  intros H. unfold json.Decode, json.Unmarshal.
  rewrite (json_parse_readValue _ _ H), H. reflexivity.
Qed.

(** ** The activation path *)
(** A valid response body is handled as KeyFromBytes handles a blob. *)
Lemma KeyActivate_valid_body (body token : bytes) (args : KeyActivateArguments.t)
  (v : json.value) :
  json.parse body = Some v ->
  KeyActivate (answers body) token args = KeyFromBytes body.
Proof.
  intros H. unfold KeyActivate, makeActivateRequest, KeyFromBytes, answers.
  rewrite (json_parse_Decode _ _ _ _ _ H).
  destruct (json.Unmarshal activateResponse.decoder body activateResponse.zero)
    as [r [e |]]; reflexivity.
Qed.

(** ** C6 and C10: the blob *)

(** C6: for every LicenseKey, the blob written by ToBytes is the text of
    an object with the four members of the activation response, in its
    order: licenseKey and signature hold the base64 encodings of the raw
    license and signature bytes, result is 0 and message is the empty
    string; read as an activation response, on the offline and on the
    activation path, it gives these four fields.  The two strings are
    base64 as RFC 4648 defines it: decoding gives the raw bytes back,
    they are made of the alphabet and the padding character, they hold
    four characters for every three bytes begun, and the encoding gives
    the texts of the standard for its test strings. *)
Theorem C6_ToBytes_shape (lk : LicenseKey.t) :
  let L := base64.EncodeToString (LicenseKey.licenseKeyBytes lk) in
  let S := base64.EncodeToString (LicenseKey.signatureBytes lk) in
  let blob_bytes := fst (LicenseKey.ToBytes lk) in
  blob_bytes
  = J "{'licenseKey':'" ++ L ++ J "','signature':'" ++ S
      ++ J "','result':0,'message':''}"
  /\ json.parse blob_bytes
     = Some (json.JObject
               [(B "licenseKey", json.JString L);
                (B "signature", json.JString S);
                (B "result", json.JNumber (B "0"));
                (B "message", json.JString [])])
  /\ json.Unmarshal activateResponse.decoder blob_bytes activateResponse.zero
     = ({| activateResponse.LicenseKey := L;
           activateResponse.Signature := S;
           activateResponse.Result := 0;
           activateResponse.Message := [] |}, None)
  /\ json.Decode activateResponse.decoder blob_bytes activateResponse.zero
     = ({| activateResponse.LicenseKey := L;
           activateResponse.Signature := S;
           activateResponse.Result := 0;
           activateResponse.Message := [] |}, None)
  /\ base64.DecodeString L = (LicenseKey.licenseKeyBytes lk, None)
  /\ base64.DecodeString S = (LicenseKey.signatureBytes lk, None)
  /\ forallb base64_char L = true
  /\ forallb base64_char S = true
  /\ Z.of_nat (List.length L)
     = 4 * ((Z.of_nat (List.length (LicenseKey.licenseKeyBytes lk)) + 2) / 3)
  /\ Z.of_nat (List.length S)
     = 4 * ((Z.of_nat (List.length (LicenseKey.signatureBytes lk)) + 2) / 3)
  /\ map base64.EncodeToString
       [B "f"; B "fo"; B "foo"; B "foob"; B "fooba"; B "foobar"]
     = [B "Zg=="; B "Zm8="; B "Zm9v"; B "Zm9vYg=="; B "Zm9vYmE="; B "Zm9vYmFy"].
Proof.
  intros L S blob_bytes.
  assert (HL : Forall plain L) by apply base64_Encode_plain.
  assert (HS : Forall plain S) by apply base64_Encode_plain.
  assert (E : blob_bytes = blob L S) by apply ToBytes_blob.
  assert (P : json.parse blob_bytes = Some (blob_value L S))
    by (rewrite E; apply json_parse_blob; assumption).
  split; [rewrite E; reflexivity |].
  split; [exact P |].
  split; [rewrite E; apply Unmarshal_blob; assumption |].
  split.
  { rewrite (json_parse_Decode _ _ _ _ _ P), E.
    apply Unmarshal_blob; assumption. }
  split; [apply base64_decode_encode |].
  split; [apply base64_decode_encode |].
  split; [apply base64_Encode_chars |].
  split; [apply base64_Encode_chars |].
  split; [apply base64_Encode_length |].
  split; [apply base64_Encode_length |].
  vm_compute. reflexivity.
Qed.

(** C10: ToBytes never fails: for every LicenseKey its error result is
    nil and the blob is well-formed JSON; so it is for the zero
    LicenseKey, whose raw byte slices are nil. *)
Theorem C10_ToBytes_total (lk : LicenseKey.t) :
  snd (LicenseKey.ToBytes lk) = None
  /\ (exists v, json.parse (fst (LicenseKey.ToBytes lk)) = Some v)
  /\ LicenseKey.ToBytes LicenseKey.zero
     = (J "{'licenseKey':'','signature':'','result':0,'message':''}", None).
Proof.
  split; [reflexivity |]. split; [| reflexivity].
  rewrite ToBytes_blob. eexists.
  apply json_parse_blob; apply base64_Encode_plain.
Qed.

(** ** Fields and the members that select them *)

Lemma json_field_absent (T : Type) (names : list bytes) (name : bytes)
  (dec : json.decoder T) (ms : list (bytes * json.value)) (cur : T) :
  existsb (fun m => json.selects names (fst m) name) ms = false ->
  json.field names name dec ms cur = (cur, None).
Proof.
  unfold json.field. generalize (cur, @None error) as acc.
  induction ms as [| m ms IH]; intros acc H; [reflexivity |].
  cbn [existsb] in H. apply orb_false_iff in H. destruct H as [Hm Hms].
  cbn [fold_left]. rewrite Hm. apply IH, Hms.
Qed.

Lemma buildLicenseKey_empty (sig : bytes) :
  buildLicenseKey [] sig = (LicenseKey.zero, Some json_SyntaxError).
Proof. reflexivity. Qed.

Lemma json_field_errors (T : Type) (names : list bytes) (name : bytes)
  (dec : json.decoder T) (ms : list (bytes * json.value)) (cur : T) :
  (forall v x, type_error_or_none (snd (dec v x))) ->
  type_error_or_none (snd (json.field names name dec ms cur)).
Proof.
  intros Hdec. unfold json.field.
  assert (H0 : type_error_or_none (snd (cur, @None error))) by (left; reflexivity).
  revert H0. generalize (cur, @None error) as acc.
  induction ms as [| m ms IH]; intros acc Hacc; [exact Hacc |].
  cbn [fold_left]. apply IH.
  destruct (json.selects names (fst m) name); [| exact Hacc].
  specialize (Hdec (snd m) (fst acc)).
  destruct (dec (snd m) (fst acc)) as [x e]. cbn [snd] in *.
  destruct Hacc as [-> | ->]; cbn [json.first_error]; auto.
  right; reflexivity.
Qed.

Lemma decode_string_errors (v : json.value) (x : bytes) :
  type_error_or_none (snd (json.decode_string v x)).
Proof. destruct v; cbn; unfold type_error_or_none; auto. Qed.

Lemma decode_bool_errors (v : json.value) (x : bool) :
  type_error_or_none (snd (json.decode_bool v x)).
Proof. destruct v; cbn; unfold type_error_or_none; auto. Qed.

Lemma decode_int64_errors (v : json.value) (x : Z) :
  type_error_or_none (snd (json.decode_int64 v x)).
Proof.
  destruct v; cbn; unfold type_error_or_none; auto.
  destruct (strconv.ParseInt lit); cbn; auto.
Qed.

Lemma first_error_type (a b : option error) :
  type_error_or_none a -> type_error_or_none b ->
  type_error_or_none (json.first_error a b).
Proof. intros [-> | ->] Hb; cbn; auto. right; reflexivity. Qed.

(** Without the licenseKey and signature members the conversion fails:
    the license bytes are empty, and the empty input is not JSON. *)
Lemma KeyFromBytes_fields_absent (b : bytes) (v : json.value) :
  json.parse b = Some v ->
  has_member activateResponse.names (B "licenseKey") v = false ->
  has_member activateResponse.names (B "signature") v = false ->
  KeyFromBytes b = (LicenseKey.zero, Some json_SyntaxError)
  \/ KeyFromBytes b = (LicenseKey.zero, Some json_UnmarshalTypeError).
Proof.
  intros Hp HL HS. unfold KeyFromBytes, json.Unmarshal. rewrite Hp.
  destruct v as [| bo | lit | s | es | ms];
    try (right; reflexivity); try (left; reflexivity).
  cbn [has_member] in HL, HS.
  unfold activateResponse.decoder.
  rewrite (json_field_absent _ _ _ _ _ _ HL), (json_field_absent _ _ _ _ _ _ HS).
  pose proof (json_field_errors _ activateResponse.names (B "result")
                json.decode_int ms 0 decode_int64_errors) as H2.
  pose proof (json_field_errors _ activateResponse.names (B "message")
                json.decode_string ms [] decode_string_errors) as H3.
  cbn [activateResponse.LicenseKey activateResponse.Signature
       activateResponse.Result activateResponse.Message activateResponse.zero].
  destruct (json.field activateResponse.names (B "result") _ _ _) as [rs e2].
  destruct (json.field activateResponse.names (B "message") _ _ _) as [msg e3].
  cbn [snd] in H2, H3. cbn [json.first_of json.first_error].
  destruct H2 as [-> | ->]; [| right; reflexivity].
  destruct H3 as [-> | ->]; [| right; reflexivity].
  left. reflexivity.
Qed.

(** ** C5: the expected fields are absent *)

(** C5: for every input that is valid JSON and has no licenseKey and no
    signature member, the conversion into a LicenseKey fails, on the
    offline path (KeyFromBytes) and on the activation path (KeyActivate
    with that input as the response body): the error is not nil, it is
    an error of encoding/json, and the LicenseKey returned with it is the
    zero value. *)
Theorem C5_absent_fields_fail (b : bytes) (v : json.value) :
  json.parse b = Some v ->
  has_member activateResponse.names (B "licenseKey") v = false ->
  has_member activateResponse.names (B "signature") v = false ->
  (exists e, KeyFromBytes b = (LicenseKey.zero, Some e)
             /\ (e = json_SyntaxError \/ e = json_UnmarshalTypeError))
  /\ (forall token args,
        exists e, KeyActivate (answers b) token args = (LicenseKey.zero, Some e)
                  /\ (e = json_SyntaxError \/ e = json_UnmarshalTypeError)).
Proof.
  intros Hp HL HS.
  assert (H : exists e, KeyFromBytes b = (LicenseKey.zero, Some e)
                        /\ (e = json_SyntaxError \/ e = json_UnmarshalTypeError)).
  { destruct (KeyFromBytes_fields_absent b v Hp HL HS) as [E | E];
      rewrite E; eauto. }
  split; [exact H |].
  intros token args. rewrite (KeyActivate_valid_body _ _ _ _ Hp). exact H.
Qed.

Lemma C5_absent_fields_fail_witness :
  let b := J "{'result':3,'message':'Device limit reached'}" in
  let v := json.JObject [(B "result", json.JNumber (B "3"));
                         (B "message", json.JString (B "Device limit reached"))] in
  json.parse b = Some v
  /\ (exists e, KeyFromBytes b = (LicenseKey.zero, Some e)
                /\ (e = json_SyntaxError \/ e = json_UnmarshalTypeError)).
Proof.
  split; [vm_compute; reflexivity |].
  apply (C5_absent_fields_fail
           (J "{'result':3,'message':'Device limit reached'}")
           (json.JObject [(B "result", json.JNumber (B "3"));
                          (B "message", json.JString (B "Device limit reached"))]));
    vm_compute; reflexivity.
Defined.

(** ** C4: the result and message fields *)

(** A field has the same content after two member lists whose members
    agree wherever they select it. *)
Lemma json_field_ext (T : Type) (names : list bytes) (name : bytes)
  (dec : json.decoder T) (ms1 ms2 : list (bytes * json.value)) (cur : T) :
  Forall2 (fun m1 m2 =>
             fst m1 = fst m2
             /\ (json.selects names (fst m1) name = true -> snd m1 = snd m2))
          ms1 ms2 ->
  json.field names name dec ms1 cur = json.field names name dec ms2 cur.
Proof.
  unfold json.field. intros H. generalize (cur, @None error) as acc.
  induction H as [| m1 m2 r1 r2 [Hk Hv] _ IH]; intros acc; [reflexivity |].
  cbn [fold_left]. rewrite <- Hk.
  destruct (json.selects names (fst m1) name) eqn:E.
  - rewrite <- (Hv eq_refl). apply IH.
  - apply IH.
Qed.

(** A field reports the same error after two member lists whose members
    decode with the same error wherever they select it. *)
Lemma json_field_error_ext (T : Type) (names : list bytes) (name : bytes)
  (dec : json.decoder T) (ms1 ms2 : list (bytes * json.value)) (cur1 cur2 : T) :
  Forall2 (fun m1 m2 =>
             fst m1 = fst m2
             /\ (json.selects names (fst m1) name = true ->
                 forall x y, snd (dec (snd m1) x) = snd (dec (snd m2) y)))
          ms1 ms2 ->
  snd (json.field names name dec ms1 cur1)
  = snd (json.field names name dec ms2 cur2).
Proof.
  unfold json.field. intros H.
  assert (H0 : snd (cur1, @None error) = snd (cur2, @None error)) by reflexivity.
  revert H0. generalize (cur1, @None error) as a1. generalize (cur2, @None error) as a2.
  intros a2 a1 H0. revert a1 a2 H0.
  induction H as [| m1 m2 r1 r2 [Hk Hv] _ IH]; intros a1 a2 H0; [exact H0 |].
  cbn [fold_left]. rewrite <- Hk. apply IH.
  destruct (json.selects names (fst m1) name) eqn:E; [| exact H0].
  specialize (Hv eq_refl (fst a1) (fst a2)).
  destruct (dec (snd m1) (fst a1)) as [x1 e1].
  destruct (dec (snd m2) (fst a2)) as [x2 e2].
  cbn [snd] in *. congruence.
Qed.

Lemma selects_one_name (names : list bytes) (key n1 n2 : bytes) :
  json.selects names key n1 = true -> json.selects names key n2 = true ->
  n1 = n2.
Proof.
  unfold json.selects, bytes_eqb.
  destruct (json.fieldName names key) as [n |]; [| discriminate].
  destruct (list_eq_dec Byte.byte_eq_dec n n1), (list_eq_dec Byte.byte_eq_dec n n2);
    congruence.
Qed.

Lemma decode_int_error_value (v : json.value) (x : Z) :
  snd (json.decode_int v x) = if int_value v then None else Some json_UnmarshalTypeError.
Proof.
  destruct v; cbn; try reflexivity.
  destruct (strconv.ParseInt lit); reflexivity.
Qed.

Lemma decode_string_error_value (v : json.value) (x : bytes) :
  snd (json.decode_string v x)
  = if string_value v then None else Some json_UnmarshalTypeError.
Proof. destruct v; reflexivity. Qed.

(** What KeyFromBytes does with a decoded response uses its licenseKey
    and signature fields and the error of the decoding, nothing else. *)
Lemma KeyFromBytes_uses (b : bytes) :
  KeyFromBytes b =
  let (r, err) :=
    json.Unmarshal activateResponse.decoder b activateResponse.zero in
  match err with
  | Some e => (LicenseKey.zero, Some e)
  | None =>
      let '(licenseKeyBytes, signatureBytes, err) :=
        parseActivateResponse
          (activateResponse.mk (activateResponse.LicenseKey r)
                               (activateResponse.Signature r) 0 []) in
      match err with
      | Some e => (LicenseKey.zero, Some e)
      | None => buildLicenseKey licenseKeyBytes signatureBytes
      end
  end.
Proof. reflexivity. Qed.

Lemma decoder_same_except_typed (v1 v2 : json.value) :
  same_except_typed_result_message v1 v2 ->
  let (r1, e1) := activateResponse.decoder v1 activateResponse.zero in
  let (r2, e2) := activateResponse.decoder v2 activateResponse.zero in
  activateResponse.LicenseKey r1 = activateResponse.LicenseKey r2
  /\ activateResponse.Signature r1 = activateResponse.Signature r2
  /\ e1 = e2.
Proof.
  intros H.
  destruct v1 as [| b1 | l1 | s1 | es1 | ms1], v2 as [| b2 | l2 | s2 | es2 | ms2];
    cbn [same_except_typed_result_message] in H; try discriminate H;
    try (inversion H; subst; cbn; auto; fail).
  unfold activateResponse.decoder.
  assert (HL : json.field activateResponse.names (B "licenseKey")
                 json.decode_string ms1 []
               = json.field activateResponse.names (B "licenseKey")
                   json.decode_string ms2 []).
  { apply json_field_ext. eapply Forall2_impl; [| exact H].
    intros m1 m2 [Hk Hv]. split; [exact Hk |]. intros Hsel.
    destruct Hv as [Hv | [[Hr _] | [Hm _]]]; [exact Hv | |].
    - pose proof (selects_one_name _ _ _ _ Hsel Hr) as E. vm_compute in E. discriminate E.
    - pose proof (selects_one_name _ _ _ _ Hsel Hm) as E. vm_compute in E. discriminate E. }
  assert (HS : json.field activateResponse.names (B "signature")
                 json.decode_string ms1 []
               = json.field activateResponse.names (B "signature")
                   json.decode_string ms2 []).
  { apply json_field_ext. eapply Forall2_impl; [| exact H].
    intros m1 m2 [Hk Hv]. split; [exact Hk |]. intros Hsel.
    destruct Hv as [Hv | [[Hr _] | [Hm _]]]; [exact Hv | |].
    - pose proof (selects_one_name _ _ _ _ Hsel Hr) as E. vm_compute in E. discriminate E.
    - pose proof (selects_one_name _ _ _ _ Hsel Hm) as E. vm_compute in E. discriminate E. }
  assert (HR : snd (json.field activateResponse.names (B "result")
                      json.decode_int ms1 0)
               = snd (json.field activateResponse.names (B "result")
                        json.decode_int ms2 0)).
  { apply json_field_error_ext. eapply Forall2_impl; [| exact H].
    intros m1 m2 [Hk Hv]. split; [exact Hk |]. intros Hsel x y.
    rewrite !decode_int_error_value.
    destruct Hv as [Hv | [(_ & -> & ->) | (Hm & _ & _)]];
      [rewrite Hv; reflexivity | reflexivity |].
    pose proof (selects_one_name _ _ _ _ Hsel Hm) as E. vm_compute in E. discriminate E. }
  assert (HM : snd (json.field activateResponse.names (B "message")
                      json.decode_string ms1 [])
               = snd (json.field activateResponse.names (B "message")
                        json.decode_string ms2 [])).
  { apply json_field_error_ext. eapply Forall2_impl; [| exact H].
    intros m1 m2 [Hk Hv]. split; [exact Hk |]. intros Hsel x y.
    rewrite !decode_string_error_value.
    destruct Hv as [Hv | [(Hr & _ & _) | (_ & -> & ->)]];
      [rewrite Hv; reflexivity | | reflexivity].
    pose proof (selects_one_name _ _ _ _ Hsel Hr) as E. vm_compute in E. discriminate E. }
  cbn [activateResponse.LicenseKey activateResponse.Signature
       activateResponse.Result activateResponse.Message activateResponse.zero].
  rewrite HL, HS.
  destruct (json.field activateResponse.names (B "licenseKey") _ ms2 _) as [lk e0].
  destruct (json.field activateResponse.names (B "signature") _ ms2 _) as [sg e1].
  destruct (json.field activateResponse.names (B "result") _ ms1 _) as [rs1 e2].
  destruct (json.field activateResponse.names (B "result") _ ms2 _) as [rs2 e2'].
  destruct (json.field activateResponse.names (B "message") _ ms1 _) as [mg1 e3].
  destruct (json.field activateResponse.names (B "message") _ ms2 _) as [mg2 e3'].
  cbn [snd] in HR, HM. subst e2' e3'.
  cbn [activateResponse.LicenseKey activateResponse.Signature]. auto.
Qed.

Lemma KeyFromBytes_same_except_typed (b1 b2 : bytes) (v1 v2 : json.value) :
  json.parse b1 = Some v1 -> json.parse b2 = Some v2 ->
  same_except_typed_result_message v1 v2 ->
  KeyFromBytes b1 = KeyFromBytes b2.
Proof.
  intros H1 H2 H. rewrite !KeyFromBytes_uses. unfold json.Unmarshal.
  rewrite H1, H2.
  pose proof (decoder_same_except_typed v1 v2 H) as D.
  destruct (activateResponse.decoder v1 activateResponse.zero) as [r1 e1].
  destruct (activateResponse.decoder v2 activateResponse.zero) as [r2 e2].
  destruct D as (-> & -> & ->). reflexivity.
Qed.

(** C4, as stated, is false: a result field that holds a string is a
    type error for the decoder, and the conversion fails where it
    succeeds with the integer. *)
Lemma C4_result_value_changes_outcome :
  let b1 := J "{'licenseKey':'e30=','signature':'','result':0,'message':''}" in
  let b2 := J "{'licenseKey':'e30=','signature':'','result':'0','message':''}" in
  exists v1 v2,
    json.parse b1 = Some v1 /\ json.parse b2 = Some v2
    /\ same_except_result_message v1 v2
    /\ snd (KeyFromBytes b1) = None
    /\ snd (KeyFromBytes b2) = Some json_UnmarshalTypeError
    /\ KeyFromBytes b1 <> KeyFromBytes b2.
Proof.
  intros b1 b2.
  exists (json.JObject [(B "licenseKey", json.JString (B "e30="));
                        (B "signature", json.JString []);
                        (B "result", json.JNumber (B "0"));
                        (B "message", json.JString [])]).
  exists (json.JObject [(B "licenseKey", json.JString (B "e30="));
                        (B "signature", json.JString []);
                        (B "result", json.JString (B "0"));
                        (B "message", json.JString [])]).
  split; [vm_compute; reflexivity |].
  split; [vm_compute; reflexivity |].
  split.
  { cbn [same_except_result_message].
    repeat (apply Forall2_cons || apply Forall2_nil);
      (split; [reflexivity |]);
      first [ left; reflexivity | right; left; vm_compute; reflexivity ]. }
  split; [vm_compute; reflexivity |].
  split; [vm_compute; reflexivity |].
  intros E. apply (f_equal snd) in E. vm_compute in E. discriminate E.
Qed.

(** C4 (amended): for any two valid inputs that are identical except in
    the values of their result and message fields, where result holds an
    integer that fits an int (or null) and message a string (or null),
    KeyFromBytes gives identical outcomes, the same LicenseKey on success
    and the same error on failure, and so does KeyActivate on the two
    inputs as response bodies; the values of result and message are
    decoded and never read. *)
Theorem C4_result_message_ignored (b1 b2 : bytes) (v1 v2 : json.value) :
  json.parse b1 = Some v1 -> json.parse b2 = Some v2 ->
  same_except_typed_result_message v1 v2 ->
  KeyFromBytes b1 = KeyFromBytes b2
  /\ (forall token args,
        KeyActivate (answers b1) token args
        = KeyActivate (answers b2) token args).
Proof.
  intros H1 H2 H.
  pose proof (KeyFromBytes_same_except_typed _ _ _ _ H1 H2 H) as E.
  split; [exact E |].
  intros token args.
  rewrite (KeyActivate_valid_body _ _ _ _ H1), (KeyActivate_valid_body _ _ _ _ H2).
  exact E.
Qed.

Lemma C4_result_message_ignored_witness :
  let b1 := J "{'licenseKey':'e30=','signature':'','result':0,'message':''}" in
  let b2 := J "{'licenseKey':'e30=','signature':'','result':5,'message':'Too many machines'}" in
  let v1 := json.JObject [(B "licenseKey", json.JString (B "e30="));
                          (B "signature", json.JString []);
                          (B "result", json.JNumber (B "0"));
                          (B "message", json.JString [])] in
  let v2 := json.JObject [(B "licenseKey", json.JString (B "e30="));
                          (B "signature", json.JString []);
                          (B "result", json.JNumber (B "5"));
                          (B "message", json.JString (B "Too many machines"))] in
  json.parse b1 = Some v1 /\ json.parse b2 = Some v2
  /\ same_except_typed_result_message v1 v2
  /\ KeyFromBytes b1 = KeyFromBytes b2.
Proof.
  intros b1 b2 v1 v2.
  assert (H1 : json.parse b1 = Some v1) by (vm_compute; reflexivity).
  assert (H2 : json.parse b2 = Some v2) by (vm_compute; reflexivity).
  assert (H : same_except_typed_result_message v1 v2).
  { cbn [same_except_typed_result_message v1 v2].
    repeat (apply Forall2_cons || apply Forall2_nil);
      (split; [reflexivity |]);
      first [ left; reflexivity
            | right; left; vm_compute; repeat split; reflexivity
            | right; right; vm_compute; repeat split; reflexivity ]. }
  split; [exact H1 |]. split; [exact H2 |]. split; [exact H |].
  exact (proj1 (C4_result_message_ignored b1 b2 v1 v2 H1 H2 H)).
Defined.

(** ** The license payload *)

Lemma first_error_None (a b : option error) :
  json.first_error a b = None -> a = None /\ b = None.
Proof. destruct a; cbn; [discriminate | auto]. Qed.

Lemma LicenseKey_temp_decoder_fields (v : json.value) (temp : LicenseKey.temp.t)
  (e : option error) :
  LicenseKey.temp.decoder v LicenseKey.temp.zero = (temp, e) ->
  LicenseKey.temp.AllowedMachines temp
  = payload (B "AllowedMachines") json.decode_string [] v
  /\ LicenseKey.temp.Created temp = payload (B "Created") json.decode_int64 0 v
  /\ LicenseKey.temp.Expires temp = payload (B "Expires") json.decode_int64 0 v
  /\ LicenseKey.temp.SignDate temp = payload (B "SignDate") json.decode_int64 0 v
  /\ LicenseKey.temp.Customer temp
     = payload (B "Customer") Customer.decoder Customer.zero v
  /\ LicenseKey.temp.ActivatedMachines temp
     = payload (B "ActivatedMachines")
         (json.decode_slice ActivationData.zero ActivationData.decoder) [] v.
Proof.
  destruct v; unfold payload; cbn [LicenseKey.temp.decoder payload_in];
    intros H; inversion H; subst; clear H;
    cbn [LicenseKey.temp.AllowedMachines LicenseKey.temp.Created
         LicenseKey.temp.Expires LicenseKey.temp.SignDate
         LicenseKey.temp.Customer LicenseKey.temp.ActivatedMachines
         LicenseKey.temp.zero];
    repeat split; reflexivity.
Qed.

Lemma LicenseKey_temp_decoder_errors (v : json.value) (temp : LicenseKey.temp.t) :
  LicenseKey.temp.decoder v LicenseKey.temp.zero = (temp, None) ->
  payload_error (B "Customer") Customer.decoder Customer.zero v = None
  /\ payload_error (B "ActivatedMachines")
       (json.decode_slice ActivationData.zero ActivationData.decoder) [] v = None.
Proof.
  destruct v; cbn [LicenseKey.temp.decoder payload_error];
    intros H; try (split; reflexivity).
  injection H as _ He. cbn [json.first_of] in He.
  repeat match type of He with
         | json.first_error _ _ = None =>
             let Ha := fresh "Ha" in
             apply first_error_None in He; destruct He as [Ha He]
         end.
  cbn [LicenseKey.temp.Customer LicenseKey.temp.ActivatedMachines
       LicenseKey.temp.zero] in *.
  split; assumption.
Qed.

Lemma LicenseKey_UnmarshalJSON_fields (k0 k : LicenseKey.t) (v : json.value) :
  LicenseKey.UnmarshalJSON k0 v = (k, None) ->
  LicenseKey.AllowedMachines k
  = strings.Split (payload (B "AllowedMachines") json.decode_string [] v) [x0a]
  /\ LicenseKey.Created k
     = time.Unix (payload (B "Created") json.decode_int64 0 v) 0
  /\ LicenseKey.Expires k
     = time.Unix (payload (B "Expires") json.decode_int64 0 v) 0
  /\ LicenseKey.SignDate k
     = time.Unix (payload (B "SignDate") json.decode_int64 0 v) 0
  /\ LicenseKey.Customer k
     = payload (B "Customer") Customer.decoder Customer.zero v
  /\ LicenseKey.ActivatedMachines k
     = payload (B "ActivatedMachines")
         (json.decode_slice ActivationData.zero ActivationData.decoder) [] v.
Proof.
  unfold LicenseKey.UnmarshalJSON.
  destruct (LicenseKey.temp.decoder v LicenseKey.temp.zero) as [temp [e |]] eqn:E;
    intros H; inversion H; subst; clear H.
  destruct (LicenseKey_temp_decoder_fields _ _ _ E) as (-> & -> & -> & -> & -> & ->).
  cbn [LicenseKey.AllowedMachines LicenseKey.Created LicenseKey.Expires
       LicenseKey.SignDate LicenseKey.Customer LicenseKey.ActivatedMachines].
  repeat split; reflexivity.
Qed.

Lemma buildLicenseKey_payload (b sig : bytes) (lk : LicenseKey.t) :
  buildLicenseKey b sig = (lk, None) ->
  exists v k,
    json.parse b = Some v
    /\ LicenseKey.UnmarshalJSON LicenseKey.zero v = (k, None)
    /\ lk = LicenseKey.with_bytes k b sig.
Proof.
  intros H. apply buildLicenseKey_inv in H. destruct H as (k & H & ->).
  unfold json.Unmarshal in H.
  destruct (json.parse b) as [v |]; [| discriminate].
  exists v, k. auto.
Qed.

(** The content of a field is the value of the last member that selects
    it, where that value decodes whatever the field holds. *)
Lemma json_field_last (T : Type) (names : list bytes) (name : bytes)
  (dec : json.decoder T) (ms1 ms2 : list (bytes * json.value)) (key : bytes)
  (x : json.value) (y cur : T) :
  json.selects names key name = true ->
  existsb (fun m => json.selects names (fst m) name) ms2 = false ->
  (forall c, fst (dec x c) = y) ->
  fst (json.field names name dec (ms1 ++ (key, x) :: ms2) cur) = y.
Proof.
  intros Hsel Hlater Hdec. unfold json.field.
  rewrite fold_left_app. cbn [fold_left fst snd]. rewrite Hsel.
  match goal with
  | |- context [fold_left ?f ms1 ?a] => generalize (fold_left f ms1 a)
  end.
  intros acc. specialize (Hdec (fst acc)).
  destruct (dec x (fst acc)) as [y' e]. cbn [fst] in Hdec. subst y'.
  generalize (json.first_error (snd acc) e) as e'. intros e'.
  assert (G : forall a,
             fold_left
               (fun acc0 m =>
                  if json.selects names (fst m) name
                  then let (x0, e0) := dec (snd m) (fst acc0) in
                       (x0, json.first_error (snd acc0) e0)
                  else acc0) ms2 a = a).
  { induction ms2 as [| m r IH]; intros a; [reflexivity |].
    cbn [existsb] in Hlater. apply orb_false_iff in Hlater.
    destruct Hlater as [Hm Hr]. cbn [fold_left]. rewrite Hm. apply IH, Hr. }
  rewrite G. reflexivity.
Qed.

(** ** strings.Split *)

Lemma strings_split_nonempty (s sep cur : bytes) (skip : nat) :
  strings.split s sep cur skip <> [].
Proof.
  revert cur skip. induction s as [| c r IH]; intros cur skip; cbn [strings.split].
  - discriminate.
  - destruct skip; [| apply IH].
    destruct (strings.HasPrefix (c :: r) sep); [discriminate | apply IH].
Qed.

Lemma strings_Split_nonempty (s sep : bytes) :
  sep <> [] -> strings.Split s sep <> [].
Proof.
  intros H. unfold strings.Split. destruct sep; [congruence |].
  apply strings_split_nonempty.
Qed.

Lemma length_nonempty (A : Type) (l : list A) : l <> [] -> (1 <= List.length l)%nat.
Proof. destruct l; [congruence | cbn; lia]. Qed.

(** Splitting on the newline, one character at a time. *)
Lemma strings_split_newline (c : byte) (r cur : bytes) :
  strings.split (c :: r) [x0a] cur 0
  = if Byte.eqb c x0a then rev cur :: strings.split r [x0a] [] 0
    else strings.split r [x0a] (c :: cur) 0.
Proof.
  cbn [strings.split strings.HasPrefix List.length Nat.sub].
  destruct (Byte.eqb c x0a), r; reflexivity.
Qed.

Lemma strings_split_newline_length (s cur : bytes) :
  List.length (strings.split s [x0a] cur 0) = S (newlines s).
Proof.
  unfold newlines. revert cur. induction s as [| c r IH]; intros cur;
    [reflexivity |].
  rewrite strings_split_newline. cbn [count_occ].
  destruct (Byte.eqb c x0a) eqn:E.
  - apply byte_eqb_eq in E. subst c.
    destruct (Byte.byte_eq_dec x0a x0a); [| congruence].
    cbn [List.length]. rewrite IH. reflexivity.
  - destruct (Byte.byte_eq_dec c x0a) as [-> | _]; [discriminate | apply IH].
Qed.

Lemma strings_split_newline_pieces (s cur : bytes) :
  ~ In x0a cur ->
  Forall (fun piece => ~ In x0a piece) (strings.split s [x0a] cur 0).
Proof.
  revert cur. induction s as [| c r IH]; intros cur H.
  - cbn [strings.split]. constructor; [| constructor].
    rewrite <- in_rev. exact H.
  - rewrite strings_split_newline. destruct (Byte.eqb c x0a) eqn:E.
    + constructor; [rewrite <- in_rev; exact H | apply IH; intros []].
    + apply IH. intros [-> | Hin]; [discriminate | exact (H Hin)].
Qed.

Lemma strings_split_newline_join (s cur : bytes) :
  join (strings.split s [x0a] cur 0) [x0a] = rev cur ++ s.
Proof.
  revert cur. induction s as [| c r IH]; intros cur.
  - cbn [strings.split join]. rewrite app_nil_r. reflexivity.
  - rewrite strings_split_newline. destruct (Byte.eqb c x0a) eqn:E.
    + apply byte_eqb_eq in E. subst c. cbn [join].
      pose proof (strings_split_nonempty r [x0a] [] 0) as Hn.
      specialize (IH []).
      destruct (strings.split r [x0a] [] 0) as [| p q]; [congruence |].
      rewrite IH. reflexivity.
    + rewrite IH. cbn [rev]. rewrite <- app_assoc. reflexivity.
Qed.

(** ** C7: AllowedMachines *)

(** C7: for every license payload that is parsed with success, the
    AllowedMachines of the LicenseKey is the one string the payload holds
    for that field, split on the newline character: the list has one
    element more than the string has newlines, no element holds a
    newline, and the elements with newlines between them are the string
    again.  The string is that of the last member that selects the
    field, the empty string where no member does; an empty string gives
    the list whose one element is the empty string, not the empty
    list. *)
Theorem C7_AllowedMachines_split (b sig : bytes) (lk : LicenseKey.t)
  (v : json.value) :
  buildLicenseKey b sig = (lk, None) ->
  json.parse b = Some v ->
  let incoming := payload (B "AllowedMachines") json.decode_string [] v in
  LicenseKey.AllowedMachines lk = strings.Split incoming [x0a]
  /\ List.length (LicenseKey.AllowedMachines lk) = S (newlines incoming)
  /\ Forall (fun machine => ~ In x0a machine) (LicenseKey.AllowedMachines lk)
  /\ join (LicenseKey.AllowedMachines lk) [x0a] = incoming
  /\ (incoming = [] -> LicenseKey.AllowedMachines lk = [[]])
  /\ (forall ms1 key s ms2,
        v = json.JObject (ms1 ++ (key, json.JString s) :: ms2) ->
        json.selects LicenseKey.temp.names key (B "AllowedMachines") = true ->
        existsb (fun m => json.selects LicenseKey.temp.names (fst m)
                            (B "AllowedMachines")) ms2 = false ->
        incoming = s)
  /\ (has_member LicenseKey.temp.names (B "AllowedMachines") v = false ->
      incoming = []).
Proof.
  intros Hb Hp incoming.
  destruct (buildLicenseKey_payload _ _ _ Hb) as (v' & k & Hp' & Hk & ->).
  rewrite Hp in Hp'. inversion Hp'; subst v'; clear Hp'.
  destruct (LicenseKey_UnmarshalJSON_fields _ _ _ Hk) as (HA & _).
  change (LicenseKey.AllowedMachines (LicenseKey.with_bytes k b sig))
    with (LicenseKey.AllowedMachines k).
  fold incoming in HA.
  split; [exact HA |].
  split; [rewrite HA; apply strings_split_newline_length |].
  split; [rewrite HA; apply strings_split_newline_pieces; intros [] |].
  split; [rewrite HA; apply strings_split_newline_join |].
  split; [intros E; rewrite HA, E; reflexivity |].
  split.
  - intros ms1 key s ms2 -> Hsel Hlater. unfold incoming, payload, payload_in.
    apply json_field_last with (y := s); auto.
  - intros Habs. unfold incoming, payload, payload_in.
    destruct v; try reflexivity.
    cbn [has_member] in Habs. rewrite json_field_absent by exact Habs.
    reflexivity.
Qed.

(** ** time.Unix *)

(** The Time built from [n] seconds is the instant [n] seconds after the
    Unix epoch. *)
Lemma time_Unix_seconds (n : Z) :
  - 2 ^ 63 <= n < 2 ^ 63 -> time.Time_Unix (time.Unix n 0) = n.
Proof.
  intros Hn. unfold time.Time_Unix, time.sec, time.Unix.
  cbn [time.wall time.ext Z.ltb Z.leb Z.compare orb Z.land Z.eqb].
  unfold int64, time.internalToUnix.
  change time.unixToInternal with 62135596800.
  change (2 ^ 63) with 9223372036854775808 in *.
  change (2 ^ 64) with 18446744073709551616.
  Z.div_mod_to_equations. lia.
Qed.

Lemma time_Unix_not_zero (n : Z) : time.Unix n 0 <> time.zero.
Proof. unfold time.Unix, time.zero. cbn. congruence. Qed.

(** The successful decoding of the last member that selects a field
    gives the content of the field. *)
Lemma json_field_last_ok (T : Type) (names : list bytes) (name : bytes)
  (dec : json.decoder T) (ms1 ms2 : list (bytes * json.value)) (key : bytes)
  (x : json.value) (cur : T) :
  json.selects names key name = true ->
  existsb (fun m => json.selects names (fst m) name) ms2 = false ->
  snd (json.field names name dec (ms1 ++ (key, x) :: ms2) cur) = None ->
  exists c,
    dec x c = (fst (json.field names name dec (ms1 ++ (key, x) :: ms2) cur), None).
Proof.
  intros Hsel Hlater. unfold json.field.
  rewrite fold_left_app. cbn [fold_left fst snd]. rewrite Hsel.
  match goal with
  | |- context [fold_left ?f ms1 ?a] => generalize (fold_left f ms1 a)
  end.
  intros acc.
  assert (G : forall a,
             fold_left
               (fun acc0 m =>
                  if json.selects names (fst m) name
                  then let (x0, e0) := dec (snd m) (fst acc0) in
                       (x0, json.first_error (snd acc0) e0)
                  else acc0) ms2 a = a).
  { induction ms2 as [| m r IH]; intros a; [reflexivity |].
    cbn [existsb] in Hlater. apply orb_false_iff in Hlater.
    destruct Hlater as [Hm Hr]. cbn [fold_left]. rewrite Hm. apply IH, Hr. }
  rewrite G. destruct (dec x (fst acc)) as [y e] eqn:E. cbn [fst snd].
  intros He. apply first_error_None in He. destruct He as [_ ->].
  exists (fst acc). exact E.
Qed.

(** Each element of a slice decoded with success is the successful
    decoding of the element of the array at its place. *)
Lemma json_decode_elems_ok (T : Type) (zero : T) (dec : json.decoder T)
  (es : list json.value) (cur xs : list T) :
  json.decode_elems zero dec es cur = (xs, None) ->
  Forall2 (fun e x => exists c, dec e c = (x, None)) es xs.
Proof.
  revert cur xs. induction es as [| e es IH]; intros cur xs H;
    cbn [json.decode_elems] in H.
  - inversion H. constructor.
  - destruct (dec e (hd zero cur)) as [x e1] eqn:E1.
    destruct (json.decode_elems zero dec es (tl cur)) as [r e2] eqn:E2.
    injection H as <- He. apply first_error_None in He. destruct He as [-> ->].
    constructor; [eauto | eapply IH; eauto].
Qed.

Lemma Customer_UnmarshalJSON_Created (c0 c : Customer.t) (v : json.value) :
  Customer.UnmarshalJSON c0 v = (c, None) ->
  Customer.Created c
  = time.Unix (payload_in Customer.temp.names (B "Created")
                 json.decode_int64 0 v) 0.
Proof.
  unfold Customer.UnmarshalJSON.
  destruct (Customer.temp.decoder v Customer.temp.zero) as [temp [e |]] eqn:E;
    intros H; inversion H; subst; clear H.
  cbn [Customer.Created]. f_equal.
  destruct v; cbn [Customer.temp.decoder payload_in] in *;
    try (inversion E; subst; reflexivity).
  cbn [Customer.temp.Id Customer.temp.Name Customer.temp.Email
       Customer.temp.CompanyName Customer.temp.Created Customer.temp.zero] in E.
  repeat match type of E with
         | context [json.field ?a ?b ?c ?d ?e] =>
             destruct (json.field a b c d e)
         end.
  inversion E; subst; reflexivity.
Qed.

Lemma ActivationData_UnmarshalJSON_Time (a0 a : ActivationData.t) (v : json.value) :
  ActivationData.UnmarshalJSON a0 v = (a, None) ->
  ActivationData.Time a
  = time.Unix (payload_in ActivationData.temp.names (B "Time")
                 json.decode_int64 0 v) 0.
Proof.
  unfold ActivationData.UnmarshalJSON.
  destruct (ActivationData.temp.decoder v ActivationData.temp.zero)
    as [temp [e |]] eqn:E;
    intros H; inversion H; subst; clear H.
  cbn [ActivationData.Time]. f_equal.
  destruct v; cbn [ActivationData.temp.decoder payload_in] in *;
    try (inversion E; subst; reflexivity).
  cbn [ActivationData.temp.Mid ActivationData.temp.IP ActivationData.temp.Time
       ActivationData.temp.zero] in E.
  repeat match type of E with
         | context [json.field ?a ?b ?c ?d ?e] =>
             destruct (json.field a b c d e)
         end.
  inversion E; subst; reflexivity.
Qed.

(** ** C8: timestamps *)


(** ** C9: the AllowedMachines list is not empty *)

Lemma UnmarshalJSON_AllowedMachines (k0 k : LicenseKey.t) (v : json.value) :
  LicenseKey.UnmarshalJSON k0 v = (k, None) ->
  LicenseKey.AllowedMachines k <> [].
Proof.
  intros H. destruct (LicenseKey_UnmarshalJSON_fields _ _ _ H) as (-> & _).
  apply strings_Split_nonempty. discriminate.
Qed.

Lemma buildLicenseKey_AllowedMachines (b sig : bytes) (k : LicenseKey.t) :
  buildLicenseKey b sig = (k, None) -> LicenseKey.AllowedMachines k <> [].
Proof.
  intros H. destruct (buildLicenseKey_payload _ _ _ H) as (v & k' & _ & Hk & ->).
  apply (UnmarshalJSON_AllowedMachines _ _ _ Hk).
Qed.

Lemma KeyFromBytes_AllowedMachines (b : bytes) (k : LicenseKey.t) :
  KeyFromBytes b = (k, None) -> LicenseKey.AllowedMachines k <> [].
Proof.
  unfold KeyFromBytes.
  destruct (json.Unmarshal activateResponse.decoder b activateResponse.zero)
    as [r [e |]]; [discriminate |].
  destruct (parseActivateResponse r) as [[lic sg] [e |]]; [discriminate |].
  apply buildLicenseKey_AllowedMachines.
Qed.

Lemma KeyActivate_AllowedMachines
  (http : bytes -> list (bytes * bytes) -> bytes * option error)
  (token : bytes) (args : KeyActivateArguments.t) (k : LicenseKey.t) :
  KeyActivate http token args = (k, None) -> LicenseKey.AllowedMachines k <> [].
Proof.
  unfold KeyActivate.
  destruct (makeActivateRequest http token args) as [r [e |]]; [discriminate |].
  destruct (parseActivateResponse r) as [[lic sg] [e |]]; [discriminate |].
  apply buildLicenseKey_AllowedMachines.
Qed.

(** C9, as stated, is false: on an error the operations return the zero
    LicenseKey, whose AllowedMachines list is empty. *)
Lemma C9_error_path_returns_empty_list :
  KeyFromBytes [] = (LicenseKey.zero, Some json_SyntaxError)
  /\ LicenseKey.AllowedMachines (fst (KeyFromBytes [])) = []
  /\ (forall token args,
        KeyActivate (fun _ _ => ([], Some http_Error)) token args
        = (LicenseKey.zero, Some http_Error))
  /\ List.length (LicenseKey.AllowedMachines LicenseKey.zero) = 0%nat.
Proof. repeat split. Qed.

(** C9 (amended): every LicenseKey that UnmarshalJSON, buildLicenseKey,
    KeyFromBytes or KeyActivate returns with a nil error has an
    AllowedMachines list of length at least 1, because strings.Split
    gives at least one element. *)
Theorem C9_AllowedMachines_nonempty (k : LicenseKey.t) :
  produced k -> (1 <= List.length (LicenseKey.AllowedMachines k))%nat.
Proof.
  intros H. apply length_nonempty.
  destruct H as [(k0 & v & H) | [(b & sig & H) | [(b & H) | (http & token & args & H)]]].
  - apply (UnmarshalJSON_AllowedMachines _ _ _ H).
  - apply (buildLicenseKey_AllowedMachines _ _ _ H).
  - apply (KeyFromBytes_AllowedMachines _ _ H).
  - apply (KeyActivate_AllowedMachines _ _ _ _ H).
Qed.

(** ** An example payload *)

Lemma example_key_built :
  buildLicenseKey example_payload (B "signature") = (example_key, None).
Proof. vm_compute. reflexivity. Qed.

Lemma example_payload_parsed : json.parse example_payload = Some example_value.
Proof. vm_compute. reflexivity. Qed.

Lemma C1_round_trip_witness :
  decodable (LicenseKey.licenseKeyBytes example_key) /\ round_trip example_key.
Proof.
  assert (H : decodable (LicenseKey.licenseKeyBytes example_key))
    by (vm_compute; reflexivity).
  split; [exact H | exact (C1_round_trip example_key H)].
Defined.

Lemma C7_AllowedMachines_split_witness :
  let b := J "{'AllowedMachines':'DESKTOP-1\nlaptop 2\n\nbuild.host'}" in
  let lk := fst (buildLicenseKey b []) in
  let v := json.JObject
             [(B "AllowedMachines",
               json.JString (B "DESKTOP-1" ++ x0a :: B "laptop 2" ++ x0a :: x0a
                               :: B "build.host"))] in
  (buildLicenseKey b [] = (lk, None)
   /\ json.parse b = Some v
   /\ LicenseKey.AllowedMachines lk
      = [B "DESKTOP-1"; B "laptop 2"; []; B "build.host"]
   /\ List.length (LicenseKey.AllowedMachines lk) = 4%nat)
  /\ buildLicenseKey example_payload (B "signature") = (example_key, None)
  /\ json.parse example_payload = Some example_value
  /\ LicenseKey.AllowedMachines example_key = [[]].
Proof.
  intros b lk v.
  assert (Hb : buildLicenseKey b [] = (lk, None)) by (vm_compute; reflexivity).
  assert (Hp : json.parse b = Some v) by (vm_compute; reflexivity).
  pose proof (C7_AllowedMachines_split b [] lk v Hb Hp) as H.
  cbv zeta in H. destruct H as (Hsplit & Hlen & _).
  split.
  { split; [exact Hb |]. split; [exact Hp |].
    split; [rewrite Hsplit; vm_compute; reflexivity |].
    rewrite Hlen. vm_compute. reflexivity. }
  split; [exact example_key_built |].
  split; [exact example_payload_parsed |].
  exact (proj1 (proj2 (proj2 (proj2 (proj2 (C7_AllowedMachines_split
                         example_payload (B "signature") example_key example_value
                         example_key_built example_payload_parsed))))) eq_refl).
Defined.


Lemma C9_AllowedMachines_nonempty_witness :
  produced example_key
  /\ (1 <= List.length (LicenseKey.AllowedMachines example_key))%nat.
Proof.
  assert (H : produced example_key).
  { right; left. exists example_payload, (B "signature"). exact example_key_built. }
  split; [exact H | exact (C9_AllowedMachines_nonempty example_key H)].
Defined.

(** ** Octet strings and integers *)

Lemma byte_to_of_Z (z : Z) : byte_to_Z (byte_of_Z z) = z mod 256.
Proof.
  unfold byte_of_Z, byte_to_Z.
  pose proof (Z.mod_pos_bound z 256 ltac:(lia)) as Hr.
  destruct (Byte.of_N (Z.to_N (z mod 256))) as [b |] eqn:E.
  - apply Byte.to_of_N in E. rewrite E. apply Z2N.id. lia.
  - apply Byte.of_N_None_iff in E. lia.
Qed.

Lemma byte_to_Z_inj (a b : byte) : byte_to_Z a = byte_to_Z b -> a = b.
Proof.
  intros H. rewrite <- (byte_of_to_Z a), <- (byte_of_to_Z b), H. reflexivity.
Qed.

Lemma pow_256_pos (k : Z) : 0 <= k -> 0 < 256 ^ k.
Proof. intros H. apply Z.pow_pos_nonneg; lia. Qed.

Lemma OS2IP_range (X : bytes) : 0 <= OS2IP X < 256 ^ Z.of_nat (List.length X).
Proof.
  induction X as [| x r IH]; cbn [OS2IP List.length]; [cbn; lia |].
  rewrite Nat2Z.inj_succ, Z.pow_succ_r by lia.
  pose proof (byte_to_Z_range x). nia.
Qed.

(** [SetBytes] reads its argument as OS2IP does. *)
Lemma big_SetBytes_OS2IP (X : bytes) : big.SetBytes X = OS2IP X.
Proof.
  unfold big.SetBytes.
  assert (G : forall acc,
             fold_left (fun a b => a * 256 + byte_to_Z b) X acc
             = acc * 256 ^ Z.of_nat (List.length X) + OS2IP X).
  { induction X as [| x r IH]; intros acc; cbn [fold_left OS2IP List.length].
    - cbn. lia.
    - rewrite IH, Nat2Z.inj_succ, Z.pow_succ_r by lia. ring. }
  rewrite G. lia.
Qed.

Lemma big_SetBytes_nonneg (buf : bytes) : 0 <= big.SetBytes buf.
Proof. rewrite big_SetBytes_OS2IP. apply OS2IP_range. Qed.

Lemma big_SetBytes_bound (buf : bytes) :
  big.SetBytes buf < 256 ^ Z.of_nat (List.length buf).
Proof. rewrite big_SetBytes_OS2IP. apply OS2IP_range. Qed.

(** Octet strings of one length that stand for one integer are equal. *)
Lemma OS2IP_inj (X Y : bytes) :
  List.length X = List.length Y -> OS2IP X = OS2IP Y -> X = Y.
Proof.
  revert Y. induction X as [| x r IH]; intros [| y s]; cbn [List.length];
    try discriminate; [reflexivity |].
  intros Hl. injection Hl as Hl. cbn [OS2IP]. rewrite Hl. intros H.
  pose proof (OS2IP_range r) as Hr. pose proof (OS2IP_range s) as Hs.
  rewrite Hl in Hr.
  pose proof (pow_256_pos (Z.of_nat (List.length s)) ltac:(lia)) as Hp.
  assert (Hxy : byte_to_Z x = byte_to_Z y) by nia.
  f_equal; [apply byte_to_Z_inj, Hxy | apply IH; [exact Hl | nia]].
Qed.

Lemma big_FillBytes_length (x : Z) (k : nat) :
  List.length (big.FillBytes x k) = k.
Proof. unfold big.FillBytes. rewrite length_map, length_seq. reflexivity. Qed.

Lemma big_FillBytes_S (x : Z) (k : nat) :
  big.FillBytes x (S k)
  = byte_of_Z (Z.shiftr x (8 * Z.of_nat k)) :: big.FillBytes x k.
Proof.
  unfold big.FillBytes. cbn [seq map]. f_equal.
  - replace (S k - 1 - 0)%nat with k by lia. reflexivity.
  - rewrite <- seq_shift, map_map. apply map_ext. intros i.
    replace (S k - 1 - S i)%nat with (k - 1 - i)%nat by lia. reflexivity.
Qed.

(** [FillBytes] writes the integer modulo 256 ^ k. *)
Lemma OS2IP_FillBytes (m : Z) (k : nat) :
  OS2IP (big.FillBytes m k) = m mod 256 ^ Z.of_nat k.
Proof.
  induction k as [| k IH].
  - cbn. rewrite Z.mod_1_r. reflexivity.
  - rewrite big_FillBytes_S. cbn [OS2IP].
    rewrite big_FillBytes_length, IH, byte_to_of_Z.
    rewrite Z.shiftr_div_pow2 by lia.
    rewrite Z.pow_mul_r by lia. change (2 ^ 8) with 256.
    rewrite Nat2Z.inj_succ, Z.pow_succ_r by lia.
    pose proof (pow_256_pos (Z.of_nat k) ltac:(lia)) as Hp.
    rewrite (Z.mul_comm 256), Z.rem_mul_r by lia. lia.
Qed.

(** For an integer that fits, [FillBytes] gives the one octet string of
    that length that stands for it. *)
Lemma big_FillBytes_OS2IP (m : Z) (X : bytes) :
  0 <= m < 256 ^ Z.of_nat (List.length X) ->
  big.FillBytes m (List.length X) = X <-> OS2IP X = m.
Proof.
  intros Hm. split; intros H.
  - rewrite <- H at 1. rewrite OS2IP_FillBytes. apply Z.mod_small, Hm.
  - apply OS2IP_inj; [apply big_FillBytes_length |].
    rewrite OS2IP_FillBytes, H. apply Z.mod_small, Hm.
Qed.

(** ** Modular exponentiation *)

Lemma big_exp_pos_pow (x : Z) (p : positive) (m : Z) :
  0 < m -> big.exp_pos x p m = x ^ Z.pos p mod m.
Proof.
  intros Hm. induction p as [p IH | p IH |]; cbn [big.exp_pos].
  - rewrite IH, Pos2Z.inj_xI.
    replace (2 * Z.pos p + 1) with (Z.pos p + Z.pos p + 1) by lia.
    rewrite !Z.pow_add_r, Z.pow_1_r by lia.
    rewrite <- Z.mul_mod by lia.
    rewrite Z.mul_mod_idemp_l by lia. reflexivity.
  - rewrite IH, Pos2Z.inj_xO.
    replace (2 * Z.pos p) with (Z.pos p + Z.pos p) by lia.
    rewrite Z.pow_add_r by lia. rewrite <- Z.mul_mod by lia. reflexivity.
  - rewrite Z.pow_1_r. reflexivity.
Qed.

(** [Exp] is the power modulo [m]. *)
Lemma big_Exp_pow (x y m : Z) :
  0 < m -> 0 <= y -> big.Exp x y m = x ^ y mod m.
Proof.
  intros Hm Hy. unfold big.Exp.
  destruct (Z.eqb_spec m 0) as [-> | _]; [lia |].
  rewrite Z.abs_eq by lia.
  destruct y as [| p | p]; [reflexivity | apply big_exp_pos_pow, Hm | lia].
Qed.

(** ** The length of a modulus *)

Lemma octet_length_unique (n : Z) (k1 k2 : nat) :
  octet_length n k1 -> octet_length n k2 -> k1 = k2.
Proof.
  unfold octet_length. intros [L1 U1] [L2 U2].
  destruct (Nat.lt_trichotomy k1 k2) as [H | [H | H]]; [| exact H |]; exfalso.
  - assert (256 ^ Z.of_nat k1 <= 256 ^ (Z.of_nat k2 - 1))
      by (apply Z.pow_le_mono_r; lia).
    lia.
  - assert (256 ^ Z.of_nat k2 <= 256 ^ (Z.of_nat k1 - 1))
      by (apply Z.pow_le_mono_r; lia).
    lia.
Qed.

Lemma big_BitLen_pos (n : Z) : 0 < n -> big.BitLen n = Z.log2 n + 1.
Proof.
  intros H. unfold big.BitLen.
  destruct (Z.eqb_spec n 0); [lia |]. rewrite Z.abs_eq by lia. reflexivity.
Qed.

(** [Size] is the length of the modulus in octets. *)
Lemma rsa_Size_octets (pub : rsa.PublicKey) :
  0 < rsa.N pub -> octet_length (rsa.N pub) (Z.to_nat (rsa.Size pub)).
Proof.
  intros Hn. unfold octet_length, rsa.Size. rewrite (big_BitLen_pos _ Hn).
  pose proof (Z.log2_nonneg (rsa.N pub)) as H0.
  destruct (Z.log2_spec (rsa.N pub) Hn) as [Hlo Hhi].
  set (L := Z.log2 (rsa.N pub)) in *.
  set (k := (L + 1 + 7) / 8).
  assert (Hk : 8 * (k - 1) <= L < 8 * k)
    by (subst k; Z.div_mod_to_equations; lia).
  rewrite Z2Nat.id by lia.
  replace 256 with (2 ^ 8) by reflexivity. rewrite <- !Z.pow_mul_r by lia.
  split.
  - apply Z.le_trans with (2 ^ L); [apply Z.pow_le_mono_r; lia | exact Hlo].
  - apply Z.lt_le_trans with (2 ^ Z.succ L);
      [exact Hhi | apply Z.pow_le_mono_r; lia].
Qed.

Lemma rsa_Size_nonneg (pub : rsa.PublicKey) : 0 <= rsa.Size pub.
Proof.
  unfold rsa.Size, big.BitLen.
  destruct (rsa.N pub =? 0); [cbn; lia |].
  pose proof (Z.log2_nonneg (Z.abs (rsa.N pub))).
  Z.div_mod_to_equations; lia.
Qed.

Lemma big_BitLen_1024 (n : Z) :
  0 <= n -> (1024 <=? big.BitLen n) = true <-> 2 ^ 1023 <= n.
Proof.
  intros Hn. rewrite Z.leb_le. unfold big.BitLen.
  destruct (Z.eqb_spec n 0) as [-> | Hz].
  - split; [lia | intros H; exfalso; revert H; apply Z.lt_nge; reflexivity].
  - rewrite Z.abs_eq by lia.
    rewrite (Z.log2_le_pow2 n 1023) by lia. lia.
Qed.

(** ** The digest *)

Lemma sha256_round_length (st : list Z) (kw : Z * Z) :
  List.length st = 8%nat -> List.length (sha256.round st kw) = 8%nat.
Proof.
  destruct st as [| a [| b [| c [| d [| e [| f [| g [| h [| i r]]]]]]]]];
    intros H; try discriminate H. reflexivity.
Qed.

Lemma sha256_rounds_length (kws : list (Z * Z)) (st : list Z) :
  List.length st = 8%nat -> List.length (fold_left sha256.round kws st) = 8%nat.
Proof.
  revert st. induction kws as [| kw r IH]; intros st H; cbn [fold_left];
    [exact H | apply IH, sha256_round_length, H].
Qed.

Lemma sha256_block_length (h : list Z) (blk : bytes) :
  List.length h = 8%nat -> List.length (sha256.block h blk) = 8%nat.
Proof.
  intros H. unfold sha256.block.
  rewrite length_map, length_combine, sha256_rounds_length, H by exact H.
  reflexivity.
Qed.

Lemma sha256_blocks_length (blks : list bytes) (h : list Z) :
  List.length h = 8%nat -> List.length (fold_left sha256.block blks h) = 8%nat.
Proof.
  revert h. induction blks as [| blk r IH]; intros h H; cbn [fold_left];
    [exact H | apply IH, sha256_block_length, H].
Qed.

(** A digest has thirty-two bytes. *)
Lemma sha256_Sum256_length (data : bytes) :
  List.length (sha256.Sum256 data) = 32%nat.
Proof.
  unfold sha256.Sum256.
  rewrite (flat_map_constant_length (c := 4)).
  - rewrite sha256_blocks_length; reflexivity.
  - intros x _. rewrite length_map, length_seq. reflexivity.
Qed.

(** ** VerifyPKCS1v15 *)

Lemma EMSA_PKCS1_v1_5_length (digest : bytes) (k : nat) :
  List.length digest = 32%nat -> (62 <= k)%nat ->
  List.length (EMSA_PKCS1_v1_5 digest k) = k.
Proof.
  intros Hd Hk. unfold EMSA_PKCS1_v1_5, DigestInfo.
  rewrite !length_app, repeat_length, Hd. cbn [List.length]. lia.
Qed.

(** The encoded message the library builds is the one of the standard. *)
Lemma rsa_pkcs1v15ConstructEM_EMSA (pub : rsa.PublicKey) (hashed : bytes) :
  List.length hashed = 32%nat ->
  rsa.pkcs1v15ConstructEM pub rsa.SHA256 hashed
  = if rsa.Size pub <? 62 then ([], Some rsa_InputError)
    else (EMSA_PKCS1_v1_5 hashed (Z.to_nat (rsa.Size pub)), None).
Proof.
  intros Hh. unfold rsa.pkcs1v15ConstructEM, EMSA_PKCS1_v1_5, DigestInfo.
  cbv zeta. rewrite length_app, Hh. cbn [rsa.hashPrefix List.length].
  change (Z.of_nat 19 + Z.of_nat 32 + 2 + 8 + 1) with 62.
  destruct (Z.ltb_spec (rsa.Size pub) 62) as [| Hk]; [reflexivity |].
  replace (Z.to_nat (rsa.Size pub - (Z.of_nat 19 + Z.of_nat 32) - 3))
    with (Z.to_nat (rsa.Size pub) - (19 + 32) - 3)%nat by lia.
  reflexivity.
Qed.

(** The checks of VerifyPKCS1v15, one by one, and the verification of
    RFC 8017 they amount to. *)
Lemma rsa_Verify_spec (pub : rsa.PublicKey) (M sig : bytes) :
  0 <= rsa.N pub ->
  rsa.VerifyPKCS1v15 pub rsa.SHA256 (sha256.Sum256 M) sig = None
  <-> 2 ^ 1023 <= rsa.N pub /\ Z.odd (rsa.N pub) = true
      /\ Z.odd (rsa.E pub) = true /\ 2 <= rsa.E pub <= 2 ^ 31 - 1
      /\ valid_signature (rsa.N pub) (rsa.E pub) M sig.
Proof.
  intros Hn0. unfold rsa.VerifyPKCS1v15, valid_signature.
  change (rsa.hashSize rsa.SHA256) with 32.
  rewrite sha256_Sum256_length, Z.eqb_refl. cbn [negb].
  unfold rsa.checkPublicKeySize, rsa.checkPublicKey, rsa.encrypt.
  rewrite (rsa_pkcs1v15ConstructEM_EMSA pub _ (sha256_Sum256_length M)).
  assert (HT : List.length (DigestInfo (sha256.Sum256 M)) = 51%nat).
  { unfold DigestInfo. rewrite length_app, sha256_Sum256_length. reflexivity. }
  rewrite HT. rewrite <- !Z.negb_odd.
  pose proof (big_BitLen_1024 (rsa.N pub) Hn0) as Hbits.
  destruct (1024 <=? big.BitLen (rsa.N pub)).
  2:{ split; [discriminate |]. intros (H & _). apply Hbits in H. discriminate. }
  assert (Hbig : 2 ^ 1023 <= rsa.N pub) by (apply Hbits; reflexivity).
  assert (Hn : 0 < rsa.N pub).
  { apply Z.lt_le_trans with (2 ^ 1023); [reflexivity | exact Hbig]. }
  destruct (Z.odd (rsa.N pub)); cbn [negb];
    [| split; [discriminate | intros (_ & H & _); discriminate]].
  destruct (Z.ltb_spec (rsa.E pub) 2) as [He2 | He2];
    [split; [discriminate | intros (_ & _ & _ & H & _); lia] |].
  destruct (Z.odd (rsa.E pub)); cbn [negb];
    [| split; [discriminate | intros (_ & _ & H & _); discriminate]].
  destruct (Z.ltb_spec (2 ^ 31 - 1) (rsa.E pub)) as [He31 | He31];
    [split; [discriminate | intros (_ & _ & _ & H & _); lia] |].
  pose proof (rsa_Size_octets pub Hn) as Hoct.
  pose proof (rsa_Size_nonneg pub) as Hs0.
  assert (Hsize : forall k, octet_length (rsa.N pub) k ->
                            rsa.Size pub = Z.of_nat k).
  { intros k Hk. rewrite <- (octet_length_unique _ _ _ Hoct Hk). lia. }
  destruct (Z.eqb_spec (rsa.Size pub) (Z.of_nat (List.length sig)))
    as [Hlen | Hlen]; cbn [negb].
  2:{ split; [discriminate |].
      intros (_ & _ & _ & _ & k & Hk & Hl & _). exfalso. apply Hlen.
      rewrite (Hsize k Hk), Hl. reflexivity. }
  rewrite big_SetBytes_OS2IP.
  destruct (Z.leb_spec (rsa.N pub) (OS2IP sig)) as [Hge | Hlt].
  { split; [discriminate |]. intros (_ & _ & _ & _ & k & _ & _ & H & _). lia. }
  destruct (Z.ltb_spec (rsa.Size pub) 62) as [Hshort | Hlong].
  { split; [discriminate |].
    intros (_ & _ & _ & _ & k & Hk & _ & _ & H & _).
    apply Hsize in Hk. lia. }
  rewrite big_Exp_pow by lia.
  set (m := OS2IP sig ^ rsa.E pub mod rsa.N pub).
  assert (Hm : 0 <= m < rsa.N pub) by (apply Z.mod_pos_bound, Hn).
  set (size := Z.to_nat (rsa.Size pub)) in *.
  set (em := EMSA_PKCS1_v1_5 (sha256.Sum256 M) size).
  assert (Hem : List.length em = size).
  { apply EMSA_PKCS1_v1_5_length; [apply sha256_Sum256_length | lia]. }
  assert (Hfill : big.FillBytes m size = em <-> OS2IP em = m).
  { rewrite <- Hem. apply big_FillBytes_OS2IP. rewrite Hem.
    destruct Hoct as [_ Hoct]. lia. }
  destruct (bytes_eqb (big.FillBytes m size) em) eqn:Eq.
  - split; [intros _ | reflexivity].
    apply bytes_eqb_eq in Eq. apply Hfill in Eq.
    split; [exact Hbig |]. split; [reflexivity |]. split; [reflexivity |].
    split; [lia |]. exists size.
    split; [exact Hoct |]. split; [lia |]. split; [exact Hlt |].
    split; [lia | symmetry; exact Eq].
  - split; [discriminate |].
    intros (_ & _ & _ & _ & k & Hk & _ & _ & _ & H). exfalso.
    assert (k = size) by (apply Hsize in Hk; lia). subst k.
    assert (E : bytes_eqb (big.FillBytes m size) em = true).
    { apply bytes_eqb_eq, Hfill. symmetry. exact H. }
    congruence.
Qed.

Lemma Go_int_Int64 (e : Z) : big.IsInt64 e = true -> Go_int (big.Int64 e) = e.
Proof.
  unfold big.IsInt64, Go_int, big.Int64, int64. intros H.
  apply andb_true_iff in H. destruct H as [H1 H2].
  apply Z.leb_le in H1. apply Z.ltb_lt in H2.
  change (2 ^ 63) with 9223372036854775808 in *.
  change (2 ^ 64) with 18446744073709551616.
  Z.div_mod_to_equations. lia.
Qed.

Lemma rsa_Verify_length (pub : rsa.PublicKey) (hashed sig : bytes) :
  Z.of_nat (List.length sig) <> rsa.Size pub ->
  rsa.VerifyPKCS1v15 pub rsa.SHA256 hashed sig <> None.
Proof.
  intros Hlen. unfold rsa.VerifyPKCS1v15.
  destruct (negb (Z.of_nat (List.length hashed) =? rsa.hashSize rsa.SHA256));
    [discriminate |].
  destruct (rsa.checkPublicKeySize pub); [discriminate |].
  destruct (rsa.checkPublicKey pub); [discriminate |].
  destruct (Z.eqb_spec (rsa.Size pub) (Z.of_nat (List.length sig))) as [E | _];
    [congruence | discriminate].
Qed.

Section Verification.

Variable xml_Unmarshal : bytes -> RSAKeyValue.t -> RSAKeyValue.t * option error.

(** With a descriptor that decodes, HasValidSignature is the library's
    verification of the stored signature against the digest of the
    stored license bytes. *)
Lemma HasValidSignature_decoded (lk : LicenseKey.t) (pk : bytes)
  (k : RSAKeyValue.t) (mb eb : bytes) :
  xml_Unmarshal pk RSAKeyValue.zero = (k, None) ->
  base64.DecodeString (RSAKeyValue.Modulus k) = (mb, None) ->
  base64.DecodeString (RSAKeyValue.Exponent k) = (eb, None) ->
  big.IsInt64 (big.SetBytes eb) = true ->
  LicenseKey.HasValidSignature xml_Unmarshal lk pk
  = match rsa.VerifyPKCS1v15
            (rsa.mkPublicKey (big.SetBytes mb) (big.SetBytes eb)) rsa.SHA256
            (sha256.Sum256 (LicenseKey.licenseKeyBytes lk))
            (LicenseKey.signatureBytes lk) with
    | None => true
    | Some _ => false
    end.
Proof.
  intros Hx Hm He Hi. unfold LicenseKey.HasValidSignature.
  rewrite Hx, Hm, He, Hi. cbn [negb]. rewrite (Go_int_Int64 _ Hi). reflexivity.
Qed.

(** What HasValidSignature accepts, in the terms of RFC 8017: the key
    passes the checks of the library and the signature is valid. *)
Lemma HasValidSignature_valid (lk : LicenseKey.t) (pk : bytes)
  (k : RSAKeyValue.t) (mb eb : bytes) :
  xml_Unmarshal pk RSAKeyValue.zero = (k, None) ->
  base64.DecodeString (RSAKeyValue.Modulus k) = (mb, None) ->
  base64.DecodeString (RSAKeyValue.Exponent k) = (eb, None) ->
  LicenseKey.HasValidSignature xml_Unmarshal lk pk = true
  <-> 2 ^ 1023 <= OS2IP mb /\ Z.odd (OS2IP mb) = true
      /\ Z.odd (OS2IP eb) = true /\ 2 <= OS2IP eb <= 2 ^ 31 - 1
      /\ valid_signature (OS2IP mb) (OS2IP eb)
           (LicenseKey.licenseKeyBytes lk) (LicenseKey.signatureBytes lk).
Proof.
  intros Hx Hm He.
  pose proof (rsa_Verify_spec
                (rsa.mkPublicKey (big.SetBytes mb) (big.SetBytes eb))
                (LicenseKey.licenseKeyBytes lk) (LicenseKey.signatureBytes lk)
                (big_SetBytes_nonneg mb)) as Hspec.
  cbn [rsa.N rsa.E] in Hspec. rewrite !big_SetBytes_OS2IP in Hspec.
  destruct (big.IsInt64 (big.SetBytes eb)) eqn:Hi.
  - rewrite (HasValidSignature_decoded lk pk k mb eb Hx Hm He Hi).
    rewrite !big_SetBytes_OS2IP. rewrite <- Hspec.
    destruct (rsa.VerifyPKCS1v15 _ _ _ _); split; congruence.
  - unfold LicenseKey.HasValidSignature. rewrite Hx, Hm, He, Hi. cbn [negb].
    split; [discriminate |]. intros (_ & _ & _ & [_ H] & _). exfalso.
    rewrite big_SetBytes_OS2IP in Hi. unfold big.IsInt64 in Hi.
    apply andb_false_iff in Hi.
    pose proof (OS2IP_range eb) as [H0 _].
    destruct Hi as [Hi | Hi]; [apply Z.leb_gt in Hi | apply Z.ltb_ge in Hi].
    + assert (- 2 ^ 63 < 0) by reflexivity. lia.
    + assert (2 ^ 31 - 1 < 2 ^ 63) by reflexivity. lia.
Qed.

(** C2: for every LicenseKey and every descriptor that decodes to a
    modulus n and an exponent e, where n is odd and has 1024 bits at
    least and e is odd with 2 <= e <= 2^31 - 1, HasValidSignature is true
    if and only if the stored signature bytes are a valid signature of
    the stored raw license bytes under (n, e) as RSASSA-PKCS1-v1_5 with
    SHA-256 defines it: the signature has the length of n in octets, the
    integer it stands for is below n, and raised to e modulo n it is the
    integer of 00 01 ff .. ff 00 followed by the DigestInfo of the SHA-256
    digest.  For every descriptor that decodes, HasValidSignature is false
    when the signature is not valid in this sense, when it is not as long
    as the modulus, and when e is below 2 or above 2^31 - 1.  The digest
    is SHA-256: it gives the digests of the standard for the empty
    message, for abc and for a message of two blocks. *)
Theorem C2_HasValidSignature_verifies (lk : LicenseKey.t) (pk : bytes)
  (k : RSAKeyValue.t) (mb eb : bytes) :
  xml_Unmarshal pk RSAKeyValue.zero = (k, None) ->
  base64.DecodeString (RSAKeyValue.Modulus k) = (mb, None) ->
  base64.DecodeString (RSAKeyValue.Exponent k) = (eb, None) ->
  let n := OS2IP mb in
  let e := OS2IP eb in
  let M := LicenseKey.licenseKeyBytes lk in
  let S := LicenseKey.signatureBytes lk in
  let valid := LicenseKey.HasValidSignature xml_Unmarshal lk pk in
  (2 ^ 1023 <= n -> Z.odd n = true -> Z.odd e = true -> 2 <= e <= 2 ^ 31 - 1 ->
   (valid = true <-> valid_signature n e M S))
  /\ (~ valid_signature n e M S -> valid = false)
  /\ (forall size : nat,
        octet_length n size -> List.length S <> size -> valid = false)
  /\ (e < 2 \/ 2 ^ 31 - 1 < e -> valid = false)
  /\ sha256.Sum256 []
     = hex "e3b0c44298fc1c149afbf4c8996fb92427ae41e4649b934ca495991b7852b855"
  /\ sha256.Sum256 (B "abc")
     = hex "ba7816bf8f01cfea414140de5dae2223b00361a396177a9cb410ff61f20015ad"
  /\ sha256.Sum256
       (B "abcdbcdecdefdefgefghfghighijhijkijkljklmklmnlmnomnopnopq")
     = hex "248d6a61d20638b8e5c026930c3e6039a33ce45964ff2167f6ecedd419db06c1".
Proof.
  intros Hx Hm He n e M S valid.
  pose proof (HasValidSignature_valid lk pk k mb eb Hx Hm He) as Hv.
  fold n e M S valid in Hv.
  assert (Hfalse : forall P : Prop, (valid = true -> P -> False) -> P ->
                                    valid = false).
  { intros P H HP. destruct valid; [exfalso; exact (H eq_refl HP) | reflexivity]. }
  split; [| split; [| split; [| split]]].
  - intros Hbig Hn Hodd Hrange. rewrite Hv. tauto.
  - apply Hfalse. intros Ht Hnot. apply Hv in Ht. tauto.
  - intros size Hsize. apply Hfalse. intros Ht Hlen. apply Hv in Ht.
    destruct Ht as (_ & _ & _ & _ & k' & Hk' & Hl & _).
    apply Hlen. rewrite Hl. exact (octet_length_unique n k' size Hk' Hsize).
  - apply Hfalse. intros Ht Hout. apply Hv in Ht.
    destruct Ht as (_ & _ & _ & Hrange & _). lia.
  - split; [| split]; vm_compute; reflexivity.
Qed.

(** C3: HasValidSignature returns a boolean for every LicenseKey and
    every descriptor: it is false when the descriptor does not decode,
    when its Modulus or its Exponent is not base64, and when the Exponent
    decodes to an unsigned integer that does not fit a signed 64-bit
    integer. *)
Theorem C3_HasValidSignature_total (lk : LicenseKey.t) (pk : bytes) :
  (LicenseKey.HasValidSignature xml_Unmarshal lk pk = true
   \/ LicenseKey.HasValidSignature xml_Unmarshal lk pk = false)
  /\ (snd (xml_Unmarshal pk RSAKeyValue.zero) <> None ->
      LicenseKey.HasValidSignature xml_Unmarshal lk pk = false)
  /\ (forall k,
        xml_Unmarshal pk RSAKeyValue.zero = (k, None) ->
        snd (base64.DecodeString (RSAKeyValue.Modulus k)) <> None
        \/ snd (base64.DecodeString (RSAKeyValue.Exponent k)) <> None ->
        LicenseKey.HasValidSignature xml_Unmarshal lk pk = false)
  /\ (forall k exponentBytes,
        xml_Unmarshal pk RSAKeyValue.zero = (k, None) ->
        base64.DecodeString (RSAKeyValue.Exponent k) = (exponentBytes, None) ->
        2 ^ 63 <= big.SetBytes exponentBytes ->
        LicenseKey.HasValidSignature xml_Unmarshal lk pk = false).
Proof.
  split; [destruct (LicenseKey.HasValidSignature xml_Unmarshal lk pk); auto |].
  unfold LicenseKey.HasValidSignature.
  destruct (xml_Unmarshal pk RSAKeyValue.zero) as [k0 [e |]]; cbn [snd].
  - split; [reflexivity |]. split; intros; discriminate.
  - split; [congruence |]. split.
    + intros k Hk. injection Hk as <-.
      destruct (base64.DecodeString (RSAKeyValue.Modulus k0)) as [mb [e |]];
        [reflexivity |].
      destruct (base64.DecodeString (RSAKeyValue.Exponent k0)) as [eb [e |]];
        [reflexivity |].
      cbn [snd]. intros [H | H]; congruence.
    + intros k eb Hk He Hbig. injection Hk as <-.
      destruct (base64.DecodeString (RSAKeyValue.Modulus k0)) as [mb [e |]];
        [reflexivity |].
      rewrite He.
      assert (Hi : big.IsInt64 (big.SetBytes eb) = false).
      { unfold big.IsInt64. apply andb_false_iff. right. apply Z.ltb_ge. exact Hbig. }
      rewrite Hi. reflexivity.
Qed.

End Verification.

(** ** A signed example *)

Lemma example_signed_key_built :
  buildLicenseKey example_payload example_signature = (example_signed_key, None).
Proof. vm_compute. reflexivity. Qed.

Lemma example_signed_key_valid :
  LicenseKey.HasValidSignature descriptor.Unmarshal example_signed_key
    example_descriptor = true.
Proof. vm_compute. reflexivity. Qed.

Lemma C2_HasValidSignature_verifies_witness :
  let mb := fst (base64.DecodeString example_modulus) in
  let eb := fst (base64.DecodeString (B "AQAB")) in
  descriptor.Unmarshal example_descriptor RSAKeyValue.zero
  = (example_RSAKeyValue, None)
  /\ base64.DecodeString example_modulus = (mb, None)
  /\ base64.DecodeString (B "AQAB") = (eb, None)
  /\ OS2IP eb = 65537
  /\ 2 ^ 1023 <= OS2IP mb
  /\ Z.odd (OS2IP mb) = true
  /\ LicenseKey.HasValidSignature descriptor.Unmarshal example_signed_key
       example_descriptor = true
  /\ valid_signature (OS2IP mb) (OS2IP eb) example_payload example_signature.
Proof.
  intros mb eb.
  assert (Hx : descriptor.Unmarshal example_descriptor RSAKeyValue.zero
               = (example_RSAKeyValue, None)) by (vm_compute; reflexivity).
  assert (Hm : base64.DecodeString (RSAKeyValue.Modulus example_RSAKeyValue)
               = (mb, None)) by (vm_compute; reflexivity).
  assert (He : base64.DecodeString (RSAKeyValue.Exponent example_RSAKeyValue)
               = (eb, None)) by (vm_compute; reflexivity).
  assert (Hbig : 2 ^ 1023 <= OS2IP mb) by (vm_compute; discriminate).
  assert (Hn : Z.odd (OS2IP mb) = true) by (vm_compute; reflexivity).
  assert (Hodd : Z.odd (OS2IP eb) = true) by (vm_compute; reflexivity).
  assert (Hrange : 2 <= OS2IP eb <= 2 ^ 31 - 1)
    by (split; vm_compute; discriminate).
  split; [exact Hx |]. split; [exact Hm |]. split; [exact He |].
  split; [vm_compute; reflexivity |]. split; [exact Hbig |].
  split; [exact Hn |]. split; [exact example_signed_key_valid |].
  exact (proj1 (proj1 (C2_HasValidSignature_verifies descriptor.Unmarshal
                         example_signed_key example_descriptor
                         example_RSAKeyValue mb eb Hx Hm He)
                  Hbig Hn Hodd Hrange)
           example_signed_key_valid).
Defined.

Lemma example_unsigned_valid :
  valid_signature (OS2IP (fst (base64.DecodeString example_modulus))) 1
    (LicenseKey.licenseKeyBytes example_unsigned_key)
    (LicenseKey.signatureBytes example_unsigned_key).
Proof.
  exists 128%nat.
  split; [split; vm_compute; [discriminate | reflexivity] |].
  split; [vm_compute; reflexivity |]. split; [vm_compute; reflexivity |].
  split; [| vm_compute; reflexivity].
  unfold DigestInfo. rewrite length_app, sha256_Sum256_length. cbn. lia.
Qed.

Lemma example_wide_valid :
  valid_signature (OS2IP (fst (base64.DecodeString example_modulus)))
    (2 ^ 31 + 11)
    (LicenseKey.licenseKeyBytes example_wide_key)
    (LicenseKey.signatureBytes example_wide_key).
Proof.
  exists 128%nat.
  split; [split; vm_compute; [discriminate | reflexivity] |].
  split; [vm_compute; reflexivity |]. split; [vm_compute; reflexivity |].
  split.
  - unfold DigestInfo. rewrite length_app, sha256_Sum256_length. cbn. lia.
  - assert (Hn : 0 < OS2IP (fst (base64.DecodeString example_modulus)))
      by (vm_compute; reflexivity).
    assert (He : 0 <= 2 ^ 31 + 11) by (vm_compute; discriminate).
    refine (eq_trans (eq_sym (big_Exp_pow _ _ _ Hn He)) _).
    vm_compute. reflexivity.
Qed.

(** Two signatures that are valid as the standard defines it, under keys
    whose exponent fits a signed 64-bit integer, and that HasValidSignature
    refuses.  For the exponent 1 the encoded message of the payload is
    its own signature: nobody needs the private key to write it, and the
    library refuses the exponent.  For the exponent 2^31 + 11 the
    signature is made with the private key, and the library refuses the
    exponent as too large. *)
Lemma C2_valid_signatures_refused :
  let mb := fst (base64.DecodeString example_modulus) in
  let k1 := {| RSAKeyValue.Modulus := example_modulus;
               RSAKeyValue.Exponent := B "AQ==" |} in
  let k2 := {| RSAKeyValue.Modulus := example_modulus;
               RSAKeyValue.Exponent := B "gAAACw==" |} in
  let eb := [x80; x00; x00; x0b] in
  base64.DecodeString example_modulus = (mb, None)
  /\ (descriptor.Unmarshal example_unit_exponent RSAKeyValue.zero = (k1, None)
      /\ base64.DecodeString (RSAKeyValue.Exponent k1) = ([x01], None)
      /\ OS2IP [x01] = 1
      /\ big.IsInt64 (big.SetBytes [x01]) = true
      /\ valid_signature (OS2IP mb) 1
           (LicenseKey.licenseKeyBytes example_unsigned_key)
           (LicenseKey.signatureBytes example_unsigned_key)
      /\ LicenseKey.HasValidSignature descriptor.Unmarshal example_unsigned_key
           example_unit_exponent = false)
  /\ (descriptor.Unmarshal example_wide_exponent RSAKeyValue.zero = (k2, None)
      /\ base64.DecodeString (RSAKeyValue.Exponent k2) = (eb, None)
      /\ OS2IP eb = 2 ^ 31 + 11
      /\ big.IsInt64 (big.SetBytes eb) = true
      /\ valid_signature (OS2IP mb) (2 ^ 31 + 11)
           (LicenseKey.licenseKeyBytes example_wide_key)
           (LicenseKey.signatureBytes example_wide_key)
      /\ LicenseKey.HasValidSignature descriptor.Unmarshal example_wide_key
           example_wide_exponent = false).
Proof.
  intros mb k1 k2 eb.
  split; [vm_compute; reflexivity |]. split.
  - split; [vm_compute; reflexivity |]. split; [vm_compute; reflexivity |].
    split; [vm_compute; reflexivity |]. split; [vm_compute; reflexivity |].
    split; [exact example_unsigned_valid | vm_compute; reflexivity].
  - split; [vm_compute; reflexivity |]. split; [vm_compute; reflexivity |].
    split; [vm_compute; reflexivity |]. split; [vm_compute; reflexivity |].
    split; [exact example_wide_valid | vm_compute; reflexivity].
Qed.

(** A license or a signature that was changed is refused, and so is a
    signature under another descriptor's exponent. *)
Lemma example_tampering_refused :
  LicenseKey.HasValidSignature descriptor.Unmarshal
    (LicenseKey.with_bytes example_key (example_payload ++ B " ") example_signature)
    example_descriptor = false
  /\ LicenseKey.HasValidSignature descriptor.Unmarshal
       (LicenseKey.with_bytes example_key example_payload
          (x00 :: tl example_signature))
       example_descriptor = false
  /\ LicenseKey.HasValidSignature descriptor.Unmarshal
       (LicenseKey.with_bytes example_key example_payload (tl example_signature))
       example_descriptor = false.
Proof. split; [| split]; vm_compute; reflexivity. Qed.

Lemma C3_HasValidSignature_total_witness :
  let k := {| RSAKeyValue.Modulus := example_modulus;
              RSAKeyValue.Exponent := B "AQAAAAAAAAAA" |} in
  let eb := fst (base64.DecodeString (B "AQAAAAAAAAAA")) in
  descriptor.Unmarshal example_large_exponent RSAKeyValue.zero = (k, None)
  /\ base64.DecodeString (RSAKeyValue.Exponent k) = (eb, None)
  /\ big.SetBytes eb = 2 ^ 64
  /\ LicenseKey.HasValidSignature descriptor.Unmarshal example_signed_key
       example_large_exponent = false.
Proof.
  intros k eb.
  assert (Hx : descriptor.Unmarshal example_large_exponent RSAKeyValue.zero
               = (k, None)) by (vm_compute; reflexivity).
  assert (He : base64.DecodeString (RSAKeyValue.Exponent k) = (eb, None))
    by (vm_compute; reflexivity).
  assert (Hv : big.SetBytes eb = 2 ^ 64) by (vm_compute; reflexivity).
  assert (Hbig : 2 ^ 63 <= big.SetBytes eb) by (rewrite Hv; vm_compute; discriminate).
  split; [exact Hx |]. split; [exact He |]. split; [exact Hv |].
  exact (proj2 (proj2 (proj2 (C3_HasValidSignature_total descriptor.Unmarshal
                                example_signed_key example_large_exponent)))
           k eb Hx He Hbig).
Defined.

(** * Further properties of the client *)

(** ** Keys and their raw bytes *)

Lemma KeyFromBytes_built (b : bytes) (k : LicenseKey.t) :
  KeyFromBytes b = (k, None) -> exists lic sig, buildLicenseKey lic sig = (k, None).
Proof.
  unfold KeyFromBytes.
  destruct (json.Unmarshal activateResponse.decoder b activateResponse.zero)
    as [r [e |]]; [discriminate |].
  destruct (parseActivateResponse r) as [[lic sg] [e |]]; [discriminate |].
  eauto.
Qed.

Lemma KeyActivate_built
  (http : bytes -> list (bytes * bytes) -> bytes * option error)
  (token : bytes) (args : KeyActivateArguments.t) (k : LicenseKey.t) :
  KeyActivate http token args = (k, None) ->
  exists lic sig, buildLicenseKey lic sig = (k, None).
Proof.
  unfold KeyActivate.
  destruct (makeActivateRequest http token args) as [r [e |]]; [discriminate |].
  destruct (parseActivateResponse r) as [[lic sg] [e |]]; [discriminate |].
  eauto.
Qed.

(** A returned key is the one built from the raw bytes it carries. *)
Lemma returned_built (k : LicenseKey.t) :
  returned k ->
  buildLicenseKey (LicenseKey.licenseKeyBytes k) (LicenseKey.signatureBytes k)
  = (k, None).
Proof.
  intros H.
  assert (exists lic sig, buildLicenseKey lic sig = (k, None)) as (lic & sig & Hb).
  { destruct H as [(b & sig & H) | [(b & H) | (http & token & args & H)]].
    - eauto.
    - eapply KeyFromBytes_built, H.
    - eapply KeyActivate_built, H. }
  destruct (buildLicenseKey_bytes _ _ _ Hb) as [-> ->]. exact Hb.
Qed.

Lemma example_key_returned : returned example_key.
Proof. left. exists example_payload, (B "signature"). exact example_key_built. Qed.

(** X1: ToBytes writes the raw bytes only, and reading the blob gives
    the returned key back whole: for a key k returned by buildLicenseKey,
    KeyFromBytes or KeyActivate with a nil error, and for any LicenseKey
    that carries the raw bytes of k, whatever its exported fields hold,
    ToBytes writes the blob it writes for k, and KeyFromBytes on that
    blob returns k itself, every exported field and both raw byte
    sequences, with a nil error. *)
Theorem ToBytes_KeyFromBytes_identity (k k' : LicenseKey.t) :
  returned k ->
  LicenseKey.licenseKeyBytes k' = LicenseKey.licenseKeyBytes k ->
  LicenseKey.signatureBytes k' = LicenseKey.signatureBytes k ->
  LicenseKey.ToBytes k' = LicenseKey.ToBytes k
  /\ KeyFromBytes (fst (LicenseKey.ToBytes k')) = (k, None).
Proof.
  intros H Hl Hs.
  assert (E : LicenseKey.ToBytes k' = LicenseKey.ToBytes k)
    by (unfold LicenseKey.ToBytes; rewrite Hl, Hs; reflexivity).
  split; [exact E |].
  rewrite E, KeyFromBytes_ToBytes. apply returned_built, H.
Qed.

Lemma ToBytes_KeyFromBytes_identity_witness :
  let forged :=
    LicenseKey.with_bytes LicenseKey.zero example_payload (B "signature") in
  returned example_key
  /\ LicenseKey.F1 forged = false
  /\ LicenseKey.F1 example_key = true
  /\ KeyFromBytes (fst (LicenseKey.ToBytes forged)) = (example_key, None).
Proof.
  split; [exact example_key_returned |].
  split; [reflexivity |]. split; [reflexivity |].
  apply (ToBytes_KeyFromBytes_identity example_key
           (LicenseKey.with_bytes LicenseKey.zero example_payload (B "signature"))
           example_key_returned); reflexivity.
Defined.

(** X2: the exported fields of a returned key are a function of its raw
    license bytes: two keys returned with a nil error that carry the same
    licenseKeyBytes have the same exported fields, whatever their
    signatures and whichever operation returned them. *)
Theorem returned_fields_from_licenseKeyBytes (k1 k2 : LicenseKey.t) :
  returned k1 -> returned k2 ->
  LicenseKey.licenseKeyBytes k1 = LicenseKey.licenseKeyBytes k2 ->
  exported k1 = exported k2.
Proof.
  intros H1 H2 Hb.
  apply returned_built, buildLicenseKey_inv in H1.
  apply returned_built, buildLicenseKey_inv in H2.
  destruct H1 as (a1 & U1 & E1), H2 as (a2 & U2 & E2).
  rewrite Hb, U2 in U1. injection U1 as <-.
  rewrite E1, E2. reflexivity.
Qed.

Lemma returned_fields_from_licenseKeyBytes_witness :
  returned example_key /\ returned example_signed_key
  /\ exported example_key = exported example_signed_key.
Proof.
  assert (H : returned example_signed_key).
  { left. exists example_payload, example_signature.
    exact example_signed_key_built. }
  split; [exact example_key_returned |]. split; [exact H |].
  apply (returned_fields_from_licenseKeyBytes example_key example_signed_key
           example_key_returned H).
  reflexivity.
Defined.

(** X3: writing a key and reading it back keeps the verdict of
    HasValidSignature: for every LicenseKey whose raw license bytes
    decode, KeyFromBytes(ToBytes(lk)) returns a key on which
    HasValidSignature answers as it does on lk, for every public key and
    every XML decoder. *)
Theorem ToBytes_KeyFromBytes_HasValidSignature (lk : LicenseKey.t) :
  decodable (LicenseKey.licenseKeyBytes lk) ->
  exists lk',
    KeyFromBytes (fst (LicenseKey.ToBytes lk)) = (lk', None)
    /\ forall xml_Unmarshal publicKey,
         LicenseKey.HasValidSignature xml_Unmarshal lk' publicKey
         = LicenseKey.HasValidSignature xml_Unmarshal lk publicKey.
Proof.
  intros Hd. rewrite KeyFromBytes_ToBytes.
  destruct (buildLicenseKey_decodable _ (LicenseKey.signatureBytes lk) Hd)
    as (lk' & H).
  exists lk'. split; [exact H |].
  intros xml pk. destruct (buildLicenseKey_bytes _ _ _ H) as [Hl Hs].
  unfold LicenseKey.HasValidSignature. rewrite Hl, Hs. reflexivity.
Qed.

Lemma example_signed_key_decodable :
  decodable (LicenseKey.licenseKeyBytes example_signed_key).
Proof. vm_compute. reflexivity. Qed.

Lemma ToBytes_KeyFromBytes_HasValidSignature_witness :
  decodable (LicenseKey.licenseKeyBytes example_signed_key)
  /\ exists lk',
       KeyFromBytes (fst (LicenseKey.ToBytes example_signed_key)) = (lk', None)
       /\ forall xml_Unmarshal publicKey,
            LicenseKey.HasValidSignature xml_Unmarshal lk' publicKey
            = LicenseKey.HasValidSignature xml_Unmarshal example_signed_key
                publicKey.
Proof.
  split; [exact example_signed_key_decodable |].
  apply (ToBytes_KeyFromBytes_HasValidSignature example_signed_key).
  exact example_signed_key_decodable.
Defined.

(** ** The activation path and the offline path *)

Lemma makeActivateRequest_request
  (http : bytes -> list (bytes * bytes) -> bytes * option error)
  (token : bytes) (args : KeyActivateArguments.t) :
  makeActivateRequest http token args
  = let (response, err) := http activate_url (activate_form token args) in
    match err with
    | Some e => (activateResponse.zero, Some e)
    | None =>
        let (r, err) :=
          json.Decode activateResponse.decoder response activateResponse.zero in
        match err with
        | Some e => (activateResponse.zero, Some e)
        | None => (r, None)
        end
    end.
Proof. reflexivity. Qed.

(** What KeyActivate does with the body of a response. *)
Lemma KeyActivate_body
  (http : bytes -> list (bytes * bytes) -> bytes * option error)
  (token : bytes) (args : KeyActivateArguments.t) (body : bytes) :
  http activate_url (activate_form token args) = (body, None) ->
  KeyActivate http token args = KeyActivate (answers body) token args.
Proof.
  intros H. unfold KeyActivate. rewrite !makeActivateRequest_request, H.
  reflexivity.
Qed.

(** X4: KeyActivate makes one request, a POST of the nine form values
    token, ProductId, Key, MachineCode, FieldsToReturn,
    FloatingTimeInterval, MaxOverdraft, Sign=true and SignMethod=1 to the
    Activate URL, and its outcome is a function of the answer to it: the
    error of the transport with the zero LicenseKey where the transport
    fails, and what KeyFromBytes returns on the body where the body is
    valid JSON. *)
Theorem KeyActivate_one_request
  (http : bytes -> list (bytes * bytes) -> bytes * option error)
  (token : bytes) (args : KeyActivateArguments.t) (body : bytes)
  (err : option error) :
  http activate_url (activate_form token args) = (body, err) ->
  (forall e, err = Some e ->
             KeyActivate http token args = (LicenseKey.zero, Some e))
  /\ (forall v, err = None -> json.parse body = Some v ->
                KeyActivate http token args = KeyFromBytes body).
Proof.
  intros H. split.
  - intros e ->. unfold KeyActivate.
    rewrite makeActivateRequest_request, H. reflexivity.
  - intros v -> Hv. rewrite (KeyActivate_body _ _ _ _ H).
    apply (KeyActivate_valid_body _ _ _ v Hv).
Qed.

Lemma KeyActivate_one_request_witness :
  let body := J "{'licenseKey':'e30=','signature':'','result':0,'message':''}" in
  let args := KeyActivateArguments.mk 3646 (B "MPDWY-PQAOW-FKSCH-SGAAU")
                (B "289jf2afs3") 0 0 0 in
  answers body activate_url (activate_form (B "token") args) = (body, None)
  /\ KeyActivate (answers body) (B "token") args = KeyFromBytes body
  /\ snd (KeyFromBytes body) = None.
Proof.
  split; [reflexivity |]. split; [| vm_compute; reflexivity].
  refine (proj2 (KeyActivate_one_request
                   (answers (J "{'licenseKey':'e30=','signature':'','result':0,'message':''}"))
                   (B "token")
                   (KeyActivateArguments.mk 3646 (B "MPDWY-PQAOW-FKSCH-SGAAU")
                      (B "289jf2afs3") 0 0 0)
                   _ None eq_refl)
                (json.JObject [(B "licenseKey", json.JString (B "e30="));
                               (B "signature", json.JString []);
                               (B "result", json.JNumber (B "0"));
                               (B "message", json.JString [])])
                eq_refl _).
  vm_compute. reflexivity.
Defined.

(** *** What follows the first value *)

Lemma json_readValue_top (s : json.scanner) (data : bytes) (v : json.value) :
  json.top s = Some v -> json.readValue s data = (Some v, None).
Proof. intros H. destruct data; cbn [json.readValue]; rewrite H; reflexivity. Qed.

(** The stream reader stops where the top-level value is complete. *)
Lemma json_readValue_prefix (a rest : bytes) (s s' : json.scanner)
  (v : json.value) :
  settled s -> json.scanAll s a = Some s' -> json.top s' = Some v ->
  json.readValue s (a ++ rest) = (Some v, None).
Proof.
  revert s. induction a as [| c r IH]; intros s Hs H Ht.
  - cbn [json.scanAll] in H. inversion H; subst s'.
    apply json_readValue_top, Ht.
  - destruct (json.top s) as [v0 |] eqn:Et.
    + destruct (json_scanAll_settled _ _ _ Hs H) as [_ Hk].
      rewrite (Hk _ Et) in Ht. inversion Ht; subst v0.
      apply json_readValue_top, Et.
    + cbn [json.scanAll] in H. cbn [app json.readValue]. rewrite Et.
      destruct (json.scan s c) as [s1 |] eqn:E; [| discriminate].
      destruct (json_scan_settled _ _ _ Hs E) as [Hs1 _].
      apply (IH _ Hs1 H Ht).
Qed.

(** At the end of the input only a number is still to be completed. *)
Lemma json_scan_space_top (s s' : json.scanner) (v : json.value) :
  json.top s = None -> json.scan s " "%byte = Some s' ->
  json.step s' = json.stateEndTop -> json.top s' = Some v ->
  exists lit, v = json.JNumber lit.
Proof.
  destruct s as [st ps t e]. cbn [json.top]. intros -> H Hst Ht.
  unfold json.scan in H. cbn [json.step] in H.
  destruct st;
    unfold json.stateBeginValueOrEmpty_step, json.stateBeginValue_step,
      json.stateBeginStringOrEmpty_step, json.stateBeginString_step,
      json.stateEndValue_step, json.stateEndTop_step,
      json.stateInString_step, json.stateInStringEsc_step,
      json.stateInStringEscU_step, json.stateNeg_step, json.state1_step,
      json.state0_step, json.stateDot_step, json.stateDot0_step,
      json.stateE_step, json.stateESign_step, json.stateE0_step,
      json.stateLiteral_step, json.endNumber, json.stateEndValue_step,
      json.stateEndTop_step, json.popParseState, json.pushParseState,
      json.endValue, json.with_step, json.with_stack in H;
    cbn in H; scan_cases;
    cbn [json.top json.parseState json.step json.err] in *;
    try congruence; inversion Ht; eauto.
Qed.

Lemma json_eof_top_value (s : json.scanner) (v : json.value) :
  settled s -> json.eof s = Some v -> (forall lit, v <> json.JNumber lit) ->
  json.top s = Some v.
Proof.
  intros Hs H Hn. unfold json.eof in H.
  destruct (json.err s); [discriminate |].
  assert (Hscan : forall s', json.scan s (" "%byte) = Some s' ->
                             json.step s' = json.stateEndTop ->
                             json.top s' = Some v -> json.top s = Some v).
  { intros s' E Hst Ht'. destruct (json.top s) as [v0 |] eqn:Et.
    - destruct (json_scan_settled _ _ _ Hs E) as [_ Hk].
      rewrite (Hk _ Et) in Ht'. exact Ht'.
    - destruct (json_scan_space_top _ _ _ Et E Hst Ht') as (lit & ->).
      destruct (Hn lit eq_refl). }
  destruct (json.step s) eqn:Est; try exact H;
    destruct (json.scan s " "%byte) as [s' |]; try discriminate;
    destruct (json.step s') eqn:Est'; try discriminate;
    destruct (json.err s'); try discriminate;
    apply (Hscan s' eq_refl Est' H).
Qed.

(** After the top-level value every byte is read; one that is not white
    space is recorded as an error. *)
Lemma json_scanAll_after_top (rest : bytes) (s : json.scanner) (v : json.value) :
  settled s -> json.top s = Some v ->
  exists s', json.scanAll s rest = Some s'
             /\ json.err s' = json.err s || existsb nonSpace rest.
Proof.
  revert s. induction rest as [| c r IH]; intros s Hs Ht.
  - exists s. cbn. rewrite orb_false_r. auto.
  - assert (E : json.scan s c = json.stateEndTop_step s c).
    { unfold settled in Hs. rewrite Ht in Hs. destruct Hs as [Hp [Hst | Hst]];
        unfold json.scan; rewrite Hst; [| reflexivity].
      unfold json.stateEndValue_step. rewrite Hp. reflexivity. }
    assert (E' : exists s1, json.scan s c = Some s1
                            /\ json.err s1 = json.err s || nonSpace c).
    { rewrite E. unfold json.stateEndTop_step, nonSpace.
      destruct (json.isSpace c); eexists; split; try reflexivity; cbn.
      - rewrite orb_false_r. reflexivity.
      - rewrite orb_true_r. reflexivity. }
    destruct E' as (s1 & E1 & He1).
    destruct (json_scan_settled _ _ _ Hs E1) as [Hs1 Hk].
    destruct (IH s1 Hs1 (Hk _ Ht)) as (s' & H' & He').
    exists s'. cbn [json.scanAll existsb]. rewrite E1. split; [exact H' |].
    rewrite He', He1, orb_assoc. reflexivity.
Qed.

Lemma json_parse_trailing (b rest : bytes) (v : json.value) :
  json.parse b = Some v -> (forall lit, v <> json.JNumber lit) ->
  existsb nonSpace rest = true ->
  json.parse (b ++ rest) = None.
Proof.
  unfold json.parse. intros H Hn Hr.
  destruct (json.scanAll json.reset b) as [s |] eqn:E; [| discriminate].
  destruct (json_scanAll_settled _ json.reset _ I E) as [Hs _].
  pose proof (json_eof_top_value _ _ Hs H Hn) as Ht.
  destruct (json_scanAll_after_top rest _ _ Hs Ht) as (s' & H' & He).
  rewrite json_scanAll_app, E, H'. unfold json.eof.
  rewrite He, Hr, orb_true_r. reflexivity.
Qed.

Lemma json_readValue_trailing (b rest : bytes) (v : json.value) :
  json.parse b = Some v -> (forall lit, v <> json.JNumber lit) ->
  json.readValue json.reset (b ++ rest) = (Some v, None).
Proof.
  unfold json.parse. intros H Hn.
  destruct (json.scanAll json.reset b) as [s |] eqn:E; [| discriminate].
  destruct (json_scanAll_settled _ json.reset _ I E) as [Hs _].
  apply (json_readValue_prefix _ _ _ s); [exact I | exact E |].
  apply (json_eof_top_value _ _ Hs H Hn).
Qed.

(** X5: what follows the response object is ignored on the activation
    path and refused on the offline path: where the body of the response
    starts with a valid JSON object, KeyActivate returns what KeyFromBytes
    returns on that object alone, whatever bytes follow it; KeyFromBytes
    on the object followed by bytes that are not all white space fails
    with a SyntaxError and returns the zero LicenseKey. *)
Theorem trailing_bytes_ignored_by_KeyActivate
  (http : bytes -> list (bytes * bytes) -> bytes * option error)
  (token : bytes) (args : KeyActivateArguments.t) (b rest : bytes)
  (ms : list (bytes * json.value)) :
  json.parse b = Some (json.JObject ms) ->
  http activate_url (activate_form token args) = (b ++ rest, None) ->
  KeyActivate http token args = KeyFromBytes b
  /\ (existsb nonSpace rest = true ->
      KeyFromBytes (b ++ rest) = (LicenseKey.zero, Some json_SyntaxError)).
Proof.
  intros H Hh. split.
  - rewrite (KeyActivate_body _ _ _ _ Hh).
    unfold KeyActivate, makeActivateRequest, KeyFromBytes, answers,
      json.Decode, json.Unmarshal.
    rewrite (json_readValue_trailing _ rest _ H) by discriminate.
    rewrite H.
    destruct (activateResponse.decoder (json.JObject ms) activateResponse.zero)
      as [r [e |]]; reflexivity.
  - intros Hr. unfold KeyFromBytes, json.Unmarshal.
    rewrite (json_parse_trailing _ _ _ H) by (discriminate || exact Hr).
    reflexivity.
Qed.

Lemma trailing_bytes_ignored_by_KeyActivate_witness :
  let b := J "{'licenseKey':'e30=','signature':'','result':0,'message':''}" in
  let rest := B "<html>" in
  let args := KeyActivateArguments.mk 3646 [] [] 0 0 0 in
  KeyActivate (answers (b ++ rest)) [] args = KeyFromBytes b
  /\ snd (KeyFromBytes b) = None
  /\ KeyFromBytes (b ++ rest) = (LicenseKey.zero, Some json_SyntaxError).
Proof.
  pose proof
    (trailing_bytes_ignored_by_KeyActivate
       (answers (J "{'licenseKey':'e30=','signature':'','result':0,'message':''}"
                   ++ B "<html>"))
       [] (KeyActivateArguments.mk 3646 [] [] 0 0 0)
       (J "{'licenseKey':'e30=','signature':'','result':0,'message':''}")
       (B "<html>")
       [(B "licenseKey", json.JString (B "e30="));
        (B "signature", json.JString []);
        (B "result", json.JNumber (B "0"));
        (B "message", json.JString [])]) as H.
  destruct H as [H1 H2]; [vm_compute; reflexivity | reflexivity |].
  split; [exact H1 |]. split; [vm_compute; reflexivity |].
  apply H2. reflexivity.
Defined.

(** *** A body with no value *)

Lemma json_scan_blank (c : byte) :
  json.isSpace c = true -> json.scan json.reset c = Some json.reset.
Proof.
  intros H. unfold json.scan, json.reset. cbn [json.step].
  unfold json.stateBeginValue_step. rewrite H. reflexivity.
Qed.

Lemma json_readValue_blank (body : bytes) :
  forallb json.isSpace body = true ->
  json.readValue json.reset body = (None, Some io_EOF).
Proof.
  induction body as [| c r IH]; intros H.
  - reflexivity.
  - cbn [forallb] in H. apply andb_prop in H. destruct H as [Hc Hr].
    cbn [json.readValue]. change (json.top json.reset) with (@None json.value).
    cbv iota. rewrite (json_scan_blank _ Hc). apply IH, Hr.
Qed.

Lemma json_parse_blank (body : bytes) :
  forallb json.isSpace body = true -> json.parse body = None.
Proof.
  intros H. unfold json.parse.
  assert (E : json.scanAll json.reset body = Some json.reset).
  { induction body as [| c r IH]; [reflexivity |].
    cbn [forallb] in H. apply andb_prop in H. destruct H as [Hc Hr].
    cbn [json.scanAll]. rewrite (json_scan_blank _ Hc). apply IH, Hr. }
  rewrite E. reflexivity.
Qed.

(** X6: a body that holds no value, empty or white space only, fails on
    both paths with the zero LicenseKey, and with different errors:
    KeyActivate returns io.EOF, KeyFromBytes a SyntaxError. *)
Theorem blank_body_errors
  (http : bytes -> list (bytes * bytes) -> bytes * option error)
  (token : bytes) (args : KeyActivateArguments.t) (body : bytes) :
  forallb json.isSpace body = true ->
  http activate_url (activate_form token args) = (body, None) ->
  KeyActivate http token args = (LicenseKey.zero, Some io_EOF)
  /\ KeyFromBytes body = (LicenseKey.zero, Some json_SyntaxError).
Proof.
  intros H Hh. split.
  - rewrite (KeyActivate_body _ _ _ _ Hh).
    unfold KeyActivate, makeActivateRequest, answers, json.Decode.
    rewrite (json_readValue_blank _ H). reflexivity.
  - unfold KeyFromBytes, json.Unmarshal. rewrite (json_parse_blank _ H).
    reflexivity.
Qed.

Lemma blank_body_errors_witness :
  KeyActivate (answers []) [] (KeyActivateArguments.mk 0 [] [] 0 0 0)
  = (LicenseKey.zero, Some io_EOF)
  /\ KeyFromBytes [] = (LicenseKey.zero, Some json_SyntaxError).
Proof.
  apply (blank_body_errors (answers []) []
           (KeyActivateArguments.mk 0 [] [] 0 0 0) []); reflexivity.
Defined.

(** ** The errors the client returns *)

Lemma first_of_errors (es : list (option error)) :
  Forall type_error_or_none es -> type_error_or_none (json.first_of es).
Proof.
  induction 1 as [| e r He _ IH]; cbn [json.first_of].
  - left. reflexivity.
  - apply first_error_type; assumption.
Qed.

Lemma decode_elems_errors (T : Type) (zero : T) (dec : json.decoder T)
  (es : list json.value) (cur : list T) :
  (forall v x, type_error_or_none (snd (dec v x))) ->
  type_error_or_none (snd (json.decode_elems zero dec es cur)).
Proof.
  intros Hd. revert cur. induction es as [| e r IH]; intros cur;
    cbn [json.decode_elems].
  - left. reflexivity.
  - pose proof (Hd e (hd zero cur)) as H1. pose proof (IH (tl cur)) as H2.
    destruct (dec e (hd zero cur)) as [x e1].
    destruct (json.decode_elems zero dec r (tl cur)) as [xs e2].
    cbn [snd] in *. apply first_error_type; assumption.
Qed.

Lemma decode_slice_errors (T : Type) (zero : T) (dec : json.decoder T)
  (v : json.value) (cur : list T) :
  (forall v x, type_error_or_none (snd (dec v x))) ->
  type_error_or_none (snd (json.decode_slice zero dec v cur)).
Proof.
  intros Hd. destruct v; cbn [json.decode_slice snd];
    try (right; reflexivity); try (left; reflexivity).
  apply decode_elems_errors, Hd.
Qed.

Ltac field_errors :=
  repeat match goal with
         | |- context [json.field ?n ?f ?d ?m ?c] =>
             let H := fresh "H" in
             assert (H : type_error_or_none (snd (json.field n f d m c)))
               by (apply json_field_errors; intros;
                   first [ apply decode_string_errors
                         | apply decode_bool_errors
                         | apply decode_int64_errors ]);
             destruct (json.field n f d m c)
         end;
  cbn [snd json.first_of] in *;
  repeat apply first_error_type; try assumption; try (left; reflexivity).

Lemma DataObject_decoder_errors (v : json.value) (x : DataObject.t) :
  type_error_or_none (snd (DataObject.decoder v x)).
Proof.
  destruct v; cbn [DataObject.decoder snd];
    try (right; reflexivity); try (left; reflexivity).
  field_errors.
Qed.

Lemma ActivationData_decoder_errors (v : json.value) (x : ActivationData.t) :
  type_error_or_none (snd (ActivationData.decoder v x)).
Proof.
  unfold ActivationData.decoder, ActivationData.UnmarshalJSON.
  assert (H : type_error_or_none
                (snd (ActivationData.temp.decoder v ActivationData.temp.zero))).
  { destruct v; cbn [ActivationData.temp.decoder snd];
      try (right; reflexivity); try (left; reflexivity).
    field_errors. }
  destruct (ActivationData.temp.decoder v ActivationData.temp.zero) as [t [e |]];
    cbn [snd] in *; [exact H | left; reflexivity].
Qed.

Lemma Customer_decoder_errors (v : json.value) (x : Customer.t) :
  type_error_or_none (snd (Customer.decoder v x)).
Proof.
  unfold Customer.decoder, Customer.UnmarshalJSON.
  assert (H : type_error_or_none
                (snd (Customer.temp.decoder v Customer.temp.zero))).
  { destruct v; cbn [Customer.temp.decoder snd];
      try (right; reflexivity); try (left; reflexivity).
    field_errors. }
  destruct (Customer.temp.decoder v Customer.temp.zero) as [t [e |]];
    cbn [snd] in *; [exact H | left; reflexivity].
Qed.

Lemma LicenseKey_temp_decoder_type_errors (v : json.value)
  (x : LicenseKey.temp.t) :
  type_error_or_none (snd (LicenseKey.temp.decoder v x)).
Proof.
  destruct v; cbn [LicenseKey.temp.decoder snd];
    try (right; reflexivity); try (left; reflexivity).
  apply first_of_errors.
  repeat (apply Forall_cons;
          [ apply json_field_errors; intros;
            first [ apply decode_string_errors
                  | apply decode_bool_errors
                  | apply decode_int64_errors
                  | apply Customer_decoder_errors
                  | apply decode_slice_errors; intros;
                    first [ apply ActivationData_decoder_errors
                          | apply DataObject_decoder_errors ] ] |]).
  apply Forall_nil.
Qed.

Lemma LicenseKey_decoder_errors (v : json.value) (x : LicenseKey.t) :
  type_error_or_none (snd (LicenseKey.decoder v x)).
Proof.
  unfold LicenseKey.decoder, LicenseKey.UnmarshalJSON.
  pose proof (LicenseKey_temp_decoder_type_errors v LicenseKey.temp.zero) as H.
  destruct (LicenseKey.temp.decoder v LicenseKey.temp.zero) as [t [e |]];
    cbn [snd] in *; [exact H | left; reflexivity].
Qed.

Lemma activateResponse_decoder_errors (v : json.value) (x : activateResponse.t) :
  type_error_or_none (snd (activateResponse.decoder v x)).
Proof.
  destruct v; cbn [activateResponse.decoder snd];
    try (right; reflexivity); try (left; reflexivity).
  field_errors.
Qed.

Lemma buildLicenseKey_error (lic sig : bytes) (k : LicenseKey.t) (e : error) :
  buildLicenseKey lic sig = (k, Some e) ->
  k = LicenseKey.zero /\ (e = json_SyntaxError \/ e = json_UnmarshalTypeError).
Proof.
  unfold buildLicenseKey, json.Unmarshal.
  destruct (json.parse lic) as [v |].
  - pose proof (LicenseKey_decoder_errors v LicenseKey.zero) as H.
    destruct (LicenseKey.decoder v LicenseKey.zero) as [k' [e' |]];
      cbn [snd] in H; intros E; inversion E; subst.
    destruct H as [H | H]; [discriminate | inversion H; auto].
  - intros E; inversion E; auto.
Qed.

Lemma base64_decode_errors (src : bytes) (dbuf : list Z) :
  snd (base64.decode src dbuf) = None
  \/ snd (base64.decode src dbuf) = Some base64_CorruptInputError.
Proof.
  revert dbuf. induction src as [| c r IH]; intros dbuf; cbn [base64.decode].
  - destruct dbuf; cbn; auto.
  - repeat match goal with
           | |- context [if ?b then _ else _] => destruct b
           | |- context [match base64.skip_newlines ?x with _ => _ end] =>
               destruct (base64.skip_newlines x)
           | |- context [match ?d with [] => _ | _ => _ end] =>
               is_var d; destruct d
           | |- context [let (_, _) := base64.decode r ?d in _] =>
               let H := fresh "H" in
               pose proof (IH d) as H; destruct (base64.decode r d)
           end; cbn [snd] in *; auto.
Qed.

Lemma parseActivateResponse_error (r : activateResponse.t) (lic sig : bytes)
  (e : error) :
  parseActivateResponse r = (lic, sig, Some e) ->
  lic = [] /\ sig = [] /\ e = base64_CorruptInputError.
Proof.
  unfold parseActivateResponse, base64.DecodeString.
  pose proof (base64_decode_errors (activateResponse.LicenseKey r) []) as H1.
  pose proof (base64_decode_errors (activateResponse.Signature r) []) as H2.
  destruct (base64.decode (activateResponse.LicenseKey r) []) as [l [e1 |]];
    cbn [snd] in H1.
  - intros E; inversion E; subst. destruct H1 as [H1 | H1]; [discriminate |].
    inversion H1; auto.
  - destruct (base64.decode (activateResponse.Signature r) []) as [s [e2 |]];
      cbn [snd] in H2; intros E; inversion E; subst.
    destruct H2 as [H2 | H2]; [discriminate |]. inversion H2; auto.
Qed.

(** What is done with a decoded response, on both paths. *)
Lemma response_error (r : activateResponse.t) (k : LicenseKey.t) (e : error) :
  (let '(licenseKeyBytes, signatureBytes, err) := parseActivateResponse r in
   match err with
   | Some e => (LicenseKey.zero, Some e)
   | None => buildLicenseKey licenseKeyBytes signatureBytes
   end) = (k, Some e) ->
  k = LicenseKey.zero /\ offline_error e.
Proof.
  destruct (parseActivateResponse r) as [[lic sg] [e' |]] eqn:E.
  - apply parseActivateResponse_error in E. destruct E as (_ & _ & ->).
    intros H; inversion H; subst. unfold offline_error. auto.
  - intros H. apply buildLicenseKey_error in H. unfold offline_error. tauto.
Qed.

(** X7: KeyFromBytes fails in three ways only, and a failure returns no
    part of a key: whenever it returns an error, the LicenseKey it returns
    is the zero value and the error is a SyntaxError or an
    UnmarshalTypeError of encoding/json or a CorruptInputError of
    encoding/base64. *)
Theorem KeyFromBytes_failure (b : bytes) (k : LicenseKey.t) (e : error) :
  KeyFromBytes b = (k, Some e) -> k = LicenseKey.zero /\ offline_error e.
Proof.
  unfold KeyFromBytes, json.Unmarshal.
  destruct (json.parse b) as [v |].
  - pose proof (activateResponse_decoder_errors v activateResponse.zero) as H.
    destruct (activateResponse.decoder v activateResponse.zero) as [r [e' |]];
      cbn [snd] in H.
    + intros E; inversion E; subst. unfold offline_error.
      destruct H as [H | H]; [discriminate | inversion H; auto].
    + apply response_error.
  - intros E; inversion E; subst. unfold offline_error. auto.
Qed.

Lemma KeyFromBytes_failure_witness :
  KeyFromBytes (J "{'licenseKey':'e30'}")
  = (LicenseKey.zero, Some base64_CorruptInputError)
  /\ offline_error base64_CorruptInputError.
Proof.
  assert (H : KeyFromBytes (J "{'licenseKey':'e30'}")
              = (LicenseKey.zero, Some base64_CorruptInputError))
    by (vm_compute; reflexivity).
  split; [exact H |].
  exact (proj2 (KeyFromBytes_failure _ _ _ H)).
Defined.

(** ** Strings that are not base64 *)

Lemma base64_skip_newlines_foreign (src : bytes) :
  existsb foreign src = true ->
  existsb foreign (base64.skip_newlines src) = true.
Proof.
  induction src as [| c r IH]; cbn [existsb base64.skip_newlines]; [auto |].
  unfold foreign at 1. destruct (base64.is_newline c) eqn:En.
  - rewrite andb_false_r. cbn [andb orb]. exact IH.
  - intros H. cbn [existsb]. unfold foreign at 1. rewrite En. exact H.
Qed.

Lemma base64_decode_foreign (src : bytes) (dbuf : list Z) :
  existsb foreign src = true ->
  snd (base64.decode src dbuf) = Some base64_CorruptInputError.
Proof.
  revert dbuf. induction src as [| c r IH]; intros dbuf; cbn [existsb];
    [discriminate |].
  unfold foreign at 1. cbn [base64.decode].
  destruct (base64.decodeMap c =? 255) eqn:Ed; cbn [negb andb].
  - destruct (base64.is_newline c) eqn:En; cbn [negb andb orb].
    + apply IH.
    + destruct (Byte.eqb c base64.StdPadding) eqn:Ep; cbn [negb orb];
        [| reflexivity].
      intros H. apply base64_skip_newlines_foreign in H.
      destruct dbuf as [| d0 [| d1 [| d2 dbuf]]]; try reflexivity.
      * destruct (base64.skip_newlines r) as [| c1 r1]; [reflexivity |].
        cbn [existsb] in H. unfold foreign at 1 in H.
        destruct (Byte.eqb c1 base64.StdPadding); cbn [negb]; [| reflexivity].
        rewrite andb_false_r in H. cbn [orb] in H.
        apply base64_skip_newlines_foreign in H.
        destruct (base64.skip_newlines r1); [discriminate | reflexivity].
      * destruct (base64.skip_newlines r); [discriminate | reflexivity].
  - cbn [orb]. intros H.
    destruct ((List.length (dbuf ++ [base64.decodeMap c]) =? 4)%nat).
    + specialize (IH [] H). destruct (base64.decode r []) as [tl e].
      exact IH.
    + apply IH, H.
Qed.

Lemma base64_DecodeString_foreign (s : bytes) :
  existsb foreign s = true ->
  exists out, base64.DecodeString s = (out, Some base64_CorruptInputError).
Proof.
  intros H. unfold base64.DecodeString.
  pose proof (base64_decode_foreign s [] H) as E.
  destruct (base64.decode s []) as [out e]. cbn [snd] in E. subst e. eauto.
Qed.

(** X9: a response whose licenseKey or signature string holds a byte
    that is not of the base64 alphabet, a padding character or a line
    break is refused: parseActivateResponse returns two empty slices and
    a CorruptInputError, and KeyFromBytes on a blob that decodes to this
    response returns the zero LicenseKey with that error. *)
Theorem parseActivateResponse_foreign_byte (b : bytes) (r : activateResponse.t) :
  json.Unmarshal activateResponse.decoder b activateResponse.zero = (r, None) ->
  existsb foreign (activateResponse.LicenseKey r) = true
  \/ existsb foreign (activateResponse.Signature r) = true ->
  parseActivateResponse r = ([], [], Some base64_CorruptInputError)
  /\ KeyFromBytes b = (LicenseKey.zero, Some base64_CorruptInputError).
Proof.
  intros Hu H.
  assert (E : parseActivateResponse r = ([], [], Some base64_CorruptInputError)).
  { unfold parseActivateResponse.
    destruct (base64.DecodeString (activateResponse.LicenseKey r))
      as [l [e1 |]] eqn:E1.
    - pose proof (base64_decode_errors (activateResponse.LicenseKey r) []) as He.
      unfold base64.DecodeString in E1. rewrite E1 in He. cbn [snd] in He.
      destruct He as [He | He]; [discriminate | inversion He; reflexivity].
    - destruct H as [H | H].
      + destruct (base64_DecodeString_foreign _ H) as (out & E).
        rewrite E in E1. discriminate.
      + destruct (base64_DecodeString_foreign _ H) as (out & ->). reflexivity. }
  split; [exact E |]. unfold KeyFromBytes. rewrite Hu, E. reflexivity.
Qed.

Lemma parseActivateResponse_foreign_byte_witness :
  let b := J "{'licenseKey':'e30=','signature':'c2ln*A=='}" in
  let r := activateResponse.mk (B "e30=") (B "c2ln*A==") 0 [] in
  json.Unmarshal activateResponse.decoder b activateResponse.zero = (r, None)
  /\ parseActivateResponse r = ([], [], Some base64_CorruptInputError)
  /\ KeyFromBytes b = (LicenseKey.zero, Some base64_CorruptInputError).
Proof.
  split; [vm_compute; reflexivity |].
  apply (parseActivateResponse_foreign_byte
           (J "{'licenseKey':'e30=','signature':'c2ln*A=='}")
           (activateResponse.mk (B "e30=") (B "c2ln*A==") 0 []));
    [vm_compute; reflexivity | right; vm_compute; reflexivity].
Defined.

(** ** The members of the license payload *)

Lemma json_field_app (T : Type) (names : list bytes) (name : bytes)
  (dec : json.decoder T) (ms1 ms2 : list (bytes * json.value)) (cur : T) :
  json.field names name dec (ms1 ++ ms2) cur
  = fold_left
      (fun acc m =>
         if json.selects names (fst m) name then
           let (x, e) := dec (snd m) (fst acc) in
           (x, json.first_error (snd acc) e)
         else acc)
      ms2 (json.field names name dec ms1 cur).
Proof. unfold json.field. apply fold_left_app. Qed.

(** A member that does not select a field leaves it as it is. *)
Lemma json_field_skip (T : Type) (names : list bytes) (name : bytes)
  (dec : json.decoder T) (ms1 ms2 : list (bytes * json.value)) (key : bytes)
  (x : json.value) (cur : T) :
  json.selects names key name = false ->
  json.field names name dec (ms1 ++ (key, x) :: ms2) cur
  = json.field names name dec (ms1 ++ ms2) cur.
Proof.
  intros H. rewrite !json_field_app. cbn [fold_left fst]. rewrite H.
  reflexivity.
Qed.

Lemma selects_unknown (names : list bytes) (key name : bytes) :
  json.fieldName names key = None -> json.selects names key name = false.
Proof. unfold json.selects. intros ->. reflexivity. Qed.

(** An error stored for a field stays. *)
Lemma json_field_error_stays (T : Type) (names : list bytes) (name : bytes)
  (dec : json.decoder T) (ms : list (bytes * json.value)) (acc : T * option error) :
  snd acc <> None ->
  snd (fold_left
         (fun acc m =>
            if json.selects names (fst m) name then
              let (x, e) := dec (snd m) (fst acc) in
              (x, json.first_error (snd acc) e)
            else acc)
         ms acc) <> None.
Proof.
  revert acc. induction ms as [| m r IH]; intros acc H; cbn [fold_left];
    [exact H |].
  apply IH. destruct (json.selects names (fst m) name); [| exact H].
  destruct (dec (snd m) (fst acc)) as [x e]. cbn [snd].
  destruct (snd acc); [discriminate | contradiction].
Qed.

(** A member that selects a field and does not decode into it is an
    error of the field. *)
Lemma json_field_error_member (T : Type) (names : list bytes) (name : bytes)
  (dec : json.decoder T) (ms : list (bytes * json.value)) (key : bytes)
  (x : json.value) (cur : T) :
  In (key, x) ms -> json.selects names key name = true ->
  (forall c, snd (dec x c) <> None) ->
  snd (json.field names name dec ms cur) <> None.
Proof.
  intros Hin Hs Hd. apply in_split in Hin. destruct Hin as (ms1 & ms2 & ->).
  rewrite json_field_app. cbn [fold_left fst snd]. rewrite Hs.
  apply json_field_error_stays.
  pose proof (Hd (fst (json.field names name dec ms1 cur))) as H.
  destruct (dec x (fst (json.field names name dec ms1 cur))) as [y e].
  cbn [snd] in *. destruct (snd (json.field names name dec ms1 cur));
    [discriminate | exact H].
Qed.

Lemma first_of_None (es : list (option error)) :
  json.first_of es = None -> Forall (eq None) es.
Proof.
  induction es as [| e r IH]; cbn [json.first_of]; intros H; constructor.
  - apply first_error_None in H. symmetry. apply H.
  - apply IH. apply first_error_None in H. apply H.
Qed.

Lemma decode_bool_ill_typed (x : json.value) (c : bool) :
  bool_value x = false -> snd (json.decode_bool x c) <> None.
Proof. destruct x; cbn; congruence. Qed.

Lemma decode_int64_ill_typed (x : json.value) (c : Z) :
  int_value x = false -> snd (json.decode_int64 x c) <> None.
Proof.
  destruct x; cbn; try congruence.
  destruct (strconv.ParseInt lit); cbn; congruence.
Qed.

Lemma decode_string_ill_typed (x : json.value) (c : bytes) :
  string_value x = false -> snd (json.decode_string x c) <> None.
Proof. destruct x; cbn; congruence. Qed.

Lemma mem_In (name : bytes) (l : list bytes) : mem name l = true -> In name l.
Proof.
  unfold mem. intros H. apply existsb_exists in H. destruct H as (n & Hn & E).
  apply bytes_eqb_eq in E. subst. exact Hn.
Qed.

Ltac error_listed :=
  cbn [In]; repeat (first [left; reflexivity | right]).

Ltac field_fails Hall Hin Hs lemma :=
  match goal with
  | Hv : _ = false |- False =>
      match type of Hs with
      | json.selects _ _ ?name = true =>
          refine (json_field_error_member _ LicenseKey.temp.names name _ _ _ _ _
                    Hin Hs (fun c => lemma _ c Hv) _);
          symmetry; apply Hall; error_listed
      end
  end.

(** A member of the wrong type for the field it selects is an error of
    the payload. *)
Lemma LicenseKey_temp_decoder_ill_typed (ms : list (bytes * json.value))
  (key name : bytes) (x : json.value) :
  In (key, x) ms ->
  json.selects LicenseKey.temp.names key name = true ->
  ill_typed name x = true ->
  snd (LicenseKey.temp.decoder (json.JObject ms) LicenseKey.temp.zero)
  = Some json_UnmarshalTypeError.
Proof.
  intros Hin Hs Hi.
  pose proof (LicenseKey_temp_decoder_type_errors (json.JObject ms)
                LicenseKey.temp.zero) as [He | He]; [exfalso | exact He].
  cbn [LicenseKey.temp.decoder snd] in He. apply first_of_None in He.
  rewrite Forall_forall in He.
  unfold ill_typed in Hi.
  apply orb_prop in Hi. destruct Hi as [Hi | Hi];
    [apply orb_prop in Hi; destruct Hi as [Hi | Hi] |];
    apply andb_prop in Hi; destruct Hi as [Hm Hv];
    apply negb_true_iff in Hv; apply mem_In in Hm.
  - cbn [bool_fields In] in Hm.
    repeat (destruct Hm as [<- | Hm];
            [field_fails He Hin Hs decode_bool_ill_typed |]).
    exact Hm.
  - cbn [int_fields In] in Hm.
    repeat (destruct Hm as [<- | Hm];
            [field_fails He Hin Hs decode_int64_ill_typed |]).
    exact Hm.
  - cbn [string_fields In] in Hm.
    repeat (destruct Hm as [<- | Hm];
            [field_fails He Hin Hs decode_string_ill_typed |]).
    exact Hm.
Qed.

(** X10: a member of the wrong type fails the whole payload: where a
    member of the payload object selects a boolean, integer or string
    field of the license and its value is of another JSON type (for an
    integer field, also a number that is not an integer of 64 bits),
    buildLicenseKey returns an UnmarshalTypeError and the zero
    LicenseKey; no field keeps what the other members hold. *)
Theorem ill_typed_member_fails (b sig : bytes)
  (ms : list (bytes * json.value)) (key name : bytes) (x : json.value) :
  json.parse b = Some (json.JObject ms) ->
  In (key, x) ms ->
  json.selects LicenseKey.temp.names key name = true ->
  ill_typed name x = true ->
  buildLicenseKey b sig = (LicenseKey.zero, Some json_UnmarshalTypeError).
Proof.
  intros Hp Hin Hs Hi.
  pose proof (LicenseKey_temp_decoder_ill_typed _ _ _ _ Hin Hs Hi) as He.
  unfold buildLicenseKey, json.Unmarshal. rewrite Hp.
  unfold LicenseKey.decoder, LicenseKey.UnmarshalJSON.
  destruct (LicenseKey.temp.decoder (json.JObject ms) LicenseKey.temp.zero)
    as [t e].
  cbn [snd] in He. subst e. reflexivity.
Qed.

Lemma ill_typed_member_fails_witness :
  let b := J "{'ProductId':3646,'F1':'true','Period':30}" in
  json.parse b
  = Some (json.JObject [(B "ProductId", json.JNumber (B "3646"));
                        (B "F1", json.JString (B "true"));
                        (B "Period", json.JNumber (B "30"))])
  /\ buildLicenseKey b [] = (LicenseKey.zero, Some json_UnmarshalTypeError).
Proof.
  split; [vm_compute; reflexivity |].
  apply (ill_typed_member_fails
           (J "{'ProductId':3646,'F1':'true','Period':30}") []
           [(B "ProductId", json.JNumber (B "3646"));
            (B "F1", json.JString (B "true"));
            (B "Period", json.JNumber (B "30"))]
           (B "F1") (B "F1") (json.JString (B "true")));
    [vm_compute; reflexivity | right; left; reflexivity
    | vm_compute; reflexivity | vm_compute; reflexivity].
Defined.

Lemma LicenseKey_temp_decoder_skip (ms1 ms2 : list (bytes * json.value))
  (key : bytes) (x : json.value) (cur : LicenseKey.temp.t) :
  json.fieldName LicenseKey.temp.names key = None ->
  LicenseKey.temp.decoder (json.JObject (ms1 ++ (key, x) :: ms2)) cur
  = LicenseKey.temp.decoder (json.JObject (ms1 ++ ms2)) cur.
Proof.
  intros H. cbn [LicenseKey.temp.decoder].
  rewrite !json_field_skip by (apply selects_unknown, H). reflexivity.
Qed.

(** X11: members the license does not know are ignored: a member whose
    key selects no field of the payload, whatever its value, changes
    neither the exported fields buildLicenseKey returns nor its error. *)
Theorem unknown_member_ignored (b1 b2 sig1 sig2 : bytes)
  (ms1 ms2 : list (bytes * json.value)) (key : bytes) (x : json.value) :
  json.parse b1 = Some (json.JObject (ms1 ++ (key, x) :: ms2)) ->
  json.parse b2 = Some (json.JObject (ms1 ++ ms2)) ->
  json.fieldName LicenseKey.temp.names key = None ->
  exported (fst (buildLicenseKey b1 sig1)) = exported (fst (buildLicenseKey b2 sig2))
  /\ snd (buildLicenseKey b1 sig1) = snd (buildLicenseKey b2 sig2).
Proof.
  intros H1 H2 Hk. unfold buildLicenseKey, json.Unmarshal. rewrite H1, H2.
  unfold LicenseKey.decoder, LicenseKey.UnmarshalJSON.
  rewrite (LicenseKey_temp_decoder_skip _ _ _ _ _ Hk).
  destruct (LicenseKey.temp.decoder (json.JObject (ms1 ++ ms2))
              LicenseKey.temp.zero) as [t [e |]]; split; reflexivity.
Qed.

Lemma unknown_member_ignored_witness :
  let b1 := J "{'ProductId':3646,'Reseller':{'Id':[1,2]},'F1':true}" in
  let b2 := J "{'ProductId':3646,'F1':true}" in
  exported (fst (buildLicenseKey b1 [])) = exported (fst (buildLicenseKey b2 []))
  /\ snd (buildLicenseKey b1 []) = None
  /\ LicenseKey.F1 (fst (buildLicenseKey b1 [])) = true.
Proof.
  split; [| split; vm_compute; reflexivity].
  refine (proj1 (unknown_member_ignored
                   (J "{'ProductId':3646,'Reseller':{'Id':[1,2]},'F1':true}")
                   (J "{'ProductId':3646,'F1':true}") [] []
                   [(B "ProductId", json.JNumber (B "3646"))]
                   [(B "F1", json.JBool true)]
                   (B "Reseller")
                   (json.JObject
                      [(B "Id", json.JArray [json.JNumber (B "1");
                                             json.JNumber (B "2")])])
                   _ _ _));
    vm_compute; reflexivity.
Defined.

(** ** The plain fields of the license *)

Lemma LicenseKey_temp_decoder_plain_fields (v : json.value)
  (temp : LicenseKey.temp.t) (e : option error) :
  LicenseKey.temp.decoder v LicenseKey.temp.zero = (temp, e) ->
  LicenseKey.temp.ProductId temp = payload (B "ProductId") json.decode_int 0 v
  /\ LicenseKey.temp.Id temp = payload (B "Id") json.decode_int 0 v
  /\ LicenseKey.temp.Key temp = payload (B "Key") json.decode_string [] v
  /\ LicenseKey.temp.Period temp = payload (B "Period") json.decode_int 0 v
  /\ LicenseKey.temp.F1 temp = payload (B "F1") json.decode_bool false v
  /\ LicenseKey.temp.F2 temp = payload (B "F2") json.decode_bool false v
  /\ LicenseKey.temp.F3 temp = payload (B "F3") json.decode_bool false v
  /\ LicenseKey.temp.F4 temp = payload (B "F4") json.decode_bool false v
  /\ LicenseKey.temp.F5 temp = payload (B "F5") json.decode_bool false v
  /\ LicenseKey.temp.F6 temp = payload (B "F6") json.decode_bool false v
  /\ LicenseKey.temp.F7 temp = payload (B "F7") json.decode_bool false v
  /\ LicenseKey.temp.F8 temp = payload (B "F8") json.decode_bool false v
  /\ LicenseKey.temp.Notes temp = payload (B "Notes") json.decode_string [] v
  /\ LicenseKey.temp.Block temp = payload (B "Block") json.decode_bool false v
  /\ LicenseKey.temp.GlobalId temp = payload (B "GlobalId") json.decode_int64 0 v
  /\ LicenseKey.temp.TrialActivation temp = payload (B "TrialActivation") json.decode_bool false v
  /\ LicenseKey.temp.MaxNoOfMachines temp = payload (B "MaxNoOfMachines") json.decode_int 0 v
  /\ LicenseKey.temp.DataObjects temp = payload (B "DataObjects") (json.decode_slice DataObject.zero DataObject.decoder) [] v.
Proof.
  destruct v; unfold payload; cbn [LicenseKey.temp.decoder payload_in];
    intros H; inversion H; subst; clear H;
    cbn [LicenseKey.temp.ProductId LicenseKey.temp.Id LicenseKey.temp.Key LicenseKey.temp.Period
         LicenseKey.temp.F1 LicenseKey.temp.F2 LicenseKey.temp.F3 LicenseKey.temp.F4 LicenseKey.temp.F5 LicenseKey.temp.F6 LicenseKey.temp.F7 LicenseKey.temp.F8
         LicenseKey.temp.Notes LicenseKey.temp.Block LicenseKey.temp.GlobalId LicenseKey.temp.TrialActivation LicenseKey.temp.MaxNoOfMachines LicenseKey.temp.DataObjects
         LicenseKey.temp.zero];
    repeat split; reflexivity.
Qed.

Lemma json_field_pair (T : Type) (p : T * option error) :
  None = snd p -> p = (fst p, None).
Proof. destruct p as [x e]. cbn [fst snd]. intros <-. reflexivity. Qed.

(** For a payload read with success, every plain field of the license
    is what the members of the payload decode to, with no error. *)
Lemma buildLicenseKey_plain (b sig : bytes) (lk : LicenseKey.t)
  (ms : list (bytes * json.value)) :
  buildLicenseKey b sig = (lk, None) ->
  json.parse b = Some (json.JObject ms) ->
  Forall (fun p => json.field LicenseKey.temp.names (fst p) json.decode_int ms 0
                   = (snd p, None)) (plain_ints lk)
  /\ Forall (fun p => json.field LicenseKey.temp.names (fst p) json.decode_bool
                        ms false = (snd p, None)) (plain_bools lk)
  /\ Forall (fun p => json.field LicenseKey.temp.names (fst p) json.decode_string
                        ms [] = (snd p, None)) (plain_strings lk).
Proof.
  intros Hb Hp.
  destruct (buildLicenseKey_payload _ _ _ Hb) as (v' & k & Hp' & Hk & ->).
  rewrite Hp in Hp'. inversion Hp'; subst v'; clear Hp'.
  unfold LicenseKey.UnmarshalJSON in Hk.
  destruct (LicenseKey.temp.decoder (json.JObject ms) LicenseKey.temp.zero)
    as [temp [e |]] eqn:E; inversion Hk; subst; clear Hk.
  assert (He : snd (LicenseKey.temp.decoder (json.JObject ms)
                      LicenseKey.temp.zero) = None) by (rewrite E; reflexivity).
  assert (Et : temp = fst (LicenseKey.temp.decoder (json.JObject ms)
                             LicenseKey.temp.zero)) by (rewrite E; reflexivity).
  clear E. cbn [LicenseKey.temp.decoder snd] in He.
  cbn [LicenseKey.temp.decoder fst] in Et.
  apply first_of_None in He. rewrite Forall_forall in He. subst temp.
  unfold plain_ints, plain_bools, plain_strings.
  cbn [LicenseKey.ProductId LicenseKey.Id LicenseKey.Key LicenseKey.Period
       LicenseKey.F1 LicenseKey.F2 LicenseKey.F3 LicenseKey.F4 LicenseKey.F5
       LicenseKey.F6 LicenseKey.F7 LicenseKey.F8 LicenseKey.Notes
       LicenseKey.Block LicenseKey.GlobalId LicenseKey.TrialActivation
       LicenseKey.MaxNoOfMachines LicenseKey.with_bytes
       LicenseKey.temp.ProductId LicenseKey.temp.Id LicenseKey.temp.Key
       LicenseKey.temp.Period LicenseKey.temp.F1 LicenseKey.temp.F2
       LicenseKey.temp.F3 LicenseKey.temp.F4 LicenseKey.temp.F5
       LicenseKey.temp.F6 LicenseKey.temp.F7 LicenseKey.temp.F8
       LicenseKey.temp.Notes LicenseKey.temp.Block LicenseKey.temp.GlobalId
       LicenseKey.temp.TrialActivation LicenseKey.temp.MaxNoOfMachines
       LicenseKey.temp.zero].
  split; [| split];
    repeat (apply Forall_cons;
            [cbn [fst snd]; apply json_field_pair, He; error_listed |]);
    apply Forall_nil.
Qed.

(** X12: the plain fields of the license hold what the payload writes
    for them.  For every payload parsed with success and every member of
    it that is the last to select a field: where the field is ProductId,
    Id, Period, GlobalId or MaxNoOfMachines and the member is a number,
    the field is the integer the number reads as; where the field is one
    of F1 to F8, Block or TrialActivation and the member is true or
    false, the field is that boolean; where the field is Key or Notes and
    the member is a string, the field is that string.  A field no member
    selects is 0, false or the empty string.  The raw bytes kept are the
    payload and the signature given. *)
Theorem UnmarshalJSON_plain_fields (b sig : bytes) (lk : LicenseKey.t)
  (v : json.value) :
  buildLicenseKey b sig = (lk, None) ->
  json.parse b = Some v ->
  (forall ms1 key x ms2 name,
     v = json.JObject (ms1 ++ (key, x) :: ms2) ->
     json.selects LicenseKey.temp.names key name = true ->
     existsb (fun m => json.selects LicenseKey.temp.names (fst m) name) ms2
     = false ->
     (forall n lit, In (name, n) (plain_ints lk) -> x = json.JNumber lit ->
                    strconv.ParseInt lit = Some n)
     /\ (forall c d, In (name, c) (plain_bools lk) -> x = json.JBool d -> c = d)
     /\ (forall s t, In (name, s) (plain_strings lk) -> x = json.JString t ->
                     s = t))
  /\ (forall name,
        has_member LicenseKey.temp.names name v = false ->
        (forall n, In (name, n) (plain_ints lk) -> n = 0)
        /\ (forall c, In (name, c) (plain_bools lk) -> c = false)
        /\ (forall s, In (name, s) (plain_strings lk) -> s = []))
  /\ LicenseKey.licenseKeyBytes lk = b
  /\ LicenseKey.signatureBytes lk = sig.
Proof.
  intros Hb Hp. split; [| split].
  - intros ms1 key x ms2 name -> Hsel Hlater.
    destruct (buildLicenseKey_plain _ _ _ _ Hb Hp) as (Hi & Hc & Hs).
    rewrite Forall_forall in Hi, Hc, Hs.
    split; [| split].
    + intros n lit Hin ->. specialize (Hi _ Hin). cbn [fst snd] in Hi.
      destruct (json_field_last_ok _ _ _ json.decode_int ms1 ms2 _
                  (json.JNumber lit) 0 Hsel Hlater)
        as (c & Hd); [rewrite Hi; reflexivity |].
      rewrite Hi in Hd. cbn [fst] in Hd.
      unfold json.decode_int, json.decode_int64 in Hd.
      destruct (strconv.ParseInt lit) as [m |]; inversion Hd. reflexivity.
    + intros c d Hin ->. specialize (Hc _ Hin). cbn [fst snd] in Hc.
      destruct (json_field_last_ok _ _ _ json.decode_bool ms1 ms2 _
                  (json.JBool d) false Hsel Hlater) as (c' & Hd); [rewrite Hc; reflexivity |].
      rewrite Hc in Hd. cbn [fst json.decode_bool] in Hd.
      inversion Hd. reflexivity.
    + intros s t Hin ->. specialize (Hs _ Hin). cbn [fst snd] in Hs.
      destruct (json_field_last_ok _ _ _ json.decode_string ms1 ms2 _
                  (json.JString t) [] Hsel Hlater) as (c' & Hd); [rewrite Hs; reflexivity |].
      rewrite Hs in Hd. cbn [fst json.decode_string] in Hd.
      inversion Hd. reflexivity.
  - intros name Habs.
    destruct (buildLicenseKey_payload _ _ _ Hb) as (v' & k & Hp' & Hk & ->).
    rewrite Hp in Hp'. inversion Hp'; subst v'; clear Hp'.
    unfold LicenseKey.UnmarshalJSON in Hk.
    destruct (LicenseKey.temp.decoder v LicenseKey.temp.zero)
      as [temp [e |]] eqn:E; inversion Hk; subst; clear Hk.
    destruct (LicenseKey_temp_decoder_plain_fields _ _ _ E)
      as (H0 & H1 & H2 & H3 & H4 & H5 & H6 & H7 & H8 & H9 & H10 & H11 & H12
          & H13 & H14 & H15 & H16 & _).
    assert (Hz : forall (T : Type) (dec : json.decoder T) (zero : T),
               payload name dec zero v = zero).
    { intros T dec zero. unfold payload, payload_in. destruct v; try reflexivity.
      cbn [has_member] in Habs. rewrite json_field_absent by exact Habs.
      reflexivity. }
    unfold plain_ints, plain_bools, plain_strings.
    cbn [LicenseKey.ProductId LicenseKey.Id LicenseKey.Key LicenseKey.Period
         LicenseKey.F1 LicenseKey.F2 LicenseKey.F3 LicenseKey.F4 LicenseKey.F5
         LicenseKey.F6 LicenseKey.F7 LicenseKey.F8 LicenseKey.Notes
         LicenseKey.Block LicenseKey.GlobalId LicenseKey.TrialActivation
         LicenseKey.MaxNoOfMachines LicenseKey.with_bytes].
    rewrite H0, H1, H2, H3, H4, H5, H6, H7, H8, H9, H10, H11, H12, H13, H14,
      H15, H16.
    split; [| split]; intros y Hin; cbn [In] in Hin;
      repeat (destruct Hin as [Hin | Hin];
              [inversion Hin; subst; apply Hz |]);
      destruct Hin.
  - destruct (buildLicenseKey_payload _ _ _ Hb) as (v' & k & _ & _ & ->).
    split; reflexivity.
Qed.

Lemma UnmarshalJSON_plain_fields_witness :
  buildLicenseKey example_payload (B "signature") = (example_key, None)
  /\ json.parse example_payload = Some example_value
  /\ LicenseKey.ProductId example_key = 3646
  /\ LicenseKey.Key example_key = B "MPDWY-PQAOW-FKSCH-SGAAU"
  /\ LicenseKey.F1 example_key = true
  /\ LicenseKey.Notes example_key = []
  /\ LicenseKey.licenseKeyBytes example_key = example_payload.
Proof.
  split; [exact example_key_built |]. split; [exact example_payload_parsed |].
  destruct (UnmarshalJSON_plain_fields example_payload (B "signature")
              example_key example_value example_key_built
              example_payload_parsed) as (Hlast & Habsent & Hbytes & _).
  assert (Hv : exists ms, example_value = json.JObject ms)
    by (eexists; reflexivity).
  destruct Hv as (ms & Hv).
  split.
  { destruct ms as [| [k0 x0] r0]; [discriminate Hv |].
    destruct (Hlast [] k0 x0 r0 (B "ProductId") Hv) as (Hn & _);
      [inversion Hv; reflexivity | inversion Hv; vm_compute; reflexivity |].
    assert (E : strconv.ParseInt (B "3646") = Some (LicenseKey.ProductId example_key)).
    { apply Hn; [left; reflexivity | inversion Hv; reflexivity]. }
    vm_compute in E. inversion E. reflexivity. }
  split.
  { destruct ms as [| [k0 x0] [| [k1 x1] r1]]; try discriminate Hv.
    destruct (Hlast [(k0, x0)] k1 x1 r1 (B "Key") Hv) as (_ & _ & Hs);
      [inversion Hv; reflexivity | inversion Hv; vm_compute; reflexivity |].
    apply Hs; [left; reflexivity | inversion Hv; reflexivity]. }
  split.
  { destruct ms as [| [k0 x0] [| [k1 x1] [| [k2 x2] [| [k3 x3] [| [k4 x4] r4]]]]];
      try discriminate Hv.
    destruct (Hlast [(k0, x0); (k1, x1); (k2, x2); (k3, x3)] k4 x4 r4 (B "F1") Hv)
      as (_ & Hc & _);
      [inversion Hv; reflexivity | inversion Hv; vm_compute; reflexivity |].
    apply Hc; [left; reflexivity | inversion Hv; reflexivity]. }
  split; [| exact Hbytes].
  apply (proj2 (proj2 (Habsent (B "Notes") ltac:(vm_compute; reflexivity)))).
  right. left. reflexivity.
Defined.

(** ** The lines of AllowedMachines *)

(** X13: the AllowedMachines list is the lines of the incoming string:
    for every payload parsed with success the list has one element more
    than the string has newline characters, no element holds a newline,
    and the elements joined with newlines are the string again, so
    nothing but the separators is dropped (a carriage return before a
    newline stays in its element, and a final newline gives a last
    element that is empty). *)
Theorem AllowedMachines_lines (b sig : bytes) (lk : LicenseKey.t)
  (v : json.value) :
  buildLicenseKey b sig = (lk, None) ->
  json.parse b = Some v ->
  let incoming := payload (B "AllowedMachines") json.decode_string [] v in
  List.length (LicenseKey.AllowedMachines lk) = S (newlines incoming)
  /\ Forall (fun machine => ~ In x0a machine) (LicenseKey.AllowedMachines lk)
  /\ join (LicenseKey.AllowedMachines lk) [x0a] = incoming.
Proof.
  intros Hb Hp incoming.
  destruct (buildLicenseKey_payload _ _ _ Hb) as (v' & k & Hp' & Hk & ->).
  rewrite Hp in Hp'. inversion Hp'; subst v'; clear Hp'.
  destruct (LicenseKey_UnmarshalJSON_fields _ _ _ Hk) as (HA & _).
  change (LicenseKey.AllowedMachines (LicenseKey.with_bytes k b sig))
    with (LicenseKey.AllowedMachines k).
  fold incoming in HA. rewrite HA. unfold strings.Split.
  split; [apply strings_split_newline_length |].
  split; [apply strings_split_newline_pieces; intros [] |].
  apply strings_split_newline_join.
Qed.

Lemma AllowedMachines_lines_witness :
  let b := J "{'AllowedMachines':'abc\r\ndef\n'}" in
  let lk := fst (buildLicenseKey b []) in
  buildLicenseKey b [] = (lk, None)
  /\ LicenseKey.AllowedMachines lk = [B "abc" ++ [x0d]; B "def"; []]
  /\ join (LicenseKey.AllowedMachines lk) [x0a] = B "abc" ++ [x0d; x0a] ++ B "def" ++ [x0a].
Proof.
  split; [vm_compute; reflexivity |]. split; [vm_compute; reflexivity |].
  pose proof (AllowedMachines_lines
                (J "{'AllowedMachines':'abc\r\ndef\n'}") []
                (fst (buildLicenseKey (J "{'AllowedMachines':'abc\r\ndef\n'}") []))
                (json.JObject [(B "AllowedMachines",
                                json.JString (B "abc" ++ [x0d; x0a] ++ B "def" ++ [x0a]))]))
    as H.
  cbv zeta in H. destruct H as (_ & _ & H);
    [vm_compute; reflexivity | vm_compute; reflexivity |].
  rewrite H. vm_compute. reflexivity.
Defined.

(** ** The records inside the license *)

Lemma Customer_UnmarshalJSON_fields (c0 c : Customer.t) (v : json.value) :
  Customer.UnmarshalJSON c0 v = (c, None) ->
  Customer.Id c = payload_in Customer.temp.names (B "Id") json.decode_int 0 v
  /\ Customer.Name c
     = payload_in Customer.temp.names (B "Name") json.decode_string [] v
  /\ Customer.Email c
     = payload_in Customer.temp.names (B "Email") json.decode_string [] v
  /\ Customer.CompanyName c
     = payload_in Customer.temp.names (B "CompanyName") json.decode_string [] v.
Proof.
  unfold Customer.UnmarshalJSON.
  destruct (Customer.temp.decoder v Customer.temp.zero) as [temp [e |]] eqn:E;
    intros H; inversion H; subst; clear H.
  cbn [Customer.Id Customer.Name Customer.Email Customer.CompanyName].
  destruct v; cbn [Customer.temp.decoder payload_in] in *;
    try (inversion E; subst; repeat split; reflexivity).
  cbn [Customer.temp.Id Customer.temp.Name Customer.temp.Email
       Customer.temp.CompanyName Customer.temp.Created Customer.temp.zero] in E.
  repeat match type of E with
         | context [json.field ?a ?b ?c ?d ?e] =>
             destruct (json.field a b c d e)
         end.
  inversion E; subst. repeat split; reflexivity.
Qed.

Lemma ActivationData_UnmarshalJSON_fields (a0 a : ActivationData.t)
  (v : json.value) :
  ActivationData.UnmarshalJSON a0 v = (a, None) ->
  ActivationData.Mid a
  = payload_in ActivationData.temp.names (B "Mid") json.decode_string [] v
  /\ ActivationData.IP a
     = payload_in ActivationData.temp.names (B "IP") json.decode_string [] v.
Proof.
  unfold ActivationData.UnmarshalJSON.
  destruct (ActivationData.temp.decoder v ActivationData.temp.zero)
    as [temp [e |]] eqn:E;
    intros H; inversion H; subst; clear H.
  cbn [ActivationData.Mid ActivationData.IP].
  destruct v; cbn [ActivationData.temp.decoder payload_in] in *;
    try (inversion E; subst; repeat split; reflexivity).
  cbn [ActivationData.temp.Mid ActivationData.temp.IP ActivationData.temp.Time
       ActivationData.temp.zero] in E.
  repeat match type of E with
         | context [json.field ?a ?b ?c ?d ?e] =>
             destruct (json.field a b c d e)
         end.
  inversion E; subst. repeat split; reflexivity.
Qed.

Lemma DataObject_decoder_fields (d : DataObject.t) (v : json.value)
  (e : option error) :
  DataObject.decoder v DataObject.zero = (d, e) ->
  DataObject.Id d = payload_in DataObject.names (B "Id") json.decode_int 0 v
  /\ DataObject.Name d
     = payload_in DataObject.names (B "Name") json.decode_string [] v
  /\ DataObject.StringValue d
     = payload_in DataObject.names (B "StringValue") json.decode_string [] v
  /\ DataObject.IntValue d
     = payload_in DataObject.names (B "IntValue") json.decode_int 0 v.
Proof.
  intros E.
  destruct v; cbn [DataObject.decoder payload_in] in *;
    try (inversion E; subst; repeat split; reflexivity).
  cbn [DataObject.Id DataObject.Name DataObject.StringValue DataObject.IntValue
       DataObject.zero] in E.
  repeat match type of E with
         | context [json.field ?a ?b ?c ?d ?e] =>
             destruct (json.field a b c d e)
         end.
  inversion E; subst. repeat split; reflexivity.
Qed.

(** The elements of an array decoded into an empty slice are decoded
    into zero elements. *)
Lemma json_decode_elems_nil (T : Type) (zero : T) (dec : json.decoder T)
  (es : list json.value) (xs : list T) :
  json.decode_elems zero dec es [] = (xs, None) ->
  Forall2 (fun e x => dec e zero = (x, None)) es xs.
Proof.
  revert xs. induction es as [| e es IH]; intros xs H;
    cbn [json.decode_elems hd tl] in H.
  - inversion H. constructor.
  - destruct (dec e zero) as [x e1] eqn:E1.
    destruct (json.decode_elems zero dec es []) as [r e2] eqn:E2.
    injection H as <- He. apply first_error_None in He. destruct He as [-> ->].
    constructor; [exact E1 | apply IH; reflexivity].
Qed.

(** The one member that selects a field is decoded into the field as it
    was. *)
Lemma json_field_only (T : Type) (names : list bytes) (name : bytes)
  (dec : json.decoder T) (ms1 ms2 : list (bytes * json.value)) (key : bytes)
  (x : json.value) (cur : T) :
  json.selects names key name = true ->
  existsb (fun m => json.selects names (fst m) name) (ms1 ++ ms2) = false ->
  json.field names name dec (ms1 ++ (key, x) :: ms2) cur
  = (fst (dec x cur), snd (dec x cur)).
Proof.
  intros Hs Hn. rewrite existsb_app in Hn. apply orb_false_iff in Hn.
  destruct Hn as [H1 H2].
  rewrite json_field_app, (json_field_absent _ _ _ _ _ _ H1).
  cbn [fold_left fst snd]. rewrite Hs.
  destruct (dec x cur) as [y e]. cbn [json.first_error fst snd].
  clear H1. revert H2. generalize (y, e).
  induction ms2 as [| m r IH]; intros acc H2; [reflexivity |].
  cbn [existsb] in H2. apply orb_false_iff in H2. destruct H2 as [Hm Hr].
  cbn [fold_left]. rewrite Hm. apply IH, Hr.
Qed.

Lemma LicenseKey_temp_decoder_DataObjects (ms : list (bytes * json.value))
  (temp : LicenseKey.temp.t) :
  LicenseKey.temp.decoder (json.JObject ms) LicenseKey.temp.zero = (temp, None) ->
  json.field LicenseKey.temp.names (B "DataObjects")
    (json.decode_slice DataObject.zero DataObject.decoder) ms []
  = (LicenseKey.temp.DataObjects temp, None).
Proof.
  intros H.
  assert (He : snd (LicenseKey.temp.decoder (json.JObject ms) LicenseKey.temp.zero)
               = None) by (rewrite H; reflexivity).
  cbn [LicenseKey.temp.decoder snd] in He. apply first_of_None in He.
  rewrite Forall_forall in He.
  assert (E : None = snd (json.field LicenseKey.temp.names (B "DataObjects")
                            (json.decode_slice DataObject.zero DataObject.decoder)
                            ms [])) by (apply He; error_listed).
  destruct (LicenseKey_temp_decoder_plain_fields _ _ _ H) as (_ & _ & _ & _ & _ & _ & _ & _ & _ & _ & _ & _ & _ & _ & _ & _ & _ & Hd).
  rewrite Hd. unfold payload, payload_in.
  destruct (json.field LicenseKey.temp.names (B "DataObjects")
              (json.decode_slice DataObject.zero DataObject.decoder) ms [])
    as [x e]. cbn [fst snd] in *. subst e. reflexivity.
Qed.

Lemma buildLicenseKey_temp (b sig : bytes) (lk : LicenseKey.t) (v : json.value) :
  buildLicenseKey b sig = (lk, None) -> json.parse b = Some v ->
  exists temp,
    LicenseKey.temp.decoder v LicenseKey.temp.zero = (temp, None)
    /\ LicenseKey.Customer lk = LicenseKey.temp.Customer temp
    /\ LicenseKey.ActivatedMachines lk = LicenseKey.temp.ActivatedMachines temp
    /\ LicenseKey.DataObjects lk = LicenseKey.temp.DataObjects temp.
Proof.
  intros Hb Hp.
  destruct (buildLicenseKey_payload _ _ _ Hb) as (v' & k & Hp' & Hk & ->).
  rewrite Hp in Hp'. inversion Hp'; subst v'; clear Hp'.
  unfold LicenseKey.UnmarshalJSON in Hk.
  destruct (LicenseKey.temp.decoder v LicenseKey.temp.zero) as [temp [e |]] eqn:E;
    inversion Hk; subst; clear Hk.
  exists temp. repeat split; reflexivity.
Qed.

(** X14: the Customer of the license is the record its member of the
    payload holds: where the payload parsed with success holds a member
    that selects Customer, the Id, Name, Email and CompanyName of the
    Customer are what the members of that value decode to (zero values
    for a null); where it holds none, the Customer is the zero Customer,
    whose Created is the zero Time and not the Unix epoch. *)
Theorem Customer_of_payload (b sig : bytes) (lk : LicenseKey.t) (v : json.value) :
  buildLicenseKey b sig = (lk, None) ->
  json.parse b = Some v ->
  (forall ms1 key vc ms2,
     v = json.JObject (ms1 ++ (key, vc) :: ms2) ->
     json.selects LicenseKey.temp.names key (B "Customer") = true ->
     existsb (fun m => json.selects LicenseKey.temp.names (fst m) (B "Customer"))
       ms2 = false ->
     let customer := LicenseKey.Customer lk in
     Customer.Id customer
     = payload_in Customer.temp.names (B "Id") json.decode_int 0 vc
     /\ Customer.Name customer
        = payload_in Customer.temp.names (B "Name") json.decode_string [] vc
     /\ Customer.Email customer
        = payload_in Customer.temp.names (B "Email") json.decode_string [] vc
     /\ Customer.CompanyName customer
        = payload_in Customer.temp.names (B "CompanyName") json.decode_string
            [] vc)
  /\ (has_member LicenseKey.temp.names (B "Customer") v = false ->
      LicenseKey.Customer lk = Customer.zero
      /\ Customer.Created (LicenseKey.Customer lk) = time.zero
      /\ time.zero <> time.Unix 0 0).
Proof.
  intros Hb Hp.
  destruct (buildLicenseKey_temp _ _ _ _ Hb Hp) as (temp & E & -> & _ & _).
  destruct (LicenseKey_temp_decoder_fields _ _ _ E) as (_ & _ & _ & _ & HCu & _).
  destruct (LicenseKey_temp_decoder_errors _ _ E) as (HeC & _).
  rewrite HCu. split.
  - intros ms1 key vc ms2 -> Hsel Hlater customer. subst customer.
    unfold payload, payload_in. cbn [payload_error] in HeC.
    destruct (json_field_last_ok _ _ _ _ _ _ _ _ _ Hsel Hlater HeC) as (c & Hc).
    apply (Customer_UnmarshalJSON_fields c), Hc.
  - intros Habs.
    assert (Hz : payload (B "Customer") Customer.decoder Customer.zero v
                 = Customer.zero).
    { unfold payload, payload_in. destruct v; try reflexivity.
      cbn [has_member] in Habs. rewrite json_field_absent by exact Habs.
      reflexivity. }
    rewrite Hz. split; [reflexivity |]. split; [reflexivity |].
    intros H. symmetry in H. exact (time_Unix_not_zero 0 H).
Qed.

Lemma Customer_of_payload_witness :
  buildLicenseKey example_payload (B "signature") = (example_key, None)
  /\ json.parse example_payload = Some example_value
  /\ Customer.Id (LicenseKey.Customer example_key) = 7
  /\ Customer.Name (LicenseKey.Customer example_key) = B "Bob".
Proof.
  split; [exact example_key_built |]. split; [exact example_payload_parsed |].
  pose proof (proj1 (Customer_of_payload example_payload (B "signature")
                       example_key example_value example_key_built
                       example_payload_parsed)) as H.
  specialize (H [(B "ProductId", json.JNumber (B "3646"));
                 (B "Key", json.JString (B "MPDWY-PQAOW-FKSCH-SGAAU"));
                 (B "Created", json.JNumber (B "0"));
                 (B "Expires", json.JNumber (B "1700000000"));
                 (B "F1", json.JBool true)]
                (B "Customer")
                (json.JObject [(B "Id", json.JNumber (B "7"));
                               (B "Name", json.JString (B "Bob"));
                               (B "Created", json.JNumber (B "1500000000"))])
                [(B "ActivatedMachines",
                  json.JArray
                    [json.JObject [(B "Mid", json.JString (B "289jf2afs3"));
                                   (B "IP", json.JString (B "10.0.0.1"));
                                   (B "Time", json.JNumber (B "1600000000"))]]);
                 (B "AllowedMachines", json.JString []);
                 (B "SignDate", json.JNumber (B "1700000000"))]
                eq_refl eq_refl eq_refl).
  cbv zeta in H. destruct H as (H1 & H2 & _).
  split; [rewrite H1 | rewrite H2]; vm_compute; reflexivity.
Defined.

(** X15: the lists of the license follow the arrays of the payload,
    entry by entry and in their order: where the payload parsed with
    success holds an array for ActivatedMachines, the list has one entry
    for each element, with the Mid and IP that element holds; where it
    holds one array for DataObjects, the list has one DataObject for each
    element, with the Id, Name, StringValue and IntValue that element
    holds; a list with no member in the payload is nil. *)
Theorem lists_of_payload (b sig : bytes) (lk : LicenseKey.t) (v : json.value) :
  buildLicenseKey b sig = (lk, None) ->
  json.parse b = Some v ->
  (forall ms1 key es ms2,
     v = json.JObject (ms1 ++ (key, json.JArray es) :: ms2) ->
     json.selects LicenseKey.temp.names key (B "ActivatedMachines") = true ->
     existsb (fun m => json.selects LicenseKey.temp.names (fst m)
                         (B "ActivatedMachines")) ms2 = false ->
     Forall2 (fun e a =>
                ActivationData.Mid a
                = payload_in ActivationData.temp.names (B "Mid")
                    json.decode_string [] e
                /\ ActivationData.IP a
                   = payload_in ActivationData.temp.names (B "IP")
                       json.decode_string [] e)
             es (LicenseKey.ActivatedMachines lk))
  /\ (forall ms1 key es ms2,
        v = json.JObject (ms1 ++ (key, json.JArray es) :: ms2) ->
        json.selects LicenseKey.temp.names key (B "DataObjects") = true ->
        existsb (fun m => json.selects LicenseKey.temp.names (fst m)
                            (B "DataObjects")) (ms1 ++ ms2) = false ->
        Forall2 (fun e d =>
                   DataObject.Id d
                   = payload_in DataObject.names (B "Id") json.decode_int 0 e
                   /\ DataObject.Name d
                      = payload_in DataObject.names (B "Name")
                          json.decode_string [] e
                   /\ DataObject.StringValue d
                      = payload_in DataObject.names (B "StringValue")
                          json.decode_string [] e
                   /\ DataObject.IntValue d
                      = payload_in DataObject.names (B "IntValue")
                          json.decode_int 0 e)
                es (LicenseKey.DataObjects lk))
  /\ (has_member LicenseKey.temp.names (B "ActivatedMachines") v = false ->
      LicenseKey.ActivatedMachines lk = [])
  /\ (has_member LicenseKey.temp.names (B "DataObjects") v = false ->
      LicenseKey.DataObjects lk = []).
Proof.
  intros Hb Hp.
  destruct (buildLicenseKey_temp _ _ _ _ Hb Hp) as (temp & E & _ & -> & ->).
  destruct (LicenseKey_temp_decoder_fields _ _ _ E) as (_ & _ & _ & _ & _ & HAM).
  destruct (LicenseKey_temp_decoder_errors _ _ E) as (_ & HeA).
  split; [| split; [| split]].
  - intros ms1 key es ms2 -> Hsel Hlater. rewrite HAM.
    unfold payload, payload_in. cbn [payload_error] in HeA.
    destruct (json_field_last_ok _ _ _ _ _ _ _ _ _ Hsel Hlater HeA) as (c & Hc).
    cbn [json.decode_slice] in Hc. apply json_decode_elems_ok in Hc.
    eapply Forall2_impl; [| exact Hc].
    intros e a (a0 & Ha). apply (ActivationData_UnmarshalJSON_fields a0), Ha.
  - intros ms1 key es ms2 -> Hsel Honly.
    pose proof (LicenseKey_temp_decoder_DataObjects _ _ E) as Hd.
    rewrite (json_field_only _ _ _ _ _ _ _ _ _ Hsel Honly) in Hd.
    cbn [json.decode_slice] in Hd.
    destruct (json.decode_elems DataObject.zero DataObject.decoder es [])
      as [xs e] eqn:Ed.
    cbn [fst snd] in Hd. inversion Hd; subst; clear Hd.
    apply json_decode_elems_nil in Ed.
    eapply Forall2_impl; [| exact Ed].
    intros e d Hd. apply (DataObject_decoder_fields _ _ _ Hd).
  - intros Habs. rewrite HAM. unfold payload, payload_in.
    destruct v; try reflexivity.
    cbn [has_member] in Habs. rewrite json_field_absent by exact Habs.
    reflexivity.
  - intros Habs.
    destruct (LicenseKey_temp_decoder_plain_fields _ _ _ E) as (_ & _ & _ & _ & _ & _ & _ & _ & _ & _ & _ & _ & _ & _ & _ & _ & _ & Hd).
    rewrite Hd. unfold payload, payload_in.
    destruct v; try reflexivity.
    cbn [has_member] in Habs. rewrite json_field_absent by exact Habs.
    reflexivity.
Qed.

Lemma lists_of_payload_witness :
  let b := J "{'ActivatedMachines':[{'Mid':'m1','IP':'10.0.0.1','Time':5}],'DataObjects':[{'Id':1,'Name':'usage','StringValue':'s','IntValue':42}]}" in
  let machine := json.JObject [(B "Mid", json.JString (B "m1"));
                               (B "IP", json.JString (B "10.0.0.1"));
                               (B "Time", json.JNumber (B "5"))] in
  let object := json.JObject [(B "Id", json.JNumber (B "1"));
                              (B "Name", json.JString (B "usage"));
                              (B "StringValue", json.JString (B "s"));
                              (B "IntValue", json.JNumber (B "42"))] in
  let lk := fst (buildLicenseKey b []) in
  buildLicenseKey b [] = (lk, None)
  /\ json.parse b
     = Some (json.JObject [(B "ActivatedMachines", json.JArray [machine]);
                           (B "DataObjects", json.JArray [object])])
  /\ Forall2 (fun e d =>
                DataObject.Id d
                = payload_in DataObject.names (B "Id") json.decode_int 0 e
                /\ DataObject.Name d
                   = payload_in DataObject.names (B "Name")
                       json.decode_string [] e
                /\ DataObject.StringValue d
                   = payload_in DataObject.names (B "StringValue")
                       json.decode_string [] e
                /\ DataObject.IntValue d
                   = payload_in DataObject.names (B "IntValue")
                       json.decode_int 0 e)
             [object] (LicenseKey.DataObjects lk)
  /\ map DataObject.IntValue (LicenseKey.DataObjects lk) = [42].
Proof.
  intros b machine object lk.
  assert (Hb : buildLicenseKey b [] = (lk, None)) by (vm_compute; reflexivity).
  assert (Hp : json.parse b
               = Some (json.JObject
                         [(B "ActivatedMachines", json.JArray [machine]);
                          (B "DataObjects", json.JArray [object])]))
    by (vm_compute; reflexivity).
  split; [exact Hb |]. split; [exact Hp |].
  split; [| vm_compute; reflexivity].
  destruct (lists_of_payload b [] lk _ Hb Hp) as (_ & H & _).
  apply (H [(B "ActivatedMachines", json.JArray [machine])] (B "DataObjects")
           [object] []); reflexivity.
Defined.

(** ** Signatures and keys too short to verify *)

(** The encoded message of PKCS #1 v1.5 with SHA-256 takes 62 bytes at
    least: a modulus or a signature shorter than that verifies nothing. *)
Lemma rsa_Verify_short (pub : rsa.PublicKey) (hashed sig : bytes) :
  (List.length sig < 62)%nat \/ rsa.Size pub < 62 ->
  rsa.VerifyPKCS1v15 pub rsa.SHA256 hashed sig <> None.
Proof.
  intros Hlen. unfold rsa.VerifyPKCS1v15.
  change (rsa.hashSize rsa.SHA256) with 32.
  destruct (Z.eqb_spec (Z.of_nat (List.length hashed)) 32) as [Hh | _];
    cbn [negb]; [| discriminate].
  destruct (rsa.checkPublicKeySize pub); [discriminate |].
  destruct (rsa.checkPublicKey pub); [discriminate |].
  destruct (Z.eqb_spec (rsa.Size pub) (Z.of_nat (List.length sig))) as [E | _];
    cbn [negb]; [| discriminate].
  destruct (rsa.encrypt pub sig) as [em [e |]]; [discriminate |].
  rewrite rsa_pkcs1v15ConstructEM_EMSA by lia.
  destruct (Z.ltb_spec (rsa.Size pub) 62) as [_ | Hk]; [discriminate |].
  exfalso. lia.
Qed.

Lemma HasValidSignature_verified
  (xml_Unmarshal : bytes -> RSAKeyValue.t -> RSAKeyValue.t * option error)
  (lk : LicenseKey.t) (pk : bytes) :
  LicenseKey.HasValidSignature xml_Unmarshal lk pk = true ->
  exists k mb eb,
    xml_Unmarshal pk RSAKeyValue.zero = (k, None)
    /\ base64.DecodeString (RSAKeyValue.Modulus k) = (mb, None)
    /\ base64.DecodeString (RSAKeyValue.Exponent k) = (eb, None)
    /\ big.IsInt64 (big.SetBytes eb) = true
    /\ rsa.VerifyPKCS1v15
         (rsa.mkPublicKey (big.SetBytes mb) (big.SetBytes eb)) rsa.SHA256
         (sha256.Sum256 (LicenseKey.licenseKeyBytes lk))
         (LicenseKey.signatureBytes lk) = None.
Proof.
  unfold LicenseKey.HasValidSignature.
  destruct (xml_Unmarshal pk RSAKeyValue.zero) as [k [e |]] eqn:Ex;
    [discriminate |].
  destruct (base64.DecodeString (RSAKeyValue.Modulus k)) as [mb [e |]] eqn:Em;
    [discriminate |].
  destruct (base64.DecodeString (RSAKeyValue.Exponent k)) as [eb [e |]] eqn:Ee;
    [discriminate |].
  destruct (big.IsInt64 (big.SetBytes eb)) eqn:Ei; [| discriminate].
  cbn [negb]. rewrite (Go_int_Int64 _ Ei).
  destruct (rsa.VerifyPKCS1v15 _ _ _ _) eqn:Ev; [discriminate |].
  intros _. exists k, mb, eb.
  split; [reflexivity |]. split; [exact Em |]. split; [exact Ee |].
  split; [exact Ei | exact Ev].
Qed.

Lemma HasValidSignature_few_bytes
  (xml_Unmarshal : bytes -> RSAKeyValue.t -> RSAKeyValue.t * option error)
  (lk : LicenseKey.t) (publicKey : bytes) (n : nat) :
  List.length (LicenseKey.signatureBytes lk) = n -> (n < 62)%nat ->
  LicenseKey.HasValidSignature xml_Unmarshal lk publicKey = false.
Proof.
  intros Hn Hlen.
  destruct (LicenseKey.HasValidSignature xml_Unmarshal lk publicKey) eqn:E;
    [| reflexivity].
  apply HasValidSignature_verified in E.
  destruct E as (k & mb & eb & _ & _ & _ & _ & Hv).
  exfalso. revert Hv. apply rsa_Verify_short. left. lia.
Qed.

(** X16: a signature shorter than 62 bytes is never valid: for every
    LicenseKey that carries fewer than 62 signature bytes, and so for the
    zero LicenseKey the failing operations return, HasValidSignature
    returns false for every public key and every XML decoder. *)
Theorem HasValidSignature_short_signature
  (xml_Unmarshal : bytes -> RSAKeyValue.t -> RSAKeyValue.t * option error)
  (lk : LicenseKey.t) (publicKey : bytes) :
  (List.length (LicenseKey.signatureBytes lk) < 62)%nat ->
  LicenseKey.HasValidSignature xml_Unmarshal lk publicKey = false.
Proof.
  intros Hlen.
  destruct (LicenseKey.HasValidSignature xml_Unmarshal lk publicKey) eqn:E;
    [| reflexivity].
  apply HasValidSignature_verified in E.
  destruct E as (k & mb & eb & _ & _ & _ & _ & Hv).
  exfalso. revert Hv. apply rsa_Verify_short. left. exact Hlen.
Qed.

Lemma HasValidSignature_short_signature_witness :
  (List.length (LicenseKey.signatureBytes LicenseKey.zero) < 62)%nat
  /\ LicenseKey.HasValidSignature descriptor.Unmarshal LicenseKey.zero
       example_descriptor = false.
Proof.
  assert (H : (List.length (LicenseKey.signatureBytes LicenseKey.zero) < 62)%nat)
    by (cbn; lia).
  split; [exact H |].
  apply (HasValidSignature_short_signature descriptor.Unmarshal LicenseKey.zero
           example_descriptor H).
Defined.

Lemma rsa_Size_bound (mb : bytes) (e : Z) :
  rsa.Size (rsa.mkPublicKey (big.SetBytes mb) e) <= Z.of_nat (List.length mb).
Proof.
  unfold rsa.Size, big.BitLen. cbn [rsa.N].
  pose proof (big_SetBytes_nonneg mb) as H0.
  pose proof (big_SetBytes_bound mb) as H1.
  destruct (Z.eqb_spec (big.SetBytes mb) 0) as [_ | Hn].
  - change ((0 + 7) / 8) with 0. lia.
  - rewrite Z.abs_eq by lia.
    assert (Z.log2 (big.SetBytes mb) < 8 * Z.of_nat (List.length mb)).
    { apply Z.log2_lt_pow2; [lia |].
      rewrite Z.pow_mul_r by lia. change (2 ^ 8) with 256. exact H1. }
    Z.div_mod_to_equations. lia.
Qed.

(** X17: a key too small for the padding verifies nothing: where the
    Modulus of the descriptor decodes to fewer than 62 bytes (a modulus
    of 488 bits at most), HasValidSignature returns false for every
    LicenseKey. *)
Theorem HasValidSignature_short_modulus
  (xml_Unmarshal : bytes -> RSAKeyValue.t -> RSAKeyValue.t * option error)
  (lk : LicenseKey.t) (publicKey : bytes) (k : RSAKeyValue.t) (mb : bytes) :
  xml_Unmarshal publicKey RSAKeyValue.zero = (k, None) ->
  base64.DecodeString (RSAKeyValue.Modulus k) = (mb, None) ->
  (List.length mb < 62)%nat ->
  LicenseKey.HasValidSignature xml_Unmarshal lk publicKey = false.
Proof.
  intros Hx Hm Hlen.
  destruct (LicenseKey.HasValidSignature xml_Unmarshal lk publicKey) eqn:E;
    [| reflexivity].
  apply HasValidSignature_verified in E.
  destruct E as (k' & mb' & eb & Hx' & Hm' & _ & _ & Hv).
  rewrite Hx in Hx'. inversion Hx'; subst k'.
  rewrite Hm in Hm'. inversion Hm'; subst mb'.
  exfalso. revert Hv. apply rsa_Verify_short. right.
  pose proof (rsa_Size_bound mb (big.SetBytes eb)). lia.
Qed.

Lemma HasValidSignature_short_modulus_witness :
  let pk := B "<RSAKeyValue><Modulus>AQAB</Modulus><Exponent>AQAB</Exponent></RSAKeyValue>" in
  descriptor.Unmarshal pk RSAKeyValue.zero
  = (RSAKeyValue.mk (B "AQAB") (B "AQAB"), None)
  /\ base64.DecodeString (B "AQAB") = ([x01; x00; x01], None)
  /\ LicenseKey.HasValidSignature descriptor.Unmarshal example_signed_key pk
     = false.
Proof.
  split; [vm_compute; reflexivity |]. split; [vm_compute; reflexivity |].
  apply (HasValidSignature_short_modulus descriptor.Unmarshal example_signed_key
           (B "<RSAKeyValue><Modulus>AQAB</Modulus><Exponent>AQAB</Exponent></RSAKeyValue>")
           (RSAKeyValue.mk (B "AQAB") (B "AQAB")) [x01; x00; x01]);
    [vm_compute; reflexivity | vm_compute; reflexivity | cbn; lia].
Defined.

(** ** A blob without a signature *)

Lemma activateResponse_decoder_Signature_absent (v : json.value)
  (r : activateResponse.t) :
  has_member activateResponse.names (B "signature") v = false ->
  activateResponse.decoder v activateResponse.zero = (r, None) ->
  activateResponse.Signature r = [].
Proof.
  intros Habs. destruct v; cbn [activateResponse.decoder];
    try (intros H; inversion H; subst; reflexivity).
  cbn [has_member] in Habs.
  rewrite (json_field_absent _ _ (B "signature") json.decode_string _ _ Habs).
  repeat match goal with
         | |- context [json.field ?a ?b ?c ?d ?e] =>
             destruct (json.field a b c d e)
         end.
  intros H; inversion H; subst; reflexivity.
Qed.

Lemma KeyFromBytes_unsigned (b : bytes) (v : json.value) (k : LicenseKey.t) :
  json.parse b = Some v ->
  has_member activateResponse.names (B "signature") v = false ->
  KeyFromBytes b = (k, None) ->
  LicenseKey.signatureBytes k = [].
Proof.
  intros Hp Habs H.
  unfold KeyFromBytes, json.Unmarshal in H. rewrite Hp in H.
  destruct (activateResponse.decoder v activateResponse.zero) as [r [e |]] eqn:E;
    [discriminate |].
  pose proof (activateResponse_decoder_Signature_absent _ _ Habs E) as Hr.
  unfold parseActivateResponse in H. rewrite Hr in H.
  destruct (base64.DecodeString (activateResponse.LicenseKey r))
    as [lic [e |]]; [discriminate |].
  change (base64.DecodeString []) with (@nil byte, @None error) in H.
  cbv iota beta in H. apply buildLicenseKey_bytes in H. apply H.
Qed.

(** X19: a blob without a signature is read, and what is read never
    verifies: where a valid JSON blob has no signature member and
    KeyFromBytes returns a key for it, with a nil error, the key carries
    no signature bytes and HasValidSignature returns false on it for
    every public key. *)
Theorem unsigned_blob_never_verifies (b : bytes) (v : json.value)
  (k : LicenseKey.t) :
  json.parse b = Some v ->
  has_member activateResponse.names (B "signature") v = false ->
  KeyFromBytes b = (k, None) ->
  LicenseKey.signatureBytes k = []
  /\ forall xml_Unmarshal publicKey,
       LicenseKey.HasValidSignature xml_Unmarshal k publicKey = false.
Proof.
  intros Hp Habs H.
  pose proof (KeyFromBytes_unsigned _ _ _ Hp Habs H) as Hs.
  split; [exact Hs |].
  intros xml pk. apply (HasValidSignature_few_bytes xml k pk 0).
  - rewrite Hs. reflexivity.
  - lia.
Qed.

Lemma unsigned_blob_never_verifies_witness :
  let b := J "{'licenseKey':'eyJGMSI6dHJ1ZX0='}" in
  let k := fst (KeyFromBytes b) in
  KeyFromBytes b = (k, None)
  /\ LicenseKey.F1 k = true
  /\ LicenseKey.HasValidSignature descriptor.Unmarshal k example_descriptor
     = false.
Proof.
  intros b k.
  assert (H : KeyFromBytes b = (k, None)) by (vm_compute; reflexivity).
  split; [exact H |]. split; [vm_compute; reflexivity |].
  apply (unsigned_blob_never_verifies b
           (json.JObject [(B "licenseKey", json.JString (B "eyJGMSI6dHJ1ZX0="))])
           k); [vm_compute; reflexivity | vm_compute; reflexivity | exact H].
Defined.

(** ** Timestamps as instants *)

Lemma json_field_inv (T : Type) (P : T -> Prop) (names : list bytes)
  (name : bytes) (dec : json.decoder T) (ms : list (bytes * json.value))
  (cur : T) :
  (forall v x, P x -> P (fst (dec v x))) -> P cur ->
  P (fst (json.field names name dec ms cur)).
Proof.
  intros Hd. unfold json.field.
  assert (G : forall acc : T * option error,
             P (fst acc) ->
             P (fst (fold_left
                       (fun acc m =>
                          if json.selects names (fst m) name then
                            let (x, e) := dec (snd m) (fst acc) in
                            (x, json.first_error (snd acc) e)
                          else acc) ms acc))).
  { induction ms as [| m r IH]; intros acc Hacc; cbn [fold_left]; [exact Hacc |].
    apply IH. destruct (json.selects names (fst m) name); [| exact Hacc].
    pose proof (Hd (snd m) (fst acc) Hacc) as H.
    destruct (dec (snd m) (fst acc)) as [x e]. exact H. }
  intros Hc. apply G. exact Hc.
Qed.

Lemma strconv_ParseInt_range (lit : bytes) (n : Z) :
  strconv.ParseInt lit = Some n -> - 2 ^ 63 <= n < 2 ^ 63.
Proof.
  unfold strconv.ParseInt.
  match goal with
  | |- match ?m with _ => _ end = _ -> _ => destruct m as [x |]; [| discriminate]
  end.
  destruct (Z.leb_spec (- 2 ^ 63) x) as [Hlo | Hlo]; cbn [andb];
    [| discriminate].
  destruct (Z.ltb_spec x (2 ^ 63)) as [Hhi | Hhi]; [| discriminate].
  intros E; inversion E; subst. lia.
Qed.

(** The integer a payload holds for a timestamp is a 64-bit integer. *)
Lemma payload_int64_range (name : bytes) (v : json.value) :
  - 2 ^ 63 <= payload name json.decode_int64 0 v < 2 ^ 63.
Proof.
  unfold payload, payload_in. destruct v; try lia.
  apply (json_field_inv Z (fun n => - 2 ^ 63 <= n < 2 ^ 63)); [| lia].
  intros x c Hc. destruct x; cbn [json.decode_int64 fst]; try exact Hc.
  destruct (strconv.ParseInt lit) as [n |] eqn:E; cbn [fst]; [| exact Hc].
  apply (strconv_ParseInt_range _ _ E).
Qed.

Lemma time_IsZero_Unix (n : Z) :
  - 2 ^ 63 <= n < 2 ^ 63 ->
  time.IsZero (time.Unix n 0) = (n =? - 62135596800).
Proof.
  intros Hn. unfold time.IsZero, time.Unix, time.sec.
  cbn [time.wall time.ext Z.ltb Z.leb Z.compare orb Z.land Z.eqb].
  rewrite andb_true_r. unfold int64.
  change time.unixToInternal with 62135596800.
  change (2 ^ 63) with 9223372036854775808 in *.
  change (2 ^ 64) with 18446744073709551616.
  destruct (Z.eqb_spec n (- 62135596800)) as [-> | Hne]; [reflexivity |].
  apply Z.eqb_neq. Z.div_mod_to_equations. lia.
Qed.



(** ** A payload that holds nothing *)

Lemma holds_nothing_selects (ms : list (bytes * json.value)) (name : bytes) :
  holds_nothing (json.JObject ms) = true ->
  existsb (fun m => json.selects LicenseKey.temp.names (fst m) name) ms = false.
Proof.
  cbn [holds_nothing]. induction ms as [| m r IH]; cbn [forallb existsb];
    [reflexivity |].
  intros H. apply andb_prop in H. destruct H as [Hm Hr].
  rewrite (IH Hr), orb_false_r. unfold json.selects.
  destruct (json.fieldName LicenseKey.temp.names (fst m));
    [discriminate | reflexivity].
Qed.

(** X21: a payload that holds nothing is a license: where the license
    bytes are the JSON text null, or an object none of whose keys selects
    a field, buildLicenseKey returns a nil error and a key that is not
    the zero LicenseKey: its plain fields are zero, its three timestamps
    are time.Unix(0, 0), its AllowedMachines is the list of one empty
    string, and it carries the bytes given. *)
Theorem empty_payload_accepted (b sig : bytes) (v : json.value) :
  json.parse b = Some v ->
  holds_nothing v = true ->
  buildLicenseKey b sig = (LicenseKey.with_bytes empty_key b sig, None)
  /\ exported (LicenseKey.with_bytes empty_key b sig) <> LicenseKey.zero.
Proof.
  intros Hp Hn. split; [| discriminate].
  unfold buildLicenseKey, json.Unmarshal. rewrite Hp.
  unfold LicenseKey.decoder, LicenseKey.UnmarshalJSON.
  destruct v; try discriminate.
  - reflexivity.
  - cbn [LicenseKey.temp.decoder].
    rewrite !json_field_absent by (apply holds_nothing_selects, Hn).
    reflexivity.
Qed.

Lemma empty_payload_accepted_witness :
  json.parse (J "{'licence':{'F1':true}}")
  = Some (json.JObject
            [(B "licence", json.JObject [(B "F1", json.JBool true)])])
  /\ buildLicenseKey (J "{'licence':{'F1':true}}") []
     = (LicenseKey.with_bytes empty_key (J "{'licence':{'F1':true}}") [], None).
Proof.
  split; [vm_compute; reflexivity |].
  apply (empty_payload_accepted (J "{'licence':{'F1':true}}") []
           (json.JObject
              [(B "licence", json.JObject [(B "F1", json.JBool true)])]));
    vm_compute; reflexivity.
Defined.

(** ** The equation of the signature *)

Lemma rsa_Verify_equation (pub : rsa.PublicKey) (hashed sig : bytes) :
  0 <= rsa.N pub -> 0 <= rsa.E pub ->
  rsa.VerifyPKCS1v15 pub rsa.SHA256 hashed sig = None ->
  let size := List.length sig in
  0 < rsa.N pub
  /\ (62 <= size)%nat
  /\ Z.of_nat size = rsa.Size pub
  /\ big.FillBytes (big.SetBytes sig ^ rsa.E pub mod rsa.N pub) size
     = [x00; x01] ++ repeat xff (size - 54) ++ [x00]
         ++ rsa.hashPrefix rsa.SHA256 ++ hashed.
Proof.
  intros HN HE. unfold rsa.VerifyPKCS1v15.
  change (rsa.hashSize rsa.SHA256) with 32.
  destruct (Z.eqb_spec (Z.of_nat (List.length hashed)) 32) as [Hh | _];
    cbn [negb]; [| discriminate].
  destruct (rsa.checkPublicKeySize pub); [discriminate |].
  destruct (rsa.checkPublicKey pub); [discriminate |].
  destruct (Z.eqb_spec (rsa.Size pub) (Z.of_nat (List.length sig))) as [Hs | _];
    cbn [negb]; [| discriminate].
  unfold rsa.encrypt.
  destruct (Z.leb_spec (rsa.N pub) (big.SetBytes sig)) as [_ | Hlt];
    [discriminate |].
  rewrite rsa_pkcs1v15ConstructEM_EMSA by lia.
  destruct (Z.ltb_spec (rsa.Size pub) 62) as [_ | Hk]; [discriminate |].
  destruct (bytes_eqb _ _) eqn:Eq; [| discriminate].
  intros _. cbv zeta. apply bytes_eqb_eq in Eq.
  pose proof (big_SetBytes_nonneg sig) as Hsig.
  assert (Hpos : 0 < rsa.N pub) by lia.
  split; [exact Hpos |]. split; [lia |]. split; [lia |].
  rewrite (big_Exp_pow _ _ _ Hpos HE), Hs, Nat2Z.id in Eq.
  rewrite Eq. unfold EMSA_PKCS1_v1_5, DigestInfo. cbv zeta.
  rewrite length_app. cbn [List.length]. unfold rsa.hashPrefix.
  replace (List.length sig - (19 + List.length hashed) - 3)%nat
    with (List.length sig - 54)%nat by lia.
  reflexivity.
Qed.

(** X22: a valid signature satisfies the equation of RSASSA-PKCS1-v1_5
    with SHA-256: where HasValidSignature returns true, the descriptor
    decodes to a modulus n > 0 and an exponent e below 2^63, the
    signature is as long as the modulus and 62 bytes at least, and the
    signature raised to e modulo n, written big-endian in as many bytes,
    is 00 01, bytes ff, 00, the DER prefix of SHA-256 and the SHA-256
    digest of the raw license bytes. *)
Theorem HasValidSignature_equation
  (xml_Unmarshal : bytes -> RSAKeyValue.t -> RSAKeyValue.t * option error)
  (lk : LicenseKey.t) (publicKey : bytes) :
  LicenseKey.HasValidSignature xml_Unmarshal lk publicKey = true ->
  exists k mb eb,
    xml_Unmarshal publicKey RSAKeyValue.zero = (k, None)
    /\ base64.DecodeString (RSAKeyValue.Modulus k) = (mb, None)
    /\ base64.DecodeString (RSAKeyValue.Exponent k) = (eb, None)
    /\ let n := big.SetBytes mb in
       let e := big.SetBytes eb in
       let sig := LicenseKey.signatureBytes lk in
       let size := List.length sig in
       0 < n /\ 0 <= e < 2 ^ 63
       /\ (62 <= size)%nat
       /\ Z.of_nat size = rsa.Size (rsa.mkPublicKey n e)
       /\ big.FillBytes (big.SetBytes sig ^ e mod n) size
          = [x00; x01] ++ repeat xff (size - 54) ++ [x00]
              ++ rsa.hashPrefix rsa.SHA256
              ++ sha256.Sum256 (LicenseKey.licenseKeyBytes lk).
Proof.
  intros H. apply HasValidSignature_verified in H.
  destruct H as (k & mb & eb & Hx & Hm & He & Hi & Hv).
  exists k, mb, eb. split; [exact Hx |]. split; [exact Hm |].
  split; [exact He |]. intros n e sig size.
  pose proof (big_SetBytes_nonneg mb) as Hn0.
  pose proof (big_SetBytes_nonneg eb) as He0.
  destruct (rsa_Verify_equation
              (rsa.mkPublicKey (big.SetBytes mb) (big.SetBytes eb)) _ _
              Hn0 He0 Hv) as (Hpos & Hlen & Hsz & Heq).
  split; [exact Hpos |]. split.
  - split; [exact He0 |]. unfold big.IsInt64 in Hi.
    apply andb_prop in Hi. destruct Hi as [_ Hi]. apply Z.ltb_lt in Hi. exact Hi.
  - split; [exact Hlen |]. split; [exact Hsz | exact Heq].
Qed.

Lemma HasValidSignature_equation_witness :
  LicenseKey.HasValidSignature descriptor.Unmarshal example_signed_key
    example_descriptor = true
  /\ exists mb,
       base64.DecodeString example_modulus = (mb, None)
       /\ big.FillBytes
            (big.SetBytes example_signature ^ 65537 mod big.SetBytes mb) 128
          = [x00; x01] ++ repeat xff 74 ++ [x00]
              ++ rsa.hashPrefix rsa.SHA256 ++ sha256.Sum256 example_payload.
Proof.
  split; [exact example_signed_key_valid |].
  destruct (HasValidSignature_equation descriptor.Unmarshal example_signed_key
              example_descriptor example_signed_key_valid)
    as (k & mb & eb & Hx & Hm & He & H).
  assert (Ek : k = example_RSAKeyValue).
  { assert (E : descriptor.Unmarshal example_descriptor RSAKeyValue.zero
                = (example_RSAKeyValue, None)) by (vm_compute; reflexivity).
    rewrite E in Hx. inversion Hx. reflexivity. }
  subst k.
  assert (Ee : eb = [x01; x00; x01]).
  { assert (E : base64.DecodeString (RSAKeyValue.Exponent example_RSAKeyValue)
                = ([x01; x00; x01], None)) by (vm_compute; reflexivity).
    rewrite E in He. inversion He. reflexivity. }
  subst eb. exists mb. split; [exact Hm |].
  cbv zeta in H. destruct H as (_ & _ & _ & _ & H).
  assert (El : List.length (LicenseKey.signatureBytes example_signed_key)
               = 128%nat) by (vm_compute; reflexivity).
  rewrite El in H. exact H.
Defined.

(** ** Records of the payload that do not decode *)

Lemma bad_member_selects (names ints strings : list bytes)
  (ms : list (bytes * json.value)) :
  existsb (bad_member names ints strings) ms = true ->
  exists key x name,
    In (key, x) ms /\ json.selects names key name = true
    /\ ((In name ints /\ int_value x = false)
        \/ (In name strings /\ string_value x = false)).
Proof.
  intros H. apply existsb_exists in H. destruct H as ([key x] & Hin & Hb).
  unfold bad_member in Hb. cbn [fst snd] in Hb.
  destruct (json.fieldName names key) as [name |] eqn:En; [| discriminate].
  exists key, x, name. split; [exact Hin |]. split.
  - unfold json.selects. rewrite En. unfold bytes_eqb.
    destruct (list_eq_dec Byte.byte_eq_dec name name); congruence.
  - apply orb_prop in Hb. destruct Hb as [Hb | Hb];
      apply andb_prop in Hb; destruct Hb as [Hm Hv];
      apply mem_In in Hm; apply negb_true_iff in Hv; auto.
Qed.

Ltac record_field_fails names Hall Hin Hs lemma :=
  match goal with
  | Hv : _ = false |- False =>
      match type of Hs with
      | json.selects _ _ ?name = true =>
          refine (json_field_error_member _ names name _ _ _ _ _
                    Hin Hs (fun c => lemma _ c Hv) _);
          symmetry; apply Hall; error_listed
      end
  end.

Lemma Customer_UnmarshalJSON_bad (c0 : Customer.t) (v : json.value) :
  bad_customer v = true ->
  Customer.UnmarshalJSON c0 v = (c0, Some json_UnmarshalTypeError).
Proof.
  intros Hb.
  assert (He : snd (Customer.temp.decoder v Customer.temp.zero)
               = Some json_UnmarshalTypeError).
  { destruct v; try discriminate; try reflexivity.
    cbn [bad_customer bad_record] in Hb. apply bad_member_selects in Hb.
    destruct Hb as (key & x & name & Hin & Hs & Hbad).
    assert (Ht : type_error_or_none
                   (snd (Customer.temp.decoder (json.JObject members)
                           Customer.temp.zero))).
    { cbn [Customer.temp.decoder]. field_errors. }
    destruct Ht as [Hn | Ht]; [exfalso | exact Ht].
    assert (Hall : Forall (eq None)
                     [snd (json.field Customer.temp.names (B "Id")
                             json.decode_int members 0);
                      snd (json.field Customer.temp.names (B "Name")
                             json.decode_string members []);
                      snd (json.field Customer.temp.names (B "Email")
                             json.decode_string members []);
                      snd (json.field Customer.temp.names (B "CompanyName")
                             json.decode_string members []);
                      snd (json.field Customer.temp.names (B "Created")
                             json.decode_int64 members 0)]).
    { apply first_of_None. revert Hn. cbn [Customer.temp.decoder].
      cbn [Customer.temp.Id Customer.temp.Name Customer.temp.Email
           Customer.temp.CompanyName Customer.temp.Created Customer.temp.zero].
      repeat match goal with
             | |- context [json.field ?a ?b ?c ?d ?e] =>
                 destruct (json.field a b c d e)
             end.
      cbn [snd]. auto. }
    rewrite Forall_forall in Hall.
    destruct Hbad as [[Hm Hv] | [Hm Hv]]; cbn [In] in Hm.
    - repeat (destruct Hm as [<- | Hm];
              [record_field_fails Customer.temp.names Hall Hin Hs
                 decode_int64_ill_typed |]).
      exact Hm.
    - repeat (destruct Hm as [<- | Hm];
              [record_field_fails Customer.temp.names Hall Hin Hs
                 decode_string_ill_typed |]).
      exact Hm. }
  unfold Customer.UnmarshalJSON.
  destruct (Customer.temp.decoder v Customer.temp.zero) as [t e].
  cbn [snd] in He. subst e. reflexivity.
Qed.

Lemma ActivationData_UnmarshalJSON_bad (a0 : ActivationData.t) (v : json.value) :
  bad_machine v = true ->
  ActivationData.UnmarshalJSON a0 v = (a0, Some json_UnmarshalTypeError).
Proof.
  intros Hb.
  assert (He : snd (ActivationData.temp.decoder v ActivationData.temp.zero)
               = Some json_UnmarshalTypeError).
  { destruct v; try discriminate; try reflexivity.
    cbn [bad_machine bad_record] in Hb. apply bad_member_selects in Hb.
    destruct Hb as (key & x & name & Hin & Hs & Hbad).
    assert (Ht : type_error_or_none
                   (snd (ActivationData.temp.decoder (json.JObject members)
                           ActivationData.temp.zero))).
    { cbn [ActivationData.temp.decoder]. field_errors. }
    destruct Ht as [Hn | Ht]; [exfalso | exact Ht].
    assert (Hall : Forall (eq None)
                     [snd (json.field ActivationData.temp.names (B "Mid")
                             json.decode_string members []);
                      snd (json.field ActivationData.temp.names (B "IP")
                             json.decode_string members []);
                      snd (json.field ActivationData.temp.names (B "Time")
                             json.decode_int64 members 0)]).
    { apply first_of_None. revert Hn. cbn [ActivationData.temp.decoder].
      cbn [ActivationData.temp.Mid ActivationData.temp.IP
           ActivationData.temp.Time ActivationData.temp.zero].
      repeat match goal with
             | |- context [json.field ?a ?b ?c ?d ?e] =>
                 destruct (json.field a b c d e)
             end.
      cbn [snd]. auto. }
    rewrite Forall_forall in Hall.
    destruct Hbad as [[Hm Hv] | [Hm Hv]]; cbn [In] in Hm.
    - repeat (destruct Hm as [<- | Hm];
              [record_field_fails ActivationData.temp.names Hall Hin Hs
                 decode_int64_ill_typed |]).
      exact Hm.
    - repeat (destruct Hm as [<- | Hm];
              [record_field_fails ActivationData.temp.names Hall Hin Hs
                 decode_string_ill_typed |]).
      exact Hm. }
  unfold ActivationData.UnmarshalJSON.
  destruct (ActivationData.temp.decoder v ActivationData.temp.zero) as [t e].
  cbn [snd] in He. subst e. reflexivity.
Qed.

Lemma json_decode_elems_error (T : Type) (zero : T) (dec : json.decoder T)
  (es : list json.value) (e : json.value) (cur : list T) :
  In e es -> (forall c, snd (dec e c) <> None) ->
  snd (json.decode_elems zero dec es cur) <> None.
Proof.
  intros Hin Hd. revert cur. induction es as [| x r IH]; intros cur;
    [destruct Hin |].
  cbn [json.decode_elems].
  destruct (dec x (hd zero cur)) as [y e1] eqn:E1.
  destruct (json.decode_elems zero dec r (tl cur)) as [ys e2] eqn:E2.
  cbn [snd]. destruct Hin as [-> | Hin].
  - pose proof (Hd (hd zero cur)) as H. rewrite E1 in H. cbn [snd] in H.
    destruct e1; [discriminate | contradiction].
  - specialize (IH Hin (tl cur)). rewrite E2 in IH. cbn [snd] in IH.
    destruct e1; [discriminate | exact IH].
Qed.

Lemma decode_machines_bad (x : json.value) (c : list ActivationData.t) :
  bad_machines x = true ->
  snd (json.decode_slice ActivationData.zero ActivationData.decoder x c) <> None.
Proof.
  intros Hb. destruct x; cbn [json.decode_slice snd]; try discriminate.
  cbn [bad_machines] in Hb. apply existsb_exists in Hb.
  destruct Hb as (e & Hin & He).
  apply (json_decode_elems_error _ _ _ _ e); [exact Hin |].
  intros a. unfold ActivationData.decoder.
  rewrite (ActivationData_UnmarshalJSON_bad a e He). discriminate.
Qed.

(** X23: a Customer or an activated machine that does not decode fails
    the whole payload: where a member of the payload object selects
    Customer and its value is not null and not an object, or is an object
    with a member of the wrong type for the field of Customer it selects,
    or where a member selects ActivatedMachines and its value is not null
    and not an array, or is an array with such an entry, the UnmarshalJSON
    of the record returns an UnmarshalTypeError and buildLicenseKey
    returns it with the zero LicenseKey. *)
Theorem bad_record_fails (b sig : bytes) (ms : list (bytes * json.value))
  (key : bytes) (x : json.value) :
  json.parse b = Some (json.JObject ms) ->
  In (key, x) ms ->
  (json.selects LicenseKey.temp.names key (B "Customer") = true
   /\ bad_customer x = true)
  \/ (json.selects LicenseKey.temp.names key (B "ActivatedMachines") = true
      /\ bad_machines x = true) ->
  buildLicenseKey b sig = (LicenseKey.zero, Some json_UnmarshalTypeError).
Proof.
  intros Hp Hin Hbad.
  assert (He : snd (LicenseKey.temp.decoder (json.JObject ms)
                      LicenseKey.temp.zero) = Some json_UnmarshalTypeError).
  { pose proof (LicenseKey_temp_decoder_type_errors (json.JObject ms)
                  LicenseKey.temp.zero) as [He | He]; [exfalso | exact He].
    cbn [LicenseKey.temp.decoder snd] in He. apply first_of_None in He.
    rewrite Forall_forall in He.
    destruct Hbad as [[Hs Hb] | [Hs Hb]].
    - refine (json_field_error_member _ LicenseKey.temp.names (B "Customer")
                Customer.decoder ms key x Customer.zero Hin Hs _ _).
      + intros c. unfold Customer.decoder.
        rewrite (Customer_UnmarshalJSON_bad c x Hb). discriminate.
      + symmetry. apply He. error_listed.
    - refine (json_field_error_member _ LicenseKey.temp.names
                (B "ActivatedMachines")
                (json.decode_slice ActivationData.zero ActivationData.decoder)
                ms key x [] Hin Hs _ _).
      + intros c. apply decode_machines_bad, Hb.
      + symmetry. apply He. error_listed. }
  unfold buildLicenseKey, json.Unmarshal. rewrite Hp.
  unfold LicenseKey.decoder, LicenseKey.UnmarshalJSON.
  destruct (LicenseKey.temp.decoder (json.JObject ms) LicenseKey.temp.zero)
    as [t e].
  cbn [snd] in He. subst e. reflexivity.
Qed.

Lemma bad_record_fails_witness :
  let b := J "{'F1':true,'ActivatedMachines':[{'Mid':'m1','Time':5},{'Mid':'m2','Time':'yesterday'}]}" in
  let machines :=
    json.JArray
      [json.JObject [(B "Mid", json.JString (B "m1"));
                     (B "Time", json.JNumber (B "5"))];
       json.JObject [(B "Mid", json.JString (B "m2"));
                     (B "Time", json.JString (B "yesterday"))]] in
  json.parse b
  = Some (json.JObject [(B "F1", json.JBool true);
                        (B "ActivatedMachines", machines)])
  /\ buildLicenseKey b [] = (LicenseKey.zero, Some json_UnmarshalTypeError).
Proof.
  intros b machines.
  assert (Hp : json.parse b
               = Some (json.JObject [(B "F1", json.JBool true);
                                     (B "ActivatedMachines", machines)]))
    by (vm_compute; reflexivity).
  split; [exact Hp |].
  apply (bad_record_fails b [] _ (B "ActivatedMachines") machines Hp).
  - right. left. reflexivity.
  - right. split; vm_compute; reflexivity.
Defined.

(** ** The example program *)

Lemma example_main_unfold
  (http : bytes -> list (bytes * bytes) -> bytes * option error)
  (xml : bytes -> RSAKeyValue.t -> RSAKeyValue.t * option error)
  (now : time.Time) :
  example_activate.main http xml now
  = let (licenseKey, err) :=
      KeyActivate http example_activate.token example_args in
    if match err with Some _ => true | None => false end
       || negb (LicenseKey.HasValidSignature xml licenseKey
                  example_activate.publicKey)
    then [failed_line]
    else
      product_line licenseKey
      :: (if time.After now (LicenseKey.Expires licenseKey)
          then [expired_line]
          else if LicenseKey.F1 licenseKey
               then [B "Welcome! Pro version enabled!"]
               else [B "Welcome!"]).
Proof. reflexivity. Qed.

Lemma product_line_not_greeting (k : LicenseKey.t) : ~ greeting (product_line k).
Proof. unfold greeting, product_line. intros [H | H]; discriminate H. Qed.

Lemma product_line_not_expired (k : LicenseKey.t) : product_line k <> expired_line.
Proof. unfold product_line, expired_line. intros H. discriminate H. Qed.

(** X24: the example program greets the user only for a key that was
    activated, whose signature verifies under the public key of the
    program and that has not expired: whenever main prints one of its two
    Welcome lines, KeyActivate returned a key with a nil error,
    HasValidSignature is true of it, the clock is not after its Expires,
    the output is the product line followed by that greeting, and the
    greeting is the Pro one exactly when F1 is set. *)
Theorem example_greets_valid_keys
  (http : bytes -> list (bytes * bytes) -> bytes * option error)
  (xml : bytes -> RSAKeyValue.t -> RSAKeyValue.t * option error)
  (now : time.Time) (line : bytes) :
  In line (example_activate.main http xml now) ->
  greeting line ->
  exists k,
    KeyActivate http example_activate.token example_args = (k, None)
    /\ LicenseKey.HasValidSignature xml k example_activate.publicKey = true
    /\ time.After now (LicenseKey.Expires k) = false
    /\ example_activate.main http xml now = [product_line k; line]
    /\ (line = B "Welcome! Pro version enabled!" <-> LicenseKey.F1 k = true).
Proof.
  rewrite example_main_unfold.
  destruct (KeyActivate http example_activate.token example_args)
    as [k [e |]] eqn:Ek; cbn [orb negb].
  - intros [<- | []] [H | H]; discriminate H.
  - destruct (LicenseKey.HasValidSignature xml k example_activate.publicKey)
      eqn:Ev; cbn [negb].
    + destruct (time.After now (LicenseKey.Expires k)) eqn:Ea.
      * intros [<- | [<- | []]] Hg;
          [destruct (product_line_not_greeting k Hg) |].
        destruct Hg as [H | H]; discriminate H.
      * intros Hin Hg. exists k.
        split; [reflexivity |]. split; [exact Ev |]. split; [exact Ea |].
        destruct (LicenseKey.F1 k);
          destruct Hin as [<- | [<- | []]];
          try (destruct (product_line_not_greeting k Hg));
          (split; [reflexivity |]); split; intros H;
          try reflexivity; try discriminate H.
    + intros [<- | []] [H | H]; discriminate H.
Qed.

Lemma example_greets_valid_keys_witness :
  let http := answers (fst (LicenseKey.ToBytes example_signed_key)) in
  let xml := fun (_ : bytes) (_ : RSAKeyValue.t) =>
               (example_RSAKeyValue, @None error) in
  let now := time.Unix 1600000000 0 in
  example_activate.main http xml now
  = [product_line example_signed_key; B "Welcome! Pro version enabled!"]
  /\ exists k,
       KeyActivate http example_activate.token example_args = (k, None)
       /\ LicenseKey.HasValidSignature xml k example_activate.publicKey = true
       /\ LicenseKey.F1 k = true.
Proof.
  intros http xml now.
  assert (Hm : example_activate.main http xml now
               = [product_line example_signed_key;
                  B "Welcome! Pro version enabled!"])
    by (vm_compute; reflexivity).
  split; [exact Hm |].
  destruct (example_greets_valid_keys http xml now
              (B "Welcome! Pro version enabled!"))
    as (k & Hk & Hv & _ & _ & Hf).
  - rewrite Hm. right. left. reflexivity.
  - right. reflexivity.
  - exists k. split; [exact Hk |]. split; [exact Hv |]. apply Hf. reflexivity.
Defined.

(** X25: the example program refuses a response without a signature:
    where the server answers the request of the program with valid JSON
    that has no signature member, main prints the line License key
    activation failed! and nothing else, whatever the license in the
    response holds, for every XML decoder and every clock. *)
Theorem example_refuses_unsigned
  (http : bytes -> list (bytes * bytes) -> bytes * option error)
  (xml : bytes -> RSAKeyValue.t -> RSAKeyValue.t * option error)
  (now : time.Time) (body : bytes) (v : json.value) :
  http activate_url (activate_form example_activate.token example_args)
  = (body, None) ->
  json.parse body = Some v ->
  has_member activateResponse.names (B "signature") v = false ->
  example_activate.main http xml now = [failed_line].
Proof.
  intros Hh Hp Habs. rewrite example_main_unfold.
  rewrite (KeyActivate_body _ _ _ _ Hh), (KeyActivate_valid_body _ _ _ v Hp).
  destruct (KeyFromBytes body) as [k [e |]] eqn:Ek; [reflexivity |].
  pose proof (KeyFromBytes_unsigned _ _ _ Hp Habs Ek) as Hs.
  rewrite (HasValidSignature_few_bytes xml k example_activate.publicKey 0);
    [reflexivity | rewrite Hs; reflexivity | lia].
Qed.

Lemma example_refuses_unsigned_witness :
  let body := J "{'licenseKey':'eyJGMSI6dHJ1ZX0=','result':0,'message':''}" in
  snd (KeyFromBytes body) = None
  /\ LicenseKey.F1 (fst (KeyFromBytes body)) = true
  /\ example_activate.main (answers body) descriptor.Unmarshal
       (time.Unix 1600000000 0) = [failed_line].
Proof.
  split; [vm_compute; reflexivity |]. split; [vm_compute; reflexivity |].
  apply (example_refuses_unsigned
           (answers (J "{'licenseKey':'eyJGMSI6dHJ1ZX0=','result':0,'message':''}"))
           descriptor.Unmarshal (time.Unix 1600000000 0)
           (J "{'licenseKey':'eyJGMSI6dHJ1ZX0=','result':0,'message':''}")
           (json.JObject [(B "licenseKey", json.JString (B "eyJGMSI6dHJ1ZX0="));
                          (B "result", json.JNumber (B "0"));
                          (B "message", json.JString [])]));
    [reflexivity | vm_compute; reflexivity | vm_compute; reflexivity].
Defined.

(** The comparison of an instant with a timestamp of the payload. *)
Lemma time_After_Unix (now : time.Time) (n : Z) :
  time.After now (time.Unix n 0)
  = (int64 (n + time.unixToInternal) <? time.sec now)
    || ((time.sec now =? int64 (n + time.unixToInternal))
        && (0 <? time.nsec now)).
Proof.
  unfold time.After, time.Unix.
  cbn [time.wall time.ext Z.ltb Z.leb Z.compare orb].
  rewrite Z.land_0_r. cbn [Z.land Z.eqb negb].
  unfold time.sec at 2, time.nsec at 1. cbn [time.wall time.ext Z.land Z.eqb].
  reflexivity.
Qed.

(** X26: the expiry check of the example program is the comparison of
    the clock with the second the payload gives, up to the wrap-around of
    time.Unix: for a key activated with success whose signature verifies,
    where the payload holds the integer expires for Expires and the clock
    reads sec seconds since January 1 of year 1, main prints License key
    has expired exactly when sec is past expires + 62135596800, or equal
    to it with a nanosecond part above zero, provided expires is below
    2^63 - 62135596800; from that value on the sum wraps around and main
    prints the line for every clock that is not before year 1. *)
Theorem example_expiry
  (http : bytes -> list (bytes * bytes) -> bytes * option error)
  (xml : bytes -> RSAKeyValue.t -> RSAKeyValue.t * option error)
  (now : time.Time) (k : LicenseKey.t) (v : json.value) :
  KeyActivate http example_activate.token example_args = (k, None) ->
  LicenseKey.HasValidSignature xml k example_activate.publicKey = true ->
  json.parse (LicenseKey.licenseKeyBytes k) = Some v ->
  let expires := payload (B "Expires") json.decode_int64 0 v in
  let expired := In expired_line (example_activate.main http xml now) in
  (expires < 2 ^ 63 - 62135596800 ->
   (expired <->
    expires + 62135596800 < time.sec now
    \/ (time.sec now = expires + 62135596800 /\ 0 < time.nsec now)))
  /\ (2 ^ 63 - 62135596800 <= expires -> 0 <= time.sec now -> expired).
Proof.
  intros Hk Hv Hp expires expired.
  assert (HE : LicenseKey.Expires k = time.Unix expires 0).
  { destruct (KeyActivate_built _ _ _ _ Hk) as (lic & sig & Hb).
    destruct (buildLicenseKey_bytes _ _ _ Hb) as [Hl _]. rewrite Hl in Hp.
    destruct (buildLicenseKey_payload _ _ _ Hb) as (v' & k' & Hp' & Hu & ->).
    rewrite Hp in Hp'. inversion Hp'; subst v'.
    destruct (LicenseKey_UnmarshalJSON_fields _ _ _ Hu) as (_ & _ & H & _).
    exact H. }
  assert (Hm : expired <-> time.After now (time.Unix expires 0) = true).
  { unfold expired. rewrite example_main_unfold, Hk, Hv, HE. cbn [orb negb].
    destruct (time.After now (time.Unix expires 0)).
    - split; [reflexivity |]. intros _. right. left. reflexivity.
    - split; [| discriminate].
      intros [H | H]; [destruct (product_line_not_expired k H) |].
      destruct (LicenseKey.F1 k); destruct H as [H | []]; discriminate H. }
  pose proof (payload_int64_range (B "Expires") v) as Hr. fold expires in Hr.
  rewrite Hm, time_After_Unix. unfold int64.
  change time.unixToInternal with 62135596800.
  change (2 ^ 63) with 9223372036854775808 in *.
  change (2 ^ 64) with 18446744073709551616.
  split.
  - intros Hlt.
    replace ((expires + 62135596800 + 9223372036854775808)
               mod 18446744073709551616 - 9223372036854775808)
      with (expires + 62135596800)
      by (Z.div_mod_to_equations; lia).
    rewrite orb_true_iff, andb_true_iff, !Z.ltb_lt, Z.eqb_eq. reflexivity.
  - intros Hge Hs. apply orb_true_iff. left. apply Z.ltb_lt.
    Z.div_mod_to_equations. lia.
Qed.

Lemma example_expiry_witness :
  let http := answers (fst (LicenseKey.ToBytes example_signed_key)) in
  let xml := fun (_ : bytes) (_ : RSAKeyValue.t) =>
               (example_RSAKeyValue, @None error) in
  KeyActivate http example_activate.token example_args
  = (example_signed_key, None)
  /\ payload (B "Expires") json.decode_int64 0 example_value = 1700000000
  /\ In expired_line (example_activate.main http xml (time.Unix 1800000000 0))
  /\ ~ In expired_line (example_activate.main http xml (time.Unix 1700000000 0)).
Proof.
  intros http xml.
  assert (Hk : KeyActivate http example_activate.token example_args
               = (example_signed_key, None)) by (vm_compute; reflexivity).
  assert (Hv : LicenseKey.HasValidSignature xml example_signed_key
                 example_activate.publicKey = true) by (vm_compute; reflexivity).
  assert (Hp : json.parse (LicenseKey.licenseKeyBytes example_signed_key)
               = Some example_value) by (vm_compute; reflexivity).
  assert (He : payload (B "Expires") json.decode_int64 0 example_value
               = 1700000000) by (vm_compute; reflexivity).
  split; [exact Hk |]. split; [exact He |]. split.
  - destruct (example_expiry http xml (time.Unix 1800000000 0)
                example_signed_key example_value Hk Hv Hp) as [H _].
    cbv zeta in H. rewrite He in H. apply (proj2 (H eq_refl)).
    left. vm_compute. reflexivity.
  - destruct (example_expiry http xml (time.Unix 1700000000 0)
                example_signed_key example_value Hk Hv Hp) as [H _].
    cbv zeta in H. rewrite He in H. intros Hin.
    apply (proj1 (H eq_refl)) in Hin.
    destruct Hin as [Hin | [_ Hin]]; vm_compute in Hin; discriminate Hin.
Defined.
